(** * Mullvad server tester: the probing core of [server_manager.py]

    A shallow embedding of the latency prober ([parse_unix_ping],
    [parse_windows_ping], [ping_test], [get_server_latency]), the worker pool
    ([test_servers]), the socket ping-pong speed probe ([calculate_mbps],
    [_execute_socket_ping_pong], [run_socket_ping_pong_test]), the relay
    list processing ([filter_servers_by_protocol], [get_all_servers],
    [get_servers_by_country]), the CSV export ([export_to_csv]), the cell
    colours ([calculate_latency_color], [calculate_speed_color]) and, of
    [tester_gui.py], [get_flag_emoji].

    Python [float] is IEEE 754 binary64: it is modelled by Rocq's primitive
    [float], whose operations are specified by [SpecFloat].  Python [int] is
    [Z].  Python [str] is [string]; text is restricted to 8-bit characters.
    A call that can raise returns a [result]. *)

From Stdlib Require Import ZArith List Bool String Ascii Lia Floats.
From Stdlib Require Import DecimalString Permutation Sorted.
From Stdlib Require HexadecimalString.
Import ListNotations.

#[local] Set Warnings "-inexact-float,-register-all".
#[local] Open Scope Z_scope.

(* ================================================================== *)
(** * Part I: the model *)
(* ================================================================== *)

(** ** Exceptions and results *)

(** The exception classes the module raises or catches.  All of them are
    subclasses of [Exception]. *)
Inductive exn : Type :=
| ValueError
| IndexError
| ZeroDivisionError
| OverflowError
| TypeError
| AttributeError
| TimeoutExpired
| FileNotFoundError
| SocketTimeout
| SocketError
| StopIteration
| MemoryError
| OtherException.

Inductive result (A : Type) : Type :=
| Ret (a : A)
| Raise (e : exn).
Arguments Ret {A} a.
Arguments Raise {A} e.

Definition bind {A B : Type} (m : result A) (k : A -> result B) : result B :=
  match m with
  | Ret a => k a
  | Raise e => Raise e
  end.

Notation "x <- m ;; k" := (bind m (fun x => k))
  (at level 61, m at next level, right associativity).

(** ** Floating point *)

(** [float(n)] for an [int]: rounded to nearest-even, [OverflowError] when the
    rounded value is not finite. *)
Definition float_of_int (n : Z) : result float :=
  match binary_normalize prec emax n 0 false with
  | S754_infinity _ => Raise OverflowError
  | x => Ret (SF2Prim x)
  end.

(** [a / b] on floats: [ZeroDivisionError] when [b == 0.0]. *)
Definition float_truediv (a b : float) : result float :=
  if (b =? 0)%float then Raise ZeroDivisionError else Ret (a / b)%float.

(** [n / b] for an [int] [n] and a [float] [b]: the int is converted first. *)
Definition int_truediv_float (n : Z) (b : float) : result float :=
  a <- float_of_int n ;; float_truediv a b.

(** ** Text *)

#[local] Open Scope string_scope.
#[local] Open Scope Z_scope.

Definition is_digit (c : ascii) : bool :=
  let n := nat_of_ascii c in (48 <=? n)%nat && (n <=? 57)%nat.

Definition digit_val (c : ascii) : Z := Z.of_nat (nat_of_ascii c) - 48.

(** [str.isspace] on one character (code points below 256). *)
Definition is_space (c : ascii) : bool :=
  let n := nat_of_ascii c in
  ((9 <=? n)%nat && (n <=? 13)%nat) || ((28 <=? n)%nat && (n <=? 32)%nat)
  || (n =? 133)%nat || (n =? 160)%nat.

(** The line boundaries of [str.splitlines], [\r\n] apart. *)
Definition is_linebreak (c : ascii) : bool :=
  let n := nat_of_ascii c in
  ((10 <=? n)%nat && (n <=? 13)%nat) || ((28 <=? n)%nat && (n <=? 30)%nat)
  || (n =? 133)%nat.

(** [str.lower] on one character: A-Z, and the upper-case letters of the
    upper half of the 8-bit range. *)
Definition to_lower (c : ascii) : ascii :=
  let n := nat_of_ascii c in
  if ((65 <=? n)%nat && (n <=? 90)%nat)
     || ((192 <=? n)%nat && (n <=? 222)%nat && negb (n =? 215)%nat)
  then ascii_of_nat (n + 32) else c.

(** [str.lower] *)
Fixpoint lower (s : string) : string :=
  match s with
  | "" => ""
  | String c s' => String (to_lower c) (lower s')
  end.

Fixpoint string_rev_app (r s : string) : string :=
  match r with
  | "" => s
  | String c r' => string_rev_app r' (String c s)
  end.

Definition string_rev (s : string) : string := string_rev_app s "".

Fixpoint drop_while (p : ascii -> bool) (s : string) : string :=
  match s with
  | "" => ""
  | String c s' => if p c then drop_while p s' else s
  end.

(** [str.strip()] *)
Definition strip (s : string) : string :=
  string_rev (drop_while is_space (string_rev (drop_while is_space s))).

(** [s.startswith(p)], returning what follows the prefix. *)
Fixpoint strip_prefix (p s : string) : option string :=
  match p with
  | "" => Some s
  | String a p' =>
      match s with
      | "" => None
      | String b s' => if Ascii.eqb a b then strip_prefix p' s' else None
      end
  end.

(** [sub in s] *)
Fixpoint contains (sub s : string) : bool :=
  match strip_prefix sub s with
  | Some _ => true
  | None =>
      match s with
      | "" => false
      | String _ s' => contains sub s'
      end
  end.

(** [s.split(sep)] for a one-character separator; [cur] is the current field,
    reversed. *)
Fixpoint split_aux (sep : ascii) (s : string) (cur : string) : list string :=
  match s with
  | "" => [string_rev cur]
  | String c s' =>
      if Ascii.eqb c sep then string_rev cur :: split_aux sep s' ""
      else split_aux sep s' (String c cur)
  end.

Definition split (sep : ascii) (s : string) : list string := split_aux sep s "".

(** [s.splitlines()] *)
Fixpoint splitlines_aux (s : string) (cur : string) : list string :=
  match s with
  | "" => match cur with "" => [] | _ => [string_rev cur] end
  | String c s' =>
      if Ascii.eqb c "013" then
        match s' with
        | String "010" s'' => string_rev cur :: splitlines_aux s'' ""
        | _ => string_rev cur :: splitlines_aux s' ""
        end
      else if is_linebreak c then string_rev cur :: splitlines_aux s' ""
      else splitlines_aux s' (String c cur)
  end.

Definition splitlines (s : string) : list string := splitlines_aux s "".

(** [l[i]] *)
Definition index {A : Type} (l : list A) (i : nat) : result A :=
  match nth_error l i with
  | Some a => Ret a
  | None => Raise IndexError
  end.

(** ** Regular expressions

    The fragment of [re] the module uses: a sequence of literals and greedy
    one-or-more character classes, one of which is the capturing group. *)

Inductive atom : Type :=
| Lit (s : string)
| Plus (p : ascii -> bool)
| CapPlus (p : ascii -> bool).

(** Length of the longest prefix of [s] made of [p] characters. *)
Fixpoint span_len (p : ascii -> bool) (s : string) : nat :=
  match s with
  | String c s' => if p c then S (span_len p s') else O
  | "" => O
  end.

Fixpoint string_drop (n : nat) (s : string) : string :=
  match n, s with
  | S n', String _ s' => string_drop n' s'
  | _, _ => s
  end.

Fixpoint string_take (n : nat) (s : string) : string :=
  match n, s with
  | S n', String c s' => String c (string_take n' s')
  | _, _ => ""
  end.

(** Greedy choice with backtracking: tries [n], [n - 1], ..., [1]. *)
Fixpoint first_some {A : Type} (f : nat -> option A) (n : nat) : option A :=
  match n with
  | O => None
  | S n' => match f n with Some r => Some r | None => first_some f n' end
  end.

(** Matches [rs] at the start of [s]; [cap] is the text of the group so far.
    The result is the group's text once all atoms have matched. *)
Fixpoint match_atoms (rs : list atom) (s : string) (cap : option string)
  : option (option string) :=
  match rs with
  | [] => Some cap
  | Lit l :: rs' =>
      match strip_prefix l s with
      | Some s' => match_atoms rs' s' cap
      | None => None
      end
  | Plus p :: rs' =>
      first_some (fun n => match_atoms rs' (string_drop n s) cap) (span_len p s)
  | CapPlus p :: rs' =>
      first_some (fun n => match_atoms rs' (string_drop n s) (Some (string_take n s)))
                 (span_len p s)
  end.

(** [re.search(rs, s)]: the match at the leftmost position that has one. *)
Fixpoint re_search (rs : list atom) (s : string) : option (option string) :=
  match match_atoms rs s None with
  | Some g => Some g
  | None =>
      match s with
      | "" => None
      | String _ s' => re_search rs s'
      end
  end.

(** [match.group(1)] *)
Definition group1 (m : option string) : string :=
  match m with Some g => g | None => "" end.

(** ** [float(str)] *)

(** The value of a string of decimal digits, continuing from [acc]. *)
Fixpoint decimal_value (s : string) (acc : Z) : Z :=
  match s with
  | "" => acc
  | String c s' => decimal_value s' (10 * acc + digit_val c)
  end.

(** [digit (["_"] digit)*] after its first digit; [acc] is the value read so
    far and [n] the number of digits. *)
Fixpoint digitpart_tail (s : string) (acc : Z) (n : Z) : Z * Z * string :=
  match s with
  | String c s' =>
      if is_digit c then digitpart_tail s' (10 * acc + digit_val c) (n + 1)
      else if Ascii.eqb c "_" then
        match s' with
        | String d s'' =>
            if is_digit d then digitpart_tail s'' (10 * acc + digit_val d) (n + 1)
            else (acc, n, s)
        | "" => (acc, n, s)
        end
      else (acc, n, s)
  | "" => (acc, n, s)
  end.

Definition digitpart (s : string) (acc : Z) : option (Z * Z * string) :=
  match s with
  | String c s' =>
      if is_digit c then Some (digitpart_tail s' (10 * acc + digit_val c) 1)
      else None
  | "" => None
  end.

(** [number ::= [digitpart] "." digitpart | digitpart ["."]]: the digits read
    as one integer, the number of digits after the point, the rest. *)
Definition number (s : string) : option (Z * Z * string) :=
  match digitpart s 0 with
  | Some (ip, _, r1) =>
      match r1 with
      | String c r2 =>
          if Ascii.eqb c "." then
            match digitpart r2 ip with
            | Some (m, k, r3) => Some (m, k, r3)
            | None => Some (ip, 0, r2)
            end
          else Some (ip, 0, r1)
      | "" => Some (ip, 0, r1)
      end
  | None =>
      match s with
      | String c r2 => if Ascii.eqb c "." then digitpart r2 0 else None
      | "" => None
      end
  end.

Definition sign (s : string) : bool * string :=
  match s with
  | String c s' =>
      if Ascii.eqb c "-" then (true, s')
      else if Ascii.eqb c "+" then (false, s')
      else (false, s)
  | "" => (false, s)
  end.

(** [exponent ::= ("e" | "E") [sign] digitpart], when it is there. *)
Definition exponent (s : string) : Z * string :=
  match s with
  | String c s' =>
      if Ascii.eqb (to_lower c) "e" then
        let (neg, s'') := sign s' in
        match digitpart s'' 0 with
        | Some (e, _, r) => (if neg then - e else e, r)
        | None => (0, s)
        end
      else (0, s)
  | "" => (0, s)
  end.

(** The binary64 nearest to [(-1)^neg * m * 10^e], ties to even. *)
Definition decimal_to_float (neg : bool) (m e : Z) : float :=
  match m with
  | Zpos p =>
      if 0 <=? e then
        SF2Prim (binary_normalize prec emax
                   ((if neg then Zneg p else Zpos p) * 10 ^ e) 0 false)
      else
        SF2Prim (SFdiv prec emax (S754_finite neg p 0)
                   (S754_finite false (Z.to_pos (10 ^ (- e))) 0))
  | _ => if neg then (-0)%float else 0%float
  end.

(** The white space [float] takes off both ends of its argument: the
    ASCII white space and, of the upper half of the 8-bit range, U+0085 and
    U+00A0.  The separators U+001C to U+001F, which [str.strip] removes, are
    not among it. *)
Definition is_float_space (c : ascii) : bool :=
  let n := nat_of_ascii c in
  ((9 <=? n)%nat && (n <=? 13)%nat) || (n =? 32)%nat
  || (n =? 133)%nat || (n =? 160)%nat.

Definition float_strip (s : string) : string :=
  string_rev (drop_while is_float_space (string_rev (drop_while is_float_space s))).

(** [float(s)] for a [str]: [ValueError] when [s] is not a float literal. *)
Definition py_float (s : string) : result float :=
  let (neg, body) := sign (float_strip s) in
  let name := lower body in
  if String.eqb name "inf" || String.eqb name "infinity" then
    Ret (if neg then neg_infinity else infinity)
  else if String.eqb name "nan" then Ret nan
  else
    match number body with
    | Some (m, k, r) =>
        match exponent r with
        | (e, "") => Ret (decimal_to_float neg m (e - k))
        | _ => Raise ValueError
        end
    | None => Raise ValueError
    end.

(** ** Parsing the output of [ping] *)

Definition digit_or_dot (c : ascii) : bool := is_digit c || Ascii.eqb c ".".

(** [r'rtt min/avg/max/mdev = [\d.]+/([\d.]+)/[\d.]+/[\d.]+ ms'] *)
Definition rtt_regex : list atom :=
  [Lit "rtt min/avg/max/mdev = "; Plus digit_or_dot; Lit "/";
   CapPlus digit_or_dot; Lit "/"; Plus digit_or_dot; Lit "/";
   Plus digit_or_dot; Lit " ms"].

(** [r"Average = (\d+)ms"] *)
Definition average_regex : list atom :=
  [Lit "Average = "; CapPlus is_digit; Lit "ms"].

(** The body of the fallback loop for one line that has "avg" and "=": the
    [try] block, whose [IndexError] and [ValueError] the loop swallows. *)
Definition avg_of_line (line : string) : result (option float) :=
  field <- index (split "=" line) 1 ;;
  let parts := split "/" (strip field) in
  if (2 <=? List.length parts)%nat then
    tok <- index parts 1 ;;
    v <- py_float tok ;;
    Ret (Some v)
  else Ret None.

Fixpoint scan_avg_lines (lines : list string) : option float :=
  match lines with
  | [] => None
  | line :: rest =>
      if contains "avg" line && contains "=" line then
        match avg_of_line line with
        | Ret (Some v) => Some v
        | Ret None => scan_avg_lines rest
        | Raise _ => scan_avg_lines rest
        end
      else scan_avg_lines rest
  end.

Definition parse_unix_ping (output : string) : result (option float) :=
  match re_search rtt_regex output with
  | Some m => v <- py_float (group1 m) ;; Ret (Some v)
  | None => Ret (scan_avg_lines (splitlines output))
  end.

Definition parse_windows_ping (output : string) : result (option float) :=
  match re_search average_regex output with
  | Some m => v <- py_float (group1 m) ;; Ret (Some v)
  | None => Ret None
  end.

(** ** What a regular expression matches

    The declarative reading of the fragment, against which [match_atoms] and
    [re_search] are checked: [matches rs w cap c] says that the atoms [rs]
    match exactly the text [w], turning the group text [cap] into [c]. *)

Fixpoint string_forall (p : ascii -> bool) (s : string) : bool :=
  match s with
  | "" => true
  | String c s' => p c && string_forall p s'
  end.

Inductive matches : list atom -> string -> option string -> option string -> Prop :=
| matches_nil cap : matches [] "" cap cap
| matches_lit l rs w cap c :
    matches rs w cap c -> matches (Lit l :: rs) (l ++ w) cap c
| matches_plus p rs run w cap c :
    run <> "" -> string_forall p run = true ->
    matches rs w cap c -> matches (Plus p :: rs) (run ++ w) cap c
| matches_capplus p rs run w cap c :
    run <> "" -> string_forall p run = true ->
    matches rs w (Some run) c -> matches (CapPlus p :: rs) (run ++ w) cap c.

(** The text [rtt min/avg/max/mdev = A/B/C/D ms], and what a field of it is:
    a non-empty run of digits and dots. *)
Definition rtt_line (a b c d : string) : string :=
  "rtt min/avg/max/mdev = " ++ a ++ "/" ++ b ++ "/" ++ c ++ "/" ++ d ++ " ms".

Definition rtt_field (a : string) : Prop :=
  a <> "" /\ string_forall digit_or_dot a = true.

(** ** Python values and dictionaries

    The relay records come from [relays.json]: a dictionary has string keys
    and is kept as an association list in insertion order. *)

Inductive pyval : Type :=
| VNone
| VBool (b : bool)
| VInt (n : Z)
| VFloat (f : float)
| VStr (s : string)
| VList (l : list pyval)
| VDict (d : list (string * pyval)).

Definition dict : Type := list (string * pyval).

(** [bool(v)] *)
Definition truthy (v : pyval) : bool :=
  match v with
  | VNone => false
  | VBool b => b
  | VInt n => negb (n =? 0)
  | VFloat f => negb (f =? 0)%float
  | VStr s => negb (String.eqb s "")
  | VList l => match l with [] => false | _ => true end
  | VDict d => match d with [] => false | _ => true end
  end.

Fixpoint dict_lookup (d : dict) (k : string) : option pyval :=
  match d with
  | [] => None
  | (k', v) :: d' => if String.eqb k' k then Some v else dict_lookup d' k
  end.

(** [d.get(k, default)] *)
Definition dict_get_default (d : dict) (k : string) (default : pyval) : pyval :=
  match dict_lookup d k with
  | Some v => v
  | None => default
  end.

(** [d.get(k)] *)
Definition dict_get (d : dict) (k : string) : pyval := dict_get_default d k VNone.

(** [k in d] *)
Definition dict_mem (d : dict) (k : string) : bool :=
  match dict_lookup d k with Some _ => true | None => false end.

(** [d[k] = v] *)
Fixpoint dict_set (d : dict) (k : string) (v : pyval) : dict :=
  match d with
  | [] => [(k, v)]
  | (k', v') :: d' =>
      if String.eqb k' k then (k', v) :: d' else (k', v') :: dict_set d' k v
  end.

(** ** Throughput *)

Definition calculate_mbps (bytes_transferred : Z) (duration_sec : float)
  : result float :=
  if (duration_sec <=? 0.01)%float || (bytes_transferred <=? 0) then
    Ret 0%float
  else
    int_truediv_float (bytes_transferred * 8) (duration_sec * 1000000)%float.

(** ** The latency prober *)

(** [str(n)] for an [int] *)
Definition str_of_int (n : Z) : string := NilZero.string_of_int (Z.to_int n).

(** What [subprocess.run(cmd, capture_output=True, text=True, timeout=t)]
    does: the process ends with an exit code and its two output texts, or the
    call raises ([TimeoutExpired], [FileNotFoundError], ...). *)
Inductive proc_outcome : Type :=
| Completed (returncode : Z) (stdout stderr : string)
| ProcRaise (e : exn).

(** The machine the prober runs on: [platform.system()] and the behaviour of
    [subprocess.run] on a command line and a timeout. *)
Record host : Type := {
  system : string;
  subprocess_run : list string -> Z -> proc_outcome
}.

(** A subprocess call that was made: its command line and timeout. *)
Definition call : Type := (list string * Z)%type.

(** The command line and the parser that [ping_test] selects. *)
Definition ping_command (h : host) (target_ip : string) (count timeout_sec : Z)
  : list string * (string -> result (option float)) :=
  if String.eqb (lower (system h)) "windows" then
    (["ping"; "-n"; str_of_int count; "-w"; str_of_int (timeout_sec * 1000);
      target_ip], parse_windows_ping)
  else
    (["ping"; "-c"; str_of_int count; "-W"; str_of_int timeout_sec; target_ip],
     parse_unix_ping).

(** The [try] block of [ping_test], with the subprocess calls it makes.  A
    target that is no [str] fails in [' '.join(cmd)], before the call. *)
Definition ping_try (h : host) (target_ip : pyval) (count timeout_sec : Z)
  : result (option float) * list call :=
  match target_ip with
  | VStr ip =>
      let (cmd, parse_func) := ping_command h ip count timeout_sec in
      let calls := [(cmd, timeout_sec + 2)] in
      match subprocess_run h cmd (timeout_sec + 2) with
      | ProcRaise e => (Raise e, calls)
      | Completed returncode stdout stderr =>
          if negb (returncode =? 0) then (Ret None, calls)
          else (parse_func stdout, calls)
      end
  | _ => (Raise TypeError, [])
  end.

Definition ping_test (h : host) (target_ip : pyval) (count timeout_sec : Z)
  : result (option float) * list call :=
  if negb (truthy target_ip) then (Ret None, [])
  else
    match ping_try h target_ip count timeout_sec with
    | (Ret avg_latency, calls) => (Ret avg_latency, calls)
    | (Raise TimeoutExpired, calls) => (Ret None, calls)
    | (Raise FileNotFoundError, calls) => (Ret None, calls)
    | (Raise _, calls) => (Ret None, calls)
    end.

(** The result dictionary [{"server": ..., "latency": ...}]. *)
Record probe_result : Type := {
  server : dict;
  latency : option float
}.

Definition get_server_latency (h : host) (srv : dict) (ping_count timeout_sec : Z)
  : result probe_result * list call :=
  let ip_address := dict_get srv "ipv4_addr_in" in
  if negb (truthy ip_address) then
    (Ret {| server := srv; latency := None |}, [])
  else
    match ping_test h ip_address ping_count (timeout_sec / 2) with
    | (Ret lat, calls) => (Ret {| server := srv; latency := lat |}, calls)
    | (Raise e, calls) => (Raise e, calls)
    end.

(** ** The speed prober

    The clock, the stop event and the sockets are what the session observes
    of the outside: the n-th call of each kind has the outcome the [network]
    gives it, and the [io_state] counts the calls made so far. *)

Definition DEFAULT_PORTS : list Z := [443; 80; 8080; 51820].
Definition DEFAULT_DURATION : Z := 5.
Definition DEFAULT_CHUNK_SIZE : Z := 8192.
Definition DEFAULT_CONN_TIMEOUT : Z := 5.

Record network : Type := {
  clock : nat -> float;          (* the n-th [time.monotonic()] *)
  stop_set : nat -> bool;        (* the n-th [stop_event.is_set()] *)
  urandom : nat -> option exn;   (* the n-th [os.urandom] of a size it takes: [None] when the bytes are made *)
  socket : nat -> option exn;    (* the n-th [socket.socket()]: [None] when the socket is made *)
  connect : nat -> option exn;   (* the n-th [sock.connect]: [None] when connected *)
  send : nat -> result Z;        (* the n-th [sock.send]: bytes sent *)
  recv : nat -> result Z         (* the n-th [sock.recv]: bytes that arrived, 0 when the peer closed *)
}.

Record io_state : Type := {
  clock_reads : nat;
  stop_reads : nat;
  urandoms : nat;                (* the calls of [os.urandom] that got past its argument check *)
  sockets : nat;                 (* the calls of [socket.socket()] *)
  connects : list (pyval * Z);   (* the (ip, port) of the calls of [sock.connect], oldest first *)
  sends : nat;
  recvs : nat;
  closes : nat
}.

Definition io_start : io_state :=
  {| clock_reads := 0; stop_reads := 0; urandoms := 0; sockets := 0;
     connects := []; sends := 0; recvs := 0; closes := 0 |}.

(** One more call of [os.urandom]. *)
Definition count_urandom (st : io_state) : io_state :=
  {| clock_reads := clock_reads st; stop_reads := stop_reads st;
     urandoms := S (urandoms st); sockets := sockets st;
     connects := connects st; sends := sends st; recvs := recvs st;
     closes := closes st |}.

Section Session.
Variable net : network.
(** [stop_event is not None] *)
Variable has_stop : bool.

Definition monotonic (st : io_state) : float * io_state :=
  (clock net (clock_reads st),
   {| clock_reads := S (clock_reads st); stop_reads := stop_reads st;
      urandoms := urandoms st; sockets := sockets st;
      connects := connects st; sends := sends st; recvs := recvs st;
      closes := closes st |}).

(** [stop_event and stop_event.is_set()] *)
Definition stop_requested (st : io_state) : bool * io_state :=
  if has_stop then
    (stop_set net (stop_reads st),
     {| clock_reads := clock_reads st; stop_reads := S (stop_reads st);
        urandoms := urandoms st; sockets := sockets st;
        connects := connects st; sends := sends st; recvs := recvs st;
        closes := closes st |})
  else (false, st).

(** [os.urandom(size)], as far as the session looks at it: the length of
    the bytes made.  The size is taken as a C [ssize_t] (64 bits): a size
    outside its range is an [OverflowError], a negative one a [ValueError];
    for the other sizes the system decides whether the bytes can be made (a
    [MemoryError] when they cannot be allocated, for one). *)
Definition os_urandom (size : Z) (st : io_state) : result Z * io_state :=
  if (size <? - 2 ^ 63) || (2 ^ 63 <=? size) then (Raise OverflowError, st)
  else if size <? 0 then (Raise ValueError, st)
  else
    (match urandom net (urandoms st) with
     | None => Ret size
     | Some e => Raise e
     end, count_urandom st).

(** [sock = socket.socket(socket.AF_INET, socket.SOCK_STREAM)] *)
Definition sock_socket (st : io_state) : option exn * io_state :=
  (socket net (sockets st),
   {| clock_reads := clock_reads st; stop_reads := stop_reads st;
      urandoms := urandoms st; sockets := S (sockets st);
      connects := connects st; sends := sends st; recvs := recvs st;
      closes := closes st |}).

(** [sock.settimeout(conn_timeout)], [sock.connect((ip, port))]: an [ip]
    that is no [str] is a [TypeError], a port that is not one of 0 to 65535
    an [OverflowError]. *)
Definition sock_connect (ip : pyval) (port : Z) (st : io_state)
  : option exn * io_state :=
  (match ip with
   | VStr _ =>
       if (0 <=? port) && (port <=? 65535)
       then connect net (List.length (connects st))
       else Some OverflowError
   | _ => Some TypeError
   end,
   {| clock_reads := clock_reads st; stop_reads := stop_reads st;
      urandoms := urandoms st; sockets := sockets st;
      connects := connects st ++ [(ip, port)]; sends := sends st;
      recvs := recvs st; closes := closes st |}).

Definition sock_send (st : io_state) : result Z * io_state :=
  (send net (sends st),
   {| clock_reads := clock_reads st; stop_reads := stop_reads st;
      urandoms := urandoms st; sockets := sockets st;
      connects := connects st; sends := S (sends st); recvs := recvs st;
      closes := closes st |}).

(** [sock.recv(bufsize)]: the length of the chunk, at most [bufsize]. *)
Definition sock_recv (bufsize : Z) (st : io_state) : result Z * io_state :=
  (match recv net (recvs st) with
   | Ret n => Ret (Z.min n bufsize)
   | Raise e => Raise e
   end,
   {| clock_reads := clock_reads st; stop_reads := stop_reads st;
      urandoms := urandoms st; sockets := sockets st;
      connects := connects st; sends := sends st; recvs := S (recvs st);
      closes := closes st |}).

(** The [finally] block when [sock] is a socket: [shutdown] and [close],
    errors swallowed. *)
Definition sock_close (st : io_state) : io_state :=
  {| clock_reads := clock_reads st; stop_reads := stop_reads st;
     urandoms := urandoms st; sockets := sockets st;
     connects := connects st; sends := sends st; recvs := recvs st;
     closes := S (closes st) |}.

Inductive loop_reason : Type :=
| StoppedByEvent
| SendBroken
| SendError
| StoppedDuringRecv
| RecvError.

Record loop_stats : Type := {
  total_bytes_sent : Z;
  total_bytes_received : Z;
  successful_exchanges : Z;
  rtt_samples : list float;
  loop_error : option loop_reason
}.

Definition stats_start : loop_stats :=
  {| total_bytes_sent := 0; total_bytes_received := 0;
     successful_exchanges := 0; rtt_samples := []; loop_error := None |}.

Definition with_error (s : loop_stats) (r : loop_reason) : loop_stats :=
  {| total_bytes_sent := total_bytes_sent s;
     total_bytes_received := total_bytes_received s;
     successful_exchanges := successful_exchanges s;
     rtt_samples := rtt_samples s; loop_error := Some r |}.

Definition with_sent (s : loop_stats) (sent : Z) : loop_stats :=
  {| total_bytes_sent := total_bytes_sent s + sent;
     total_bytes_received := total_bytes_received s;
     successful_exchanges := successful_exchanges s;
     rtt_samples := rtt_samples s; loop_error := loop_error s |}.

(** The accounting after the inner loop of a round ended normally. *)
Definition with_round (s : loop_stats) (bytes_received_this_round : Z)
           (rtt : float) : loop_stats :=
  {| total_bytes_sent := total_bytes_sent s;
     total_bytes_received := total_bytes_received s + bytes_received_this_round;
     successful_exchanges :=
       if 0 <? bytes_received_this_round then successful_exchanges s + 1
       else successful_exchanges s;
     rtt_samples := rtt_samples s ++ [rtt]; loop_error := loop_error s |}.

Definition round_timeout : float := 2%float.

(** The inner [while] of the receive phase, inside its [try]: [Ret] the
    bytes received this round when the loop is left normally (block
    complete, deadline seen on the clock, or [break]), [Raise] what
    escapes it.  [None] is running out of fuel. *)
Fixpoint recv_loop (fuel : nat) (expected_recv_size : Z)
         (bytes_received_this_round : Z) (recv_deadline : float) (st : io_state)
  : option (result Z * io_state) :=
  match fuel with
  | O => None
  | S fuel' =>
      if bytes_received_this_round <? expected_recv_size then
        let (now, st1) := monotonic st in
        if (now <? recv_deadline)%float then
          let (stop, st2) := stop_requested st1 in
          if stop then Some (Raise StopIteration, st2)
          else
            let (now', st3) := monotonic st2 in
            let remaining_time := (recv_deadline - now')%float in
            if (remaining_time <=? 0)%float then
              Some (Ret bytes_received_this_round, st3)
            else
              match sock_recv (expected_recv_size - bytes_received_this_round) st3 with
              | (Raise e, st4) => Some (Raise e, st4)
              | (Ret len_chunk, st4) =>
                  if len_chunk <=? 0 then Some (Raise SocketError, st4)
                  else recv_loop fuel' expected_recv_size
                         (bytes_received_this_round + len_chunk) recv_deadline st4
              end
        else Some (Ret bytes_received_this_round, st1)
      else Some (Ret bytes_received_this_round, st)
  end.

(** The ping-pong loop. *)
Fixpoint ping_pong_loop (fuel : nat) (expected_recv_size : Z)
         (loop_end_time : float) (stats : loop_stats) (st : io_state)
  : option (loop_stats * io_state) :=
  match fuel with
  | O => None
  | S fuel' =>
      let (now, st1) := monotonic st in
      if (now <? loop_end_time)%float then
        let (stop, st2) := stop_requested st1 in
        if stop then Some (with_error stats StoppedByEvent, st2)
        else
          let (round_start_time, st3) := monotonic st2 in
          match sock_send st3 with
          | (Raise _, st4) => Some (with_error stats SendError, st4)
          | (Ret sent, st4) =>
              if sent =? 0 then Some (with_error stats SendBroken, st4)
              else
                let stats1 := with_sent stats sent in
                let (now', st5) := monotonic st4 in
                let recv_deadline := (now' + round_timeout)%float in
                match recv_loop fuel' expected_recv_size 0 recv_deadline st5 with
                | None => None
                | Some (Ret bytes_received_this_round, st6) =>
                    let (round_end_time, st7) := monotonic st6 in
                    let rtt := (round_end_time - round_start_time)%float in
                    ping_pong_loop fuel' expected_recv_size loop_end_time
                      (with_round stats1 bytes_received_this_round rtt) st7
                | Some (Raise StopIteration, st6) =>
                    Some (with_error stats1 StoppedDuringRecv, st6)
                | Some (Raise SocketTimeout, st6) =>
                    ping_pong_loop fuel' expected_recv_size loop_end_time stats1 st6
                | Some (Raise _, st6) =>
                    Some (with_error stats1 RecvError, st6)
                end
          end
      else Some (stats, st1)
  end.

(** The speeds computed after the loop; an exception from
    [calculate_mbps] is caught by the enclosing [except Exception], which
    leaves what was not yet assigned at [None]. *)
Definition aggregate_speeds (stats : loop_stats) (loop_elapsed : float)
  : option float * option float :=
  match calculate_mbps (total_bytes_sent stats) loop_elapsed with
  | Raise _ => (None, None)
  | Ret upload_mbps =>
      match calculate_mbps (total_bytes_received stats) loop_elapsed with
      | Raise _ => (None, Some upload_mbps)
      | Ret download_mbps => (Some download_mbps, Some upload_mbps)
      end
  end.

(** The [try] statement of the session on one port, with its handlers and
    its [finally]: the statistics of the loop, when it was reached, and
    [(download_mbps, upload_mbps)].  Whatever is raised inside is caught and
    leaves the speeds not yet assigned at [None]; the socket is closed when
    one was made ([if sock:]). *)
Definition session_try (fuel : nat) (ip : pyval) (port duration chunk_size : Z)
           (st : io_state)
  : option (option loop_stats * (option float * option float) * io_state) :=
  let (conn_start_time, st1) := monotonic st in
  match sock_socket st1 with
  | (Some _, st2) => Some (None, (None, None), st2)
  | (None, st2) =>
      match sock_connect ip port st2 with
      | (Some _, st3) => Some (None, (None, None), sock_close st3)
      | (None, st3) =>
          let (conn_end_time, st4) := monotonic st3 in
          let (loop_start_time, st5) := monotonic st4 in
          match float_of_int duration with
          | Raise _ => Some (None, (None, None), sock_close st5)
          | Ret d =>
              let loop_end_time := (loop_start_time + d)%float in
              match ping_pong_loop fuel chunk_size loop_end_time stats_start st5 with
              | None => None
              | Some (stats, st6) =>
                  let (now, st7) := monotonic st6 in
                  let loop_elapsed := (now - loop_start_time)%float in
                  Some (Some stats, aggregate_speeds stats loop_elapsed,
                        sock_close st7)
              end
          end
      end
  end.

(** [_execute_socket_ping_pong]: [os.urandom(chunk_size)] comes before the
    [try], so that what it raises leaves the function; the session expects
    [len(ping_data)] bytes back in each round. *)
Definition _execute_socket_ping_pong (fuel : nat) (ip : pyval)
           (port duration chunk_size : Z) (st : io_state)
  : option (result (option float * option float) * io_state) :=
  match os_urandom chunk_size st with
  | (Raise e, st1) => Some (Raise e, st1)
  | (Ret expected_recv_size, st1) =>
      match session_try fuel ip port duration expected_recv_size st1 with
      | None => None
      | Some (_, speeds, st') => Some (Ret speeds, st')
      end
  end.

(** [run_socket_ping_pong_test]: the loop over the ports. *)
Fixpoint try_ports (fuel : nat) (ip : pyval) (ports : list Z)
         (duration chunk_size : Z) (st : io_state)
  : option (result (option float * option float) * io_state) :=
  match ports with
  | [] => Some (Ret (None, None), st)
  | port :: ports' =>
      let (stop, st1) := stop_requested st in
      if stop then Some (Ret (None, None), st1)
      else
        match _execute_socket_ping_pong fuel ip port duration chunk_size st1 with
        | None => None
        | Some (Raise e, st2) => Some (Raise e, st2)
        | Some (Ret (dl_mbps, ul_mbps), st2) =>
            match dl_mbps, ul_mbps with
            | None, None => try_ports fuel ip ports' duration chunk_size st2
            | _, _ => Some (Ret (dl_mbps, ul_mbps), st2)
            end
        end
  end.

Definition run_socket_ping_pong_test (fuel : nat) (srv : dict)
           (duration chunk_size : Z) (ports : list Z) (st : io_state)
  : option (result (option float * option float) * io_state) :=
  let ip_address := dict_get srv "ipv4_addr_in" in
  if negb (truthy ip_address) then Some (Ret (None, None), st)
  else try_ports fuel ip_address ports duration chunk_size st.

End Session.

(** The connection attempts to the given ports, in order. *)
Definition attempts (ip : pyval) (ports : list Z) : list (pyval * Z) :=
  map (fun port => (ip, port)) ports.

(** ** Relay lists *)

(** [v.get(...)] needs a dictionary. *)
Definition as_dict (v : pyval) : result dict :=
  match v with
  | VDict d => Ret d
  | _ => Raise AttributeError
  end.

(** [for x in v]: the elements of a list, the characters of a string, the
    keys of a dictionary. *)
Definition iterate (v : pyval) : result (list pyval) :=
  match v with
  | VList l => Ret l
  | VStr s => Ret (map (fun c => VStr (String c "")) (list_ascii_of_string s))
  | VDict d => Ret (map (fun kv => VStr (fst kv)) d)
  | _ => Raise TypeError
  end.

Fixpoint mapM {A B : Type} (f : A -> result B) (l : list A) : result (list B) :=
  match l with
  | [] => Ret []
  | a :: l' => b <- f a ;; bs <- mapM f l' ;; Ret (b :: bs)
  end.

Definition extract_countries (data : dict) : pyval :=
  dict_get_default data "countries" (VList []).

Definition extract_cities (country : dict) : pyval :=
  dict_get_default country "cities" (VList []).

Definition extract_relays (city : dict) : pyval :=
  dict_get_default city "relays" (VList []).

Definition is_wireguard (endpoint_data : pyval) : bool :=
  match endpoint_data with
  | VDict d => dict_mem d "wireguard"
  | _ => false
  end.

Definition is_openvpn (endpoint_data : pyval) : bool :=
  match endpoint_data with
  | VStr s => String.eqb s "openvpn"
  | _ => false
  end.

(** The [for server in servers] loop of [filter_servers_by_protocol]. *)
Fixpoint filter_loop (protocol_filter : string) (servers : list dict) : list dict :=
  match servers with
  | [] => []
  | srv :: rest =>
      let endpoint_data := dict_get srv "endpoint_data" in
      let keep :=
        if String.eqb protocol_filter "wireguard" then is_wireguard endpoint_data
        else if String.eqb protocol_filter "openvpn" then is_openvpn endpoint_data
        else false in
      if keep then srv :: filter_loop protocol_filter rest
      else filter_loop protocol_filter rest
  end.

Definition filter_servers_by_protocol (servers : list dict) (protocol : option string)
  : list dict :=
  match protocol with
  | None => servers
  | Some p =>
      if String.eqb p "" || String.eqb (lower p) "both" then servers
      else filter_loop (lower p) servers
  end.

(** [_add_location_info]: the four keys are set on every server. *)
Definition _add_location_info (servers : list pyval)
           (country_name country_code city_name city_code : pyval)
  : result (list dict) :=
  mapM (fun v =>
          match v with
          | VDict srv =>
              Ret (dict_set (dict_set (dict_set (dict_set srv
                     "country" country_name) "country_code" country_code)
                     "city" city_name) "city_code" city_code)
          | _ => Raise TypeError
          end) servers.

(** The body of [for city in extract_cities(country)]. *)
Definition city_servers (country_name country_code : pyval) (city : pyval)
  : result (list dict) :=
  c <- as_dict city ;;
  let city_name := dict_get_default c "name" (VStr "Unknown City") in
  let city_code := dict_get_default c "code" (VStr "???") in
  relays <- iterate (extract_relays c) ;;
  _add_location_info relays country_name country_code city_name city_code.

(** The body of [for country in countries]. *)
Definition country_servers (country : pyval) : result (list dict) :=
  c <- as_dict country ;;
  let country_name := dict_get_default c "name" (VStr "Unknown Country") in
  let country_code := dict_get_default c "code" (VStr "??") in
  cities <- iterate (extract_cities c) ;;
  per_city <- mapM (city_servers country_name country_code) cities ;;
  Ret (List.concat per_city).

(** The relays of all countries, each with its location keys: [all_servers]
    before it is filtered. *)
Definition collect_servers (countries : pyval) : result (list dict) :=
  cs <- iterate countries ;;
  per_country <- mapM country_servers cs ;;
  Ret (List.concat per_country).

Definition get_all_servers (data : option dict) (protocol : option string)
  : result (list dict) :=
  match data with
  | None => Ret []
  | Some d =>
      if negb (truthy (VDict d)) then Ret []
      else
        let countries := extract_countries d in
        if negb (truthy countries) then Ret []
        else
          all_servers <- collect_servers countries ;;
          Ret (filter_servers_by_protocol all_servers protocol)
  end.

(** ** The aggregator *)

(** [list.sort(key=...)]: a stable sort that compares keys with [<].  It is
    written as the insertion sort that puts each element before the first
    later element whose key is not smaller.  On keys that [<] orders, which
    floats without a NaN are, every stable sort gives this list.  With a NaN
    among the keys [<] is no order and the list [list.sort] leaves depends on
    how it merges its runs; what is proved of the order below is proved for
    keys without a NaN. *)
Fixpoint insert_by_key {A : Type} (key : A -> float) (x : A) (l : list A) : list A :=
  match l with
  | [] => [x]
  | y :: l' =>
      if (key y <? key x)%float then y :: insert_by_key key x l' else x :: l
  end.

Fixpoint sort_by_key {A : Type} (key : A -> float) (l : list A) : list A :=
  match l with
  | [] => []
  | x :: l' => insert_by_key key x (sort_by_key key l')
  end.

(** The key of [test_servers]: the latency, [float('inf')] when it is [None]. *)
Definition latency_key (r : probe_result) : float :=
  match latency r with
  | Some x => x
  | None => infinity
  end.

Definition sort_results (results : list probe_result) : list probe_result :=
  sort_by_key latency_key results.

(** A latency that [<] can order: [None], or a float that is not a NaN. *)
Definition comparable (r : probe_result) : Prop :=
  forall x, latency r = Some x -> (x =? x)%float = true.

(** A measured latency: a number below [+inf] (so not a NaN). *)
Definition measured (r : probe_result) : Prop :=
  forall x, latency r = Some x -> (x <? infinity)%float = true.

(** The order the sort establishes, and the keys it can order: [x <= inf]
    holds of every float but NaN. *)
Definition key_le {A : Type} (key : A -> float) (a b : A) : Prop :=
  (key a <=? key b)%float = true.

Definition ordered {A : Type} (key : A -> float) (a : A) : Prop :=
  (key a <=? infinity)%float = true.

(** ** The worker pool

    [test_servers] runs a coordinator (the calling thread) and worker
    threads over shared queues.  The pool is a transition system: a state
    holds the shared objects and the program point of every thread, and an
    action is one thread taking its next step, or the caller of
    [test_servers] setting an event.  Any interleaving of the threads is a
    sequence of actions. *)

Record config : Type := {
  max_workers : Z;
  ping_count : Z;
  timeout_sec : Z
}.

(** Where a worker is in [worker()]. *)
Inductive worker_pc : Type :=
| WLoop                  (* [while not _stop_event.is_set()] *)
| WPauseCheck            (* [if _pause_event.is_set()] *)
| WGet                   (* [server_queue.get(block=True, timeout=0.1)] *)
| WGot (srv : dict)      (* [if _stop_event.is_set()] after the get *)
| WProbe (srv : dict)    (* [get_server_latency], [result_queue.put] *)
| WCount                 (* [with lock: completed += 1] *)
| WTaskDone              (* [finally: server_queue.task_done()] *)
| WExited.

(** Where the coordinator is in the body of [test_servers]. *)
Inductive coord_pc : Type :=
| CLoop                  (* [while not _stop_event.is_set()] *)
| CCheck                 (* [if server_queue.unfinished_tasks == 0] *)
| CPause                 (* [if _pause_event.is_set()] *)
| CPaused                (* [while _pause_event.is_set() and not _stop_event.is_set()] *)
| CAfter                 (* [if _stop_event.is_set()] after the loop *)
| CDrain                 (* [while not server_queue.empty()] *)
| CDrainGet              (* [server_queue.get(block=False)], [task_done()] *)
| CCollect (results : list probe_result)   (* [while not result_queue.empty()] *)
| CReturned (results : list probe_result)
| CRaised (e : exn).

Record pool : Type := {
  server_queue : list dict;
  unfinished_tasks : nat;
  result_queue : list probe_result;
  completed : nat;
  stop_event : bool;
  pause_event : bool;
  workers : list worker_pc;
  coordinator : coord_pc;
  (* bookkeeping, not read by any thread *)
  dropped : list dict;   (* dequeued by a worker that then saw the stop event *)
  drained : list dict    (* removed from the queue by the coordinator after a stop *)
}.

Inductive action : Type :=
| Worker (i : nat) (h : host) (active_count : nat)
    (* worker [i] steps; [h] answers its ping and [active_count] is what
       [threading.active_count()] returns, should it ask *)
| Coordinator
| SetStop
| SetPause (b : bool).

Fixpoint set_nth {A : Type} (i : nat) (a : A) (l : list A) : list A :=
  match l, i with
  | [], _ => []
  | _ :: l', O => a :: l'
  | x :: l', S i' => x :: set_nth i' a l'
  end.

Definition set_worker (i : nat) (pc : worker_pc) (s : pool) : pool :=
  {| server_queue := server_queue s; unfinished_tasks := unfinished_tasks s;
     result_queue := result_queue s; completed := completed s;
     stop_event := stop_event s; pause_event := pause_event s;
     workers := set_nth i pc (workers s); coordinator := coordinator s;
     dropped := dropped s; drained := drained s |}.

Definition set_coordinator (pc : coord_pc) (s : pool) : pool :=
  {| server_queue := server_queue s; unfinished_tasks := unfinished_tasks s;
     result_queue := result_queue s; completed := completed s;
     stop_event := stop_event s; pause_event := pause_event s;
     workers := workers s; coordinator := pc;
     dropped := dropped s; drained := drained s |}.

Definition set_server_queue (q : list dict) (s : pool) : pool :=
  {| server_queue := q; unfinished_tasks := unfinished_tasks s;
     result_queue := result_queue s; completed := completed s;
     stop_event := stop_event s; pause_event := pause_event s;
     workers := workers s; coordinator := coordinator s;
     dropped := dropped s; drained := drained s |}.

Definition set_result_queue (q : list probe_result) (s : pool) : pool :=
  {| server_queue := server_queue s; unfinished_tasks := unfinished_tasks s;
     result_queue := q; completed := completed s;
     stop_event := stop_event s; pause_event := pause_event s;
     workers := workers s; coordinator := coordinator s;
     dropped := dropped s; drained := drained s |}.

(** [server_queue.task_done()] *)
Definition task_done (s : pool) : pool :=
  {| server_queue := server_queue s; unfinished_tasks := pred (unfinished_tasks s);
     result_queue := result_queue s; completed := completed s;
     stop_event := stop_event s; pause_event := pause_event s;
     workers := workers s; coordinator := coordinator s;
     dropped := dropped s; drained := drained s |}.

Definition incr_completed (s : pool) : pool :=
  {| server_queue := server_queue s; unfinished_tasks := unfinished_tasks s;
     result_queue := result_queue s; completed := S (completed s);
     stop_event := stop_event s; pause_event := pause_event s;
     workers := workers s; coordinator := coordinator s;
     dropped := dropped s; drained := drained s |}.

Definition note_dropped (srv : dict) (s : pool) : pool :=
  {| server_queue := server_queue s; unfinished_tasks := unfinished_tasks s;
     result_queue := result_queue s; completed := completed s;
     stop_event := stop_event s; pause_event := pause_event s;
     workers := workers s; coordinator := coordinator s;
     dropped := srv :: dropped s; drained := drained s |}.

Definition note_drained (srv : dict) (s : pool) : pool :=
  {| server_queue := server_queue s; unfinished_tasks := unfinished_tasks s;
     result_queue := result_queue s; completed := completed s;
     stop_event := stop_event s; pause_event := pause_event s;
     workers := workers s; coordinator := coordinator s;
     dropped := dropped s; drained := srv :: drained s |}.

Definition set_events (stop pause : bool) (s : pool) : pool :=
  {| server_queue := server_queue s; unfinished_tasks := unfinished_tasks s;
     result_queue := result_queue s; completed := completed s;
     stop_event := stop; pause_event := pause;
     workers := workers s; coordinator := coordinator s;
     dropped := dropped s; drained := drained s |}.

(** One step of worker [i]. *)
Definition worker_step (cfg : config) (i : nat) (h : host) (active_count : nat)
           (s : pool) : option pool :=
  match nth_error (workers s) i with
  | None => None
  | Some WLoop =>
      Some (set_worker i (if stop_event s then WExited else WPauseCheck) s)
  | Some WPauseCheck =>
      Some (set_worker i (if pause_event s then WLoop else WGet) s)
  | Some WGet =>
      match server_queue s with
      | srv :: q => Some (set_worker i (WGot srv) (set_server_queue q s))
      | [] =>
          (* [except Empty] *)
          if Z.of_nat active_count <=? max_workers cfg + 1
          then Some (set_worker i WExited s)
          else Some (set_worker i WLoop s)
      end
  | Some (WGot srv) =>
      if stop_event s
      then Some (set_worker i WExited (task_done (note_dropped srv s)))
      else Some (set_worker i (WProbe srv) s)
  | Some (WProbe srv) =>
      match fst (get_server_latency h srv (ping_count cfg) (timeout_sec cfg)) with
      | Ret result =>
          Some (set_worker i WCount
                  (set_result_queue (result_queue s ++ [result]) s))
      | Raise _ => Some (set_worker i WTaskDone s)
      end
  | Some WCount => Some (set_worker i WTaskDone (incr_completed s))
  | Some WTaskDone => Some (set_worker i WLoop (task_done s))
  | Some WExited => None
  end.

(** One step of the coordinator.  In the drain loop a [get(block=False)] on
    a queue that a worker emptied in between raises [queue.Empty]; the
    handler names [Queue.Empty], which does not exist, so the call ends in
    an [AttributeError]. *)
Definition coordinator_step (s : pool) : option pool :=
  match coordinator s with
  | CLoop => Some (set_coordinator (if stop_event s then CAfter else CCheck) s)
  | CCheck =>
      Some (set_coordinator
              (if Nat.eqb (unfinished_tasks s) 0 then CAfter else CPause) s)
  | CPause => Some (set_coordinator (if pause_event s then CPaused else CLoop) s)
  | CPaused =>
      Some (set_coordinator
              (if pause_event s && negb (stop_event s) then CPaused else CLoop) s)
  | CAfter =>
      Some (set_coordinator (if stop_event s then CDrain else CCollect []) s)
  | CDrain =>
      Some (set_coordinator
              (match server_queue s with [] => CCollect [] | _ => CDrainGet end) s)
  | CDrainGet =>
      match server_queue s with
      | srv :: q =>
          Some (set_coordinator CDrain
                  (task_done (note_drained srv (set_server_queue q s))))
      | [] => Some (set_coordinator (CRaised AttributeError) s)
      end
  | CCollect results =>
      match result_queue s with
      | r :: q =>
          Some (set_coordinator (CCollect (results ++ [r])) (set_result_queue q s))
      | [] => Some (set_coordinator (CReturned (sort_results results)) s)
      end
  | CReturned _ => None
  | CRaised _ => None
  end.

Definition step (cfg : config) (a : action) (s : pool) : option pool :=
  match a with
  | Worker i h n => worker_step cfg i h n s
  | Coordinator => coordinator_step s
  | SetStop => Some (set_events true (pause_event s) s)
  | SetPause b => Some (set_events (stop_event s) b s)
  end.

Fixpoint run (cfg : config) (trace : list action) (s : pool) : option pool :=
  match trace with
  | [] => Some s
  | a :: trace' =>
      match step cfg a s with
      | Some s' => run cfg trace' s'
      | None => None
      end
  end.

(** The state when the threads have been started; with no server
    [test_servers] returns at once. *)
Definition start (cfg : config) (servers : list dict) (stop pause : bool) : pool :=
  let total := List.length servers in
  {| server_queue := servers;
     unfinished_tasks := total;
     result_queue := [];
     completed := 0;
     stop_event := stop;
     pause_event := pause;
     workers :=
       match servers with
       | [] => []
       | _ => repeat WLoop (Z.to_nat (Z.min (max_workers cfg) (Z.of_nat total)))
       end;
     coordinator := match servers with [] => CReturned [] | _ => CLoop end;
     dropped := [];
     drained := [] |}.

(** What [test_servers] has returned, once it has. *)
Definition returned (s : pool) : option (list probe_result) :=
  match coordinator s with
  | CReturned results => Some results
  | _ => None
  end.

(** The servers a worker holds: dequeued and not yet probed. *)
Definition held_by (pc : worker_pc) : list dict :=
  match pc with
  | WGot srv | WProbe srv => [srv]
  | _ => []
  end.

Definition held (ws : list worker_pc) : list dict := flat_map held_by ws.
#[global] Arguments held : simpl never.

(** The results the coordinator has taken out of the result queue. *)
Definition collected (pc : coord_pc) : list probe_result :=
  match pc with
  | CCollect results | CReturned results => results
  | _ => []
  end.

(** Where every submitted server is: still queued, held by a worker,
    published (in the result queue or already collected), or skipped
    (dropped by a worker or drained by the coordinator). *)
Definition inventory (s : pool) : list dict :=
  (server_queue s ++ held (workers s)
   ++ map server (result_queue s) ++ map server (collected (coordinator s))
   ++ dropped s ++ drained s)%list.

(** A trace in which the caller never sets the stop event. *)
Definition never_stops (trace : list action) : Prop := ~ In SetStop trace.

(** The workers that hold a queue entry whose [task_done] is still due. *)
Definition busy_pc (pc : worker_pc) : nat :=
  match pc with
  | WGot _ | WProbe _ | WCount | WTaskDone => 1
  | _ => 0
  end.

Definition busy (ws : list worker_pc) : nat := list_sum (map busy_pc ws).
#[global] Arguments busy : simpl never.

(** A published result is what [get_server_latency] returned for its server
    on some host. *)
Definition probed (cfg : config) (r : probe_result) : Prop :=
  exists h, fst (get_server_latency h (server r) (ping_count cfg) (timeout_sec cfg))
            = Ret r.

(** What holds of every state of every run: the servers are all accounted
    for, [unfinished_tasks] counts the queued entries and those whose
    [task_done] is due, and the published results are probe outcomes. *)
Definition accounted (cfg : config) (servers : list dict) (s : pool) : Prop :=
  Permutation (inventory s) servers
  /\ unfinished_tasks s = (List.length (server_queue s) + busy (workers s))%nat
  /\ Forall (probed cfg) (result_queue s ++ collected (coordinator s)).

(** What holds as long as the stop event was never set: nothing is skipped,
    the coordinator is not in its clean-up, and it has left its waiting
    loop only with every task done. *)
Definition undisturbed (s : pool) : Prop :=
  stop_event s = false /\ dropped s = [] /\ drained s = []
  /\ match coordinator s with
     | CLoop | CCheck | CPause | CPaused => True
     | CAfter | CCollect _ => unfinished_tasks s = 0%nat
     | CReturned _ => unfinished_tasks s = 0%nat /\ result_queue s = []
     | CDrain | CDrainGet | CRaised _ => False
     end.

(** While entries are queued no worker has left its loop (as long as the
    stop event was never set), and there are workers. *)
Definition staffed (s : pool) : Prop :=
  server_queue s <> [] ->
  workers s <> [] /\ Forall (fun pc => pc <> WExited) (workers s).

(** The invariant of the runs in which the stop event is never set. *)
Definition ready (cfg : config) (servers : list dict) (s : pool) : Prop :=
  accounted cfg servers s /\ undisturbed s /\ staffed s.

(** The actions of the threads themselves, as opposed to the caller's. *)
Definition thread_action (a : action) : Prop :=
  match a with
  | Worker _ _ _ | Coordinator => True
  | SetStop | SetPause _ => False
  end.

(** A stretch of a run in which only the threads act. *)
Definition stretch (cfg : config) (s : pool) (t : list action) (s' : pool) : Prop :=
  Forall thread_action t /\ run cfg t s = Some s'.

(** Some worker can be run until it has given up the queue entry it holds. *)
Definition settles (cfg : config) (s : pool) : Prop :=
  exists t s', stretch cfg s t s'
    /\ (busy (workers s') + 1 = busy (workers s))%nat
    /\ server_queue s' = server_queue s.

(** The threads can run on to the coordinator's return. *)
Definition finishes (cfg : config) (s : pool) : Prop :=
  exists t s' results, stretch cfg s t s' /\ returned s' = Some results.

(** ** Example environments *)

(** A Linux host whose [ping] answers [unknown host] with exit code 2. *)
Definition unresolved_host : host :=
  {| system := "Linux";
     subprocess_run := fun _ _ =>
       Completed 2 "" "ping: nosuch.invalid: Name or service not known" |}.

(** A network on which nothing happens. *)
Definition silent_network : network :=
  {| clock := fun _ => 0%float; stop_set := fun _ => false;
     urandom := fun _ => None; socket := fun _ => None;
     connect := fun _ => None; send := fun _ => Ret 0; recv := fun _ => Ret 0 |}.

(** A network that refuses every connection. *)
Definition refusing_network : network :=
  {| clock := fun n => of_uint63 (Uint63.of_Z (Z.of_nat n));
     stop_set := fun _ => false;
     urandom := fun _ => None; socket := fun _ => None;
     connect := fun _ => Some SocketError;
     send := fun _ => Raise SocketError; recv := fun _ => Raise SocketError |}.

(** The n-th entry of a script, [d] once the script is over. *)
Definition script {A : Type} (l : list A) (d : A) (n : nat) : A := nth n l d.

(** A peer that answers the first block with 100 bytes and then stays silent
    until the round's [recv] times out, and echoes the second block whole; the
    clock (in seconds) leaves the five-second session time for both rounds. *)
Definition stalling_network : network :=
  {| clock := script [0; 0.1; 0.1;          (* connect, loop start *)
                      0.1; 0.1; 0.2;        (* round 1: loop test, start, deadline base *)
                      0.2; 0.3;             (* recv 1 *)
                      0.5; 0.5;             (* recv 2, which times out at 2.2 *)
                      2.2; 2.2; 2.3;        (* round 2 *)
                      2.3; 2.4; 2.5;        (* recv 3, round end *)
                      6.0; 6.0]%float 100%float;
     stop_set := fun _ => false;
     urandom := fun _ => None; socket := fun _ => None;
     connect := fun _ => None;
     send := fun _ => Ret 8192;
     recv := script [Ret 100; Raise SocketTimeout; Ret 8192] (Raise SocketError) |}.

(** The same peer and the same 100 bytes, but the round's deadline is seen
    on the clock before the next [recv] is issued. *)
Definition lagging_network : network :=
  {| clock := script [0; 0.1; 0.1;
                      0.1; 0.1; 0.2;
                      0.2; 0.3;             (* recv 1 *)
                      2.3;                  (* the deadline 2.2 has passed *)
                      2.3;                  (* round end *)
                      2.3; 2.3; 2.3;        (* round 2 *)
                      2.4; 2.4; 2.5;        (* recv 2, round end *)
                      6.0; 6.0]%float 100%float;
     stop_set := fun _ => false;
     urandom := fun _ => None; socket := fun _ => None;
     connect := fun _ => None;
     send := fun _ => Ret 8192;
     recv := script [Ret 100; Ret 8192] (Raise SocketError) |}.

(** A relay list with one WireGuard and one OpenVPN relay. *)
Definition two_relays : dict :=
  [("countries", VList [VDict
     [("name", VStr "Sweden"); ("code", VStr "se");
      ("cities", VList [VDict
         [("name", VStr "Gothenburg"); ("code", VStr "got");
          ("relays", VList
             [VDict [("hostname", VStr "se-got-wg-001");
                     ("ipv4_addr_in", VStr "192.0.2.1");
                     ("endpoint_data", VDict [("wireguard", VDict [])])];
              VDict [("hostname", VStr "se-got-ovpn-001");
                     ("ipv4_addr_in", VStr "192.0.2.2");
                     ("endpoint_data", VStr "openvpn")]])]])]])].

(** Three results as they may come out of the result queue. *)
Definition sample_results : list probe_result :=
  [ {| server := [("hostname", VStr "a")]; latency := None |};
    {| server := [("hostname", VStr "b")]; latency := Some 23.4%float |};
    {| server := [("hostname", VStr "c")]; latency := Some 5%float |} ].

(** A host whose [ping] reports 12 ms. *)
Definition near_host : host :=
  {| system := "Linux";
     subprocess_run := fun _ _ =>
       Completed 0 "rtt min/avg/max/mdev = 10.0/12.0/14.0/1.0 ms" "" |}.

Definition one_server : list dict :=
  [[("hostname", VStr "se-got-wg-001"); ("ipv4_addr_in", VStr "192.0.2.1")]].

Definition one_worker : config :=
  {| max_workers := 1; ping_count := 3; timeout_sec := 10 |}.

(** A run in which the caller sets the stop event while the only worker is
    probing the only server: the worker has dequeued it and passed its second
    stop test; the coordinator sees the stop, finds the queue empty, collects
    nothing and returns. *)
Definition stopped_run : list action :=
  [Worker 0 near_host 3; Worker 0 near_host 3; Worker 0 near_host 3;
   Worker 0 near_host 3;
   SetStop;
   Coordinator; Coordinator; Coordinator; Coordinator].

(** A worker of [one_worker] that finds the queue empty: the coordinator has
    not returned yet and the queue is drained. *)
Definition idle_worker : pool :=
  {| server_queue := []; unfinished_tasks := 0; result_queue := [];
     completed := 1; stop_event := false; pause_event := false;
     workers := [WGet]; coordinator := CLoop; dropped := []; drained := [] |}.

(** A run in which the stop event is set while the only worker is about to
    dequeue: the coordinator finds the queue non-empty, the worker takes the
    entry, and the coordinator's [get(block=False)] finds nothing. *)
Definition drain_race : list action :=
  [Worker 0 near_host 3; Worker 0 near_host 3;
   SetStop;
   Coordinator; Coordinator; Coordinator;
   Worker 0 near_host 3;
   Coordinator].


(** A host whose [ping] prints a summary line with [inf] as the average,
    which the line scan of [parse_unix_ping] reads as [float('inf')]. *)
Definition far_host : host :=
  {| system := "Darwin";
     subprocess_run := fun _ _ =>
       Completed 0 "round-trip min/avg/max/stddev = 9.0/inf/9.0/0.0 ms" "" |}.

(** A server without an address and one with. *)
Definition two_targets : list dict :=
  [[("hostname", VStr "se-got-wg-001"); ("ipv4_addr_in", VStr "")];
   [("hostname", VStr "se-got-wg-002"); ("ipv4_addr_in", VStr "192.0.2.2")]].

(** A run of one worker over [two_targets] on [far_host], with no stop: the
    worker probes the two servers, then the coordinator finds every task done,
    collects the two results and returns. *)
Definition far_run : list action :=
  (repeat (Worker 0 far_host 3) 14 ++ repeat Coordinator 6)%list.

(** ** The relays of one country *)

(** [str.upper] on one character: a-z, and the lower-case letters of the
    upper half of the 8-bit range whose capital is an 8-bit character. *)
Definition to_upper (c : ascii) : ascii :=
  let n := nat_of_ascii c in
  if ((97 <=? n)%nat && (n <=? 122)%nat)
     || ((224 <=? n)%nat && (n <=? 254)%nat && negb (n =? 247)%nat)
  then ascii_of_nat (n - 32) else c.

(** [str.upper]: the sharp s becomes "SS". *)
Fixpoint upper (s : string) : string :=
  match s with
  | "" => ""
  | String c s' =>
      if (nat_of_ascii c =? 223)%nat then String "S" (String "S" (upper s'))
      else String (to_upper c) (upper s')
  end.

(** [country.get("code", "").lower()]: a code that is no [str] has no
    [lower]. *)
Definition current_code (country : dict) : result string :=
  match dict_get_default country "code" (VStr "") with
  | VStr s => Ret (lower s)
  | _ => Raise AttributeError
  end.

(** The [for country in extract_countries(data)] loop of
    [get_servers_by_country], which ends at the first country whose code
    matches. *)
Fixpoint country_loop (country_code_filter : string) (countries : list pyval)
  : result (list dict) :=
  match countries with
  | [] => Ret []
  | country :: rest =>
      c <- as_dict country ;;
      code <- current_code c ;;
      if String.eqb code (lower country_code_filter) then
        let country_name :=
          dict_get_default c "name" (VStr ("Country " ++ country_code_filter)) in
        let country_code :=
          dict_get_default c "code" (VStr (upper country_code_filter)) in
        cities <- iterate (extract_cities c) ;;
        per_city <- mapM (city_servers country_name country_code) cities ;;
        Ret (List.concat per_city)
      else country_loop country_code_filter rest
  end.

Definition get_servers_by_country (data : option dict) (country_code_filter : string)
           (protocol : option string) : result (list dict) :=
  match data with
  | None => Ret []
  | Some d =>
      if negb (truthy (VDict d)) then Ret []
      else if negb (truthy (VStr country_code_filter)) then Ret []
      else
        countries <- iterate (extract_countries d) ;;
        servers <- country_loop country_code_filter countries ;;
        Ret (filter_servers_by_protocol servers protocol)
  end.

(** The country record as [get_servers_by_country] reads it: one without
    a ["name"] goes by [f"Country {country_code_filter}"]. *)
Definition named (country_code_filter : string) (country : dict) : dict :=
  if dict_mem country "name" then country
  else dict_set country "name" (VStr ("Country " ++ country_code_filter)).

(** The keys [_add_location_info] sets. *)
Definition location_keys : list string :=
  ["country"; "country_code"; "city"; "city_code"].

(** A server is of the WireGuard kind, or of the OpenVPN kind, by its
    ["endpoint_data"] entry. *)
Definition serves_wireguard (srv : dict) : bool :=
  is_wireguard (dict_get srv "endpoint_data").

Definition serves_openvpn (srv : dict) : bool :=
  is_openvpn (dict_get srv "endpoint_data").

(** The country code a server carries reads as [code], letter case apart. *)
Definition in_country (code : string) (srv : dict) : bool :=
  match dict_get srv "country_code" with
  | VStr s => String.eqb (lower s) (lower code)
  | _ => false
  end.

(** A country record of [relays.json] as [get_servers_by_country] needs
    it: a dictionary with a name and a string code. *)
Definition country_record (v : pyval) : Prop :=
  exists c s, v = VDict c /\ dict_lookup c "code" = Some (VStr s)
              /\ dict_mem c "name" = true.

(** The country codes of a list of country records, in lower case. *)
Fixpoint country_codes (countries : list pyval) : list string :=
  match countries with
  | [] => []
  | VDict c :: rest =>
      match dict_lookup c "code" with
      | Some (VStr s) => lower s :: country_codes rest
      | _ => country_codes rest
      end
  | _ :: rest => country_codes rest
  end.

(** Whether [filter_servers_by_protocol] keeps a server. *)
Definition selected (protocol : option string) (srv : dict) : bool :=
  match protocol with
  | None => true
  | Some p =>
      if String.eqb p "" || String.eqb (lower p) "both" then true
      else if String.eqb (lower p) "wireguard" then serves_wireguard srv
      else if String.eqb (lower p) "openvpn" then serves_openvpn srv
      else false
  end.

(** A server that carries its location: the country and city it was listed
    under. *)
Definition located (country_name country_code : pyval) (srv : dict) : Prop :=
  dict_lookup srv "country" = Some country_name
  /\ dict_lookup srv "country_code" = Some country_code
  /\ dict_mem srv "city" = true /\ dict_mem srv "city_code" = true.

(** ** Export to CSV

    The rows are modelled up to the point where [csv.DictWriter] takes them
    over: a row is the list of the cell values in the order of the headers.
    How a cell is written as text is the library's matter. *)

(** [s.endswith(suffix)] *)
Definition endswith (s suffix : string) : bool :=
  match strip_prefix (string_rev suffix) (string_rev s) with
  | Some _ => true
  | None => false
  end.

(** [isinstance(v, str)] *)
Definition is_str (v : pyval) : bool :=
  match v with VStr _ => true | _ => false end.

Definition headers : list string :=
  ["hostname"; "country"; "city"; "protocol"; "latency";
   "download_speed"; "upload_speed"; "country_code"; "city_code";
   "ipv4_addr_in"; "ipv6_addr_in"; "active"; "owned"; "provider"].

(** The body of [for server in servers] up to [writer.writerow]: the cells
    [DictWriter] writes for the server. *)
Definition export_row (server : dict) : result (list pyval) :=
  let row_data :=
    map (fun header => (header, dict_get_default server header (VStr ""))) headers in
  row_data' <-
    (if negb (dict_mem server "protocol")
        || negb (is_str (dict_get server "protocol"))
     then
       match dict_get_default server "hostname" (VStr "") with
       | VStr h =>
           let hostname := lower h in
           let by_name := endswith hostname "-wg" || contains ".wg." hostname in
           Ret (dict_set row_data "protocol"
                  (VStr (if by_name then "WireGuard" else "OpenVPN")))
       | _ => Raise AttributeError
       end
     else Ret row_data) ;;
  Ret (map (fun header => dict_get_default row_data' header (VStr "")) headers).

(** The file system as the export sees it: whether [open] raises, whether
    the n-th [writeheader]/[writerow] raises, whether closing the file
    raises. *)
Record disk : Type := {
  open_file : string -> option exn;
  write_row : nat -> option exn;
  close_file : option exn
}.

(** The [for server in servers] loop; [written] holds the rows the writer
    has taken so far. *)
Fixpoint write_rows (dk : disk) (n : nat) (servers : list dict)
         (written : list (list pyval)) : result unit * list (list pyval) :=
  match servers with
  | [] => (Ret tt, written)
  | server :: rest =>
      match export_row server with
      | Raise e => (Raise e, written)
      | Ret row =>
          match write_row dk n with
          | Some e => (Raise e, written)
          | None => write_rows dk (S n) rest (written ++ [row])
          end
      end
  end.

(** [export_to_csv]: the value returned, and what became of the file:
    [None] when it was not opened, otherwise the rows the writer took. *)
Definition export_to_csv (dk : disk) (servers : list dict) (filename : string)
  : bool * option (list (list pyval)) :=
  match servers with
  | [] => (false, None)
  | _ =>
      match open_file dk filename with
      | Some _ => (false, None)
      | None =>
          match write_row dk 0 with
          | Some _ => (false, Some [])
          | None =>
              match write_rows dk 1 servers [map VStr headers] with
              | (Raise _, written) => (false, Some written)
              | (Ret _, written) =>
                  match close_file dk with
                  | Some _ => (false, Some written)
                  | None => (true, Some written)
                  end
              end
          end
      end
  end.

(** A disk on which nothing fails. *)
Definition sound_disk : disk :=
  {| open_file := fun _ => None; write_row := fun _ => None; close_file := None |}.

(** ** The speed prober: more of its environment *)

(** A network that accepts every connection and echoes, on which the stop
    event is set after it has been read once. *)
Definition stopped_network : network :=
  {| clock := fun n => of_uint63 (Uint63.of_Z (Z.of_nat n));
     stop_set := fun n => negb (Nat.eqb n 0);
     urandom := fun _ => None; socket := fun _ => None;
     connect := fun _ => None;
     send := fun _ => Ret 8192; recv := fun _ => Ret 8192 |}.

(** A host that is out of file descriptors at the first call of
    [socket.socket()], and a peer that refuses every connection. *)
Definition crowded_network : network :=
  {| clock := fun n => of_uint63 (Uint63.of_Z (Z.of_nat n));
     stop_set := fun _ => false;
     urandom := fun _ => None;
     socket := fun n => if (n =? 0)%nat then Some SocketError else None;
     connect := fun _ => Some SocketError;
     send := fun _ => Raise SocketError; recv := fun _ => Raise SocketError |}.

(** The counters of the ping-pong loop agree: an exchange is counted for a
    round that was timed and brought at least one byte and at most one
    chunk. *)
Definition well_counted (chunk_size : Z) (stats : loop_stats) : Prop :=
  0 <= successful_exchanges stats <= Z.of_nat (List.length (rtt_samples stats))
  /\ successful_exchanges stats <= total_bytes_received stats
  /\ total_bytes_received stats <= chunk_size * successful_exchanges stats.

(** What the clock, the stop event, [send] and [recv] leave alone: the
    calls of [os.urandom], [socket.socket()], [connect] and [close]. *)
Definition same_sockets (st st' : io_state) : Prop :=
  urandoms st' = urandoms st /\ sockets st' = sockets st
  /\ connects st' = connects st /\ closes st' = closes st.

(** The ports of a list whose session gets a socket, when the session of
    the first port makes the [k]-th call of [socket.socket()]. *)
Fixpoint with_socket (net : network) (k : nat) (ports : list Z) : list Z :=
  match ports with
  | [] => []
  | port :: ports' =>
      match socket net k with
      | None => port :: with_socket net (S k) ports'
      | Some _ => with_socket net (S k) ports'
      end
  end.

(** The sockets made by the [n] calls of [socket.socket()] from the [k]-th
    on. *)
Fixpoint sockets_made (net : network) (k n : nat) : nat :=
  match n with
  | O => O
  | S n' =>
      match socket net k with
      | None => S (sockets_made net (S k) n')
      | Some _ => sockets_made net (S k) n'
      end
  end.

(** The ports of a list are tried one after the other, none of them with
    the stop event set, and the session of each comes back with
    [(None, None)]: the I/O state after the last of them. *)
Fixpoint failed_ports (net : network) (has_stop : bool) (fuel : nat) (ip : pyval)
         (ports : list Z) (duration chunk_size : Z) (st : io_state)
  : option io_state :=
  match ports with
  | [] => Some st
  | port :: ports' =>
      let (stop, st1) := stop_requested net has_stop st in
      if stop then None
      else
        match _execute_socket_ping_pong net has_stop fuel ip port duration
                chunk_size st1 with
        | Some (Ret (None, None), st2) =>
            failed_ports net has_stop fuel ip ports' duration chunk_size st2
        | _ => None
        end
  end.

(** ** The pool's counters *)

(** The workers between [result_queue.put] and [completed += 1]. *)
Definition counting_pc (pc : worker_pc) : nat :=
  match pc with
  | WCount => 1
  | _ => 0
  end.

Definition counting (ws : list worker_pc) : nat := list_sum (map counting_pc ws).
#[global] Arguments counting : simpl never.

(** The results published so far: in the result queue or collected. *)
Definition published (s : pool) : nat :=
  (List.length (result_queue s) + List.length (collected (coordinator s)))%nat.


(** A result failed when it has no latency. *)
Definition failed (r : probe_result) : bool :=
  match latency r with
  | None => true
  | Some _ => false
  end.

(** A result whose sort key equals [k], as floats compare. *)
Definition keyed (k : float) (r : probe_result) : bool :=
  (latency_key r =? k)%float.

(** A pool at rest under the pause event: the event is set, the stop event
    is not, no worker is about to dequeue, and the coordinator is not
    clearing the queue. *)
Definition paused (s : pool) : Prop :=
  stop_event s = false /\ pause_event s = true
  /\ Forall (fun pc => pc <> WGet) (workers s)
  /\ coordinator s <> CDrain /\ coordinator s <> CDrainGet.

(** ** Colours *)

(** [int(x)] for a [float]: truncation towards zero; a NaN is a
    [ValueError], an infinity an [OverflowError]. *)
Definition int_of_float (x : float) : result Z :=
  match Prim2SF x with
  | S754_zero _ => Ret 0
  | S754_finite s m e =>
      let magnitude := if 0 <=? e then Zpos m * 2 ^ e else Zpos m / 2 ^ (- e) in
      Ret (if s then - magnitude else magnitude)
  | S754_infinity _ => Raise OverflowError
  | S754_nan => Raise ValueError
  end.

(** The digits of [format(n, "x")] for [n >= 0]. *)
Definition hex (n : Z) : string :=
  HexadecimalString.NilZero.string_of_uint (N.to_hex_uint (Z.to_N n)).

(** [format(n, "02x")]: lower-case hexadecimal, filled with zeros to two
    characters, the sign counting as one. *)
Definition format_02x (n : Z) : string :=
  if n <? 0 then "-" ++ hex (- n)
  else
    let digits := hex n in
    if (String.length digits <? 2)%nat then "0" ++ digits else digits.

(** [f"#{r:02x}{g:02x}{b:02x}"] with [r = int(r0 + dr * ratio)] and so on:
    the interpolation between two colours. *)
Definition gradient (r0 dr g0 dg b0 db : float) (ratio : float) : result string :=
  r <- int_of_float (r0 + dr * ratio)%float ;;
  g <- int_of_float (g0 + dg * ratio)%float ;;
  b <- int_of_float (b0 + db * ratio)%float ;;
  Ret ("#" ++ format_02x r ++ format_02x g ++ format_02x b).

Definition calculate_latency_color (latency : option float) : result string :=
  match latency with
  | None => Ret "#AAAAAA"
  | Some latency =>
      if (latency =? infinity)%float then Ret "#AAAAAA"
      else if (latency <? 50)%float then Ret "#63BE7B"
      else if (latency <? 125)%float then
        ratio <- float_truediv (latency - 50)%float 75%float ;;
        gradient 99 156 190 45 123 9 ratio
      else if (latency <? 250)%float then
        ratio <- float_truediv (latency - 125)%float 125%float ;;
        gradient 255 (-7) 235 (-130) 132 (-25) ratio
      else Ret "#F8696B"
  end.

(** [min(a, b)]: [b] when [b < a], otherwise [a]. *)
Definition py_min (a b : float) : float := if (b <? a)%float then b else a.

Definition calculate_speed_color (speed : option float) (max_expected_speed : float)
  : result string :=
  match speed with
  | None => Ret "#AAAAAA"
  | Some speed =>
      if (speed =? infinity)%float then Ret "#AAAAAA"
      else
        let speed := py_min speed max_expected_speed in
        if (speed <? max_expected_speed * 0.1)%float then Ret "#F8696B"
        else if (speed <? max_expected_speed * 0.6)%float then
          ratio <- float_truediv (speed - max_expected_speed * 0.1)%float
                     (max_expected_speed * (0.6 - 0.1))%float ;;
          gradient 248 7 105 130 107 25 ratio
        else
          ratio <- float_truediv (speed - max_expected_speed * 0.6)%float
                     (max_expected_speed * (1.0 - 0.6))%float ;;
          gradient 255 (-156) 235 (-45) 132 (-9) ratio
  end.

(** ** Flags

    [get_flag_emoji] of the GUI turns the country code of a listed server
    into two regional-indicator symbols.  Its result leaves the 8-bit
    range, so a text is here the list of its code points. *)

(** The code points of [c.upper()] for one character: the sharp s becomes
    "SS", and the capitals of the micro sign and of y with diaeresis lie
    beyond the 8-bit range. *)
Definition upper_points (c : ascii) : list Z :=
  let n := nat_of_ascii c in
  if (n =? 223)%nat then [83; 83]
  else if (n =? 181)%nat then [924]
  else if (n =? 255)%nat then [376]
  else [Z.of_nat (nat_of_ascii (to_upper c))].

(** [len(v)] *)
Definition py_len (v : pyval) : result Z :=
  match v with
  | VStr s => Ret (Z.of_nat (String.length s))
  | VList l => Ret (Z.of_nat (List.length l))
  | VDict d => Ret (Z.of_nat (List.length d))
  | _ => Raise TypeError
  end.

(** [v[i].upper()] as code points: an item of a string is a character, an
    item of a list must be a string, and a dictionary with string keys has
    no item under an integer. *)
Definition upper_item (v : pyval) (i : nat) : result (list Z) :=
  match v with
  | VStr s =>
      c <- index (list_ascii_of_string s) i ;; Ret (upper_points c)
  | VList l =>
      x <- index l i ;;
      match x with
      | VStr s => Ret (flat_map upper_points (list_ascii_of_string s))
      | _ => Raise AttributeError
      end
  | VDict _ => Raise OtherException
  | _ => Raise TypeError
  end.

(** [ord(s)]: [s] must be one character. *)
Definition ord (points : list Z) : result Z :=
  match points with
  | [p] => Ret p
  | _ => Raise TypeError
  end.

(** [chr(n)] *)
Definition chr (n : Z) : result Z :=
  if (0 <=? n) && (n <? 1114112) then Ret n else Raise ValueError.

(** The [try] block of [get_flag_emoji]. *)
Definition flag_points (country_code : pyval) : result (list Z) :=
  let offset := 127462 - 65 in
  u1 <- upper_item country_code 0 ;;
  o1 <- ord u1 ;;
  point1 <- chr (o1 + offset) ;;
  u2 <- upper_item country_code 1 ;;
  o2 <- ord u2 ;;
  point2 <- chr (o2 + offset) ;;
  Ret [point1; point2].

Definition get_flag_emoji (country_code : pyval) : result (list Z) :=
  if negb (truthy country_code) then Ret []
  else
    n <- py_len country_code ;;
    if negb (n =? 2) then Ret []
    else
      match flag_points country_code with
      | Ret points => Ret points
      | Raise _ => Ret []
      end.

(** The letters A-Z and a-z, and the place of a letter in the alphabet,
    from 0. *)
Definition is_ascii_letter (c : ascii) : bool :=
  let n := nat_of_ascii c in
  ((65 <=? n)%nat && (n <=? 90)%nat) || ((97 <=? n)%nat && (n <=? 122)%nat).

Definition letter_index (c : ascii) : Z := Z.of_nat (nat_of_ascii c) mod 32 - 1.

(** The regional-indicator symbols, U+1F1E6 to U+1F1FF. *)
Definition regional_indicator (p : Z) : bool := (127462 <=? p) && (p <=? 127487).

(** A network whose clock, after three readings, is past every time, and
    whose peer echoes. *)
Definition late_network : network :=
  {| clock := fun n => if (n <? 3)%nat then 0%float else infinity;
     stop_set := fun _ => false;
     urandom := fun _ => None; socket := fun _ => None;
     connect := fun _ => None;
     send := fun _ => Ret 8192; recv := fun _ => Ret 8192 |}.

(** A binary64 value that is not a NaN and does not carry the minus sign:
    [+0.0], a positive number or [+inf]. *)
Definition plus_signed (x : spec_float) : Prop :=
  match x with
  | S754_zero false | S754_finite false _ _ | S754_infinity false => True
  | _ => False
  end.

(* ================================================================== *)
(** * Part II: properties *)
(* ================================================================== *)

(** ** Binary64 facts *)

Lemma Prim2SF_001 :
  Prim2SF 0.01%float = S754_finite false 5764607523034235 (-59).
Proof. reflexivity. Qed.

Lemma Prim2SF_1e6 :
  Prim2SF 1000000%float = S754_finite false 8589934592000000 (-33).
Proof. reflexivity. Qed.

Lemma Prim2SF_zero : Prim2SF 0%float = S754_zero false.
Proof. reflexivity. Qed.

Lemma digits2_pos_bounds (m : positive) :
  2 ^ (Zpos (digits2_pos m) - 1) <= Zpos m < 2 ^ Zpos (digits2_pos m).
Proof.
  induction m as [m IH | m IH |]; cbn [digits2_pos].
  - rewrite Pos2Z.inj_succ.
    replace (Z.succ (Zpos (digits2_pos m)) - 1) with (Zpos (digits2_pos m)) by lia.
    rewrite Z.pow_succ_r by lia.
    assert (0 < 2 ^ (Zpos (digits2_pos m) - 1)) by (apply Z.pow_pos_nonneg; lia).
    replace (2 ^ Zpos (digits2_pos m))
      with (2 * 2 ^ (Zpos (digits2_pos m) - 1)) in *
      by (rewrite <- Z.pow_succ_r by lia; f_equal; lia).
    lia.
  - rewrite Pos2Z.inj_succ.
    replace (Z.succ (Zpos (digits2_pos m)) - 1) with (Zpos (digits2_pos m)) by lia.
    rewrite Z.pow_succ_r by lia.
    assert (0 < 2 ^ (Zpos (digits2_pos m) - 1)) by (apply Z.pow_pos_nonneg; lia).
    replace (2 ^ Zpos (digits2_pos m))
      with (2 * 2 ^ (Zpos (digits2_pos m) - 1)) in *
      by (rewrite <- Z.pow_succ_r by lia; f_equal; lia).
    lia.
  - cbn. lia.
Qed.

Lemma shr_1_m (mrs : shr_record) :
  0 <= shr_m mrs -> shr_m (shr_1 mrs) = Z.div2 (shr_m mrs).
Proof.
  destruct mrs as [m r s]; cbn [shr_m]; intros Hm.
  destruct m as [| [p | p |] | p]; cbn; try reflexivity; lia.
Qed.

Lemma iter_shr_1_m (p : positive) :
  forall mrs, 0 <= shr_m mrs ->
    shr_m (iter_pos shr_1 p mrs) = Z.shiftr (shr_m mrs) (Zpos p).
Proof.
  assert (Hnn : forall x, 0 <= x -> 0 <= Z.div2 x).
  { intros x Hx. rewrite Z.div2_div. apply Z.div_pos; lia. }
  induction p as [p IH | p IH |]; intros mrs Hm; cbn [iter_pos].
  - assert (H1 : 0 <= shr_m (shr_1 mrs)) by (rewrite shr_1_m; auto).
    assert (H2 : 0 <= shr_m (iter_pos shr_1 p (shr_1 mrs))).
    { rewrite IH by exact H1. apply Z.shiftr_nonneg. exact H1. }
    rewrite IH by exact H2. rewrite IH by exact H1. rewrite shr_1_m by exact Hm.
    rewrite Z.div2_spec, !Z.shiftr_shiftr by lia. f_equal. lia.
  - assert (H2 : 0 <= shr_m (iter_pos shr_1 p mrs)).
    { rewrite IH by exact Hm. apply Z.shiftr_nonneg. exact Hm. }
    rewrite IH by exact H2. rewrite IH by exact Hm.
    rewrite Z.shiftr_shiftr by lia. f_equal. lia.
  - rewrite shr_1_m by exact Hm. apply Z.div2_spec.
Qed.

(** Rounding a positive mantissa whose exponent is not below [emin] never
    underflows to zero: the shift it applies only removes surplus digits. *)
Lemma shr_fexp_pos (m : positive) (e : Z) (l : location) :
  emin <= e ->
  0 < shr_m (fst (shr_fexp prec emax (Zpos m) e l))
  /\ e <= snd (shr_fexp prec emax (Zpos m) e l).
Proof.
  intros He. unfold shr_fexp, shr, fexp. cbn [Zdigits2].
  pose proof (digits2_pos_bounds m) as [Hlo _].
  set (d := Zpos (digits2_pos m)) in *.
  assert (Hrec : shr_m (shr_record_of_loc (Zpos m) l) = Zpos m)
    by (destruct l as [| []]; reflexivity).
  destruct (Z.max (d + e - prec) (SpecFloat.emin prec emax) - e) as [| n | n] eqn:En;
    cbn [fst snd]; try (rewrite Hrec; lia).
  rewrite iter_shr_1_m by (rewrite Hrec; lia).
  rewrite Hrec, Z.shiftr_div_pow2 by lia.
  assert (Hn : Zpos n = d - prec) by lia.
  split; [| lia].
  apply Z.div_str_pos. split; [apply Z.pow_pos_nonneg; lia |].
  rewrite Hn. etransitivity; [| exact Hlo].
  apply Z.pow_le_mono_r; unfold prec; lia.
Qed.

Lemma round_nearest_even_pos (m : Z) (l : location) :
  0 < m -> 0 < round_nearest_even m l.
Proof.
  intros Hm. destruct l as [| []]; cbn; try lia.
  destruct (Z.even m); lia.
Qed.

Lemma binary_round_aux_nonzero (s : bool) (m : positive) (e : Z) (l : location) :
  emin <= e ->
  exists s' , binary_round_aux prec emax s (Zpos m) e l = S754_infinity s'
    \/ exists m' e', binary_round_aux prec emax s (Zpos m) e l = S754_finite s' m' e'.
Proof.
  intros He. unfold binary_round_aux.
  destruct (shr_fexp_pos m e l He) as [H1 H2].
  destruct (shr_fexp prec emax (Zpos m) e l) as [mrs1 e1]; cbn [fst snd] in *.
  pose proof (round_nearest_even_pos _ (loc_of_shr_record mrs1) H1) as Hr.
  destruct (round_nearest_even (shr_m mrs1) (loc_of_shr_record mrs1)) as [| m1 | m1];
    try lia.
  destruct (shr_fexp_pos m1 e1 loc_Exact ltac:(lia)) as [H3 _].
  destruct (shr_fexp prec emax (Zpos m1) e1 loc_Exact) as [mrs2 e2]; cbn [fst snd] in *.
  destruct (shr_m mrs2) as [| m2 | m2]; try lia.
  exists s. destruct (e2 <=? emax - prec); eauto.
Qed.

(** ** The order on binary64 values *)

Lemma SFcompare_antisym (x y : spec_float) :
  SFcompare y x = option_map CompOpp (SFcompare x y).
Proof.
  destruct x as [[] | [] | | [] mx ex], y as [[] | [] | | [] my ey];
    cbn; try reflexivity;
    assert (Hm : Pos.compare_cont Eq my mx = CompOpp (Pos.compare_cont Eq mx my))
      by (symmetry; apply (Pos.compare_cont_antisym mx my Eq));
    rewrite (Z.compare_antisym ex ey), Hm;
    destruct (ex ?= ey); cbn; try reflexivity;
    destruct (Pos.compare_cont Eq mx my); reflexivity.
Qed.

Lemma ltb_leb_false (x y : float) :
  (x <? y)%float = true -> (y <=? x)%float = false.
Proof.
  rewrite ltb_spec, leb_spec. unfold SFltb, SFleb.
  rewrite (SFcompare_antisym (Prim2SF x) (Prim2SF y)).
  destruct (SFcompare (Prim2SF x) (Prim2SF y)) as [[] |]; cbn; congruence.
Qed.


(** ** Integers that convert without overflow *)

Lemma shr_fexp_exponent (m : positive) (e : Z) (l : location) :
  snd (shr_fexp prec emax (Zpos m) e l)
  = Z.max e (fexp prec emax (Zpos (digits2_pos m) + e)).
Proof.
  unfold shr_fexp, shr. cbn [Zdigits2].
  destruct (fexp prec emax (Zpos (digits2_pos m) + e) - e) eqn:E; cbn [snd]; lia.
Qed.

Lemma shr_fexp_mantissa_bound (m : positive) (e : Z) (l : location) :
  shr_m (fst (shr_fexp prec emax (Zpos m) e l)) < 2 ^ prec.
Proof.
  unfold shr_fexp, shr, fexp. cbn [Zdigits2].
  pose proof (digits2_pos_bounds m) as [_ Hhi].
  set (d := Zpos (digits2_pos m)) in *.
  assert (Hrec : shr_m (shr_record_of_loc (Zpos m) l) = Zpos m)
    by (destruct l as [| []]; reflexivity).
  destruct (Z.max (d + e - prec) (SpecFloat.emin prec emax) - e) as [| n | n] eqn:En;
    cbn [fst].
  - rewrite Hrec. eapply Z.lt_le_trans; [exact Hhi |].
    apply Z.pow_le_mono_r; lia.
  - rewrite iter_shr_1_m by (rewrite Hrec; lia).
    rewrite Hrec, Z.shiftr_div_pow2 by lia.
    apply Z.div_lt_upper_bound; [apply Z.pow_pos_nonneg; lia |].
    rewrite <- Z.pow_add_r by (unfold prec; lia).
    eapply Z.lt_le_trans; [exact Hhi |].
    apply Z.pow_le_mono_r; lia.
  - rewrite Hrec. eapply Z.lt_le_trans; [exact Hhi |].
    apply Z.pow_le_mono_r; lia.
Qed.

Lemma round_nearest_even_le (m : Z) (l : location) :
  round_nearest_even m l <= m + 1.
Proof. destruct l as [| []]; cbn; try lia. destruct (Z.even m); lia. Qed.

(** Rounding does not overflow when the value is below [2 ^ (emax - 1)]. *)
Lemma binary_round_aux_finite (s : bool) (m : positive) (e : Z) (l : location) :
  emin <= e ->
  Z.max e (Zpos (digits2_pos m) + e - prec) < emax - prec ->
  exists m' e', binary_round_aux prec emax s (Zpos m) e l = S754_finite s m' e'.
Proof.
  intros He Hsmall. unfold binary_round_aux.
  destruct (shr_fexp_pos m e l He) as [H1 _].
  pose proof (shr_fexp_exponent m e l) as H2.
  pose proof (shr_fexp_mantissa_bound m e l) as H3.
  destruct (shr_fexp prec emax (Zpos m) e l) as [mrs1 e1]; cbn [fst snd] in *.
  pose proof (round_nearest_even_pos _ (loc_of_shr_record mrs1) H1) as Hr.
  pose proof (round_nearest_even_le (shr_m mrs1) (loc_of_shr_record mrs1)) as Hr'.
  destruct (round_nearest_even (shr_m mrs1) (loc_of_shr_record mrs1)) as [| m1 | m1];
    try lia.
  assert (He1 : emin <= e1) by (rewrite H2; lia).
  destruct (shr_fexp_pos m1 e1 loc_Exact He1) as [H4 _].
  pose proof (shr_fexp_exponent m1 e1 loc_Exact) as H5.
  destruct (shr_fexp prec emax (Zpos m1) e1 loc_Exact) as [mrs2 e2]; cbn [fst snd] in *.
  destruct (shr_m mrs2) as [| m2 | m2]; try lia.
  assert (Hd1 : Zpos (digits2_pos m1) <= prec + 1).
  { pose proof (digits2_pos_bounds m1) as [Hlo _].
    destruct (Z_lt_le_dec (prec + 1) (Zpos (digits2_pos m1))) as [Hgt |]; [| lia].
    exfalso.
    assert (2 ^ (prec + 1) <= 2 ^ (Zpos (digits2_pos m1) - 1))
      by (apply Z.pow_le_mono_r; lia).
    assert (2 ^ (prec + 1) = 2 * 2 ^ prec) by (unfold prec; reflexivity).
    lia. }
  replace (e2 <=? emax - prec) with true; [eauto |].
  symmetry. apply Z.leb_le. rewrite H5, H2. unfold fexp, SpecFloat.emin in *.
  unfold prec, emax in *. lia.
Qed.

Lemma digits2_pos_iter_xO (m : positive) (d : positive) :
  Zpos (digits2_pos (Pos.iter xO m d)) = Zpos (digits2_pos m) + Zpos d.
Proof.
  induction d as [| d IH] using Pos.peano_ind.
  - cbn. lia.
  - rewrite Pos.iter_succ. cbn [digits2_pos]. lia.
Qed.

Lemma binary_round_finite (s : bool) (m : positive) :
  Zpos (digits2_pos m) < emax ->
  exists m' e', binary_round prec emax s m 0 = S754_finite s m' e'.
Proof.
  intros Hd. unfold binary_round, shl_align.
  destruct (fexp prec emax (Zpos (digits2_pos m) + 0) - 0) as [| p | p] eqn:E;
    unfold fexp, SpecFloat.emin, prec, emax in *.
  - apply binary_round_aux_finite; unfold SpecFloat.emin, prec, emax; lia.
  - apply binary_round_aux_finite; unfold SpecFloat.emin, prec, emax; lia.
  - apply binary_round_aux_finite; unfold SpecFloat.emin;
      rewrite ?digits2_pos_iter_xO; unfold prec, emax; lia.
Qed.

(** [float(n)] succeeds for every [int] below [2 ^ 1023] in magnitude. *)
Lemma float_of_int_bounded (n : Z) :
  - 2 ^ 1023 < n < 2 ^ 1023 -> exists f, float_of_int n = Ret f.
Proof.
  intros Hn. unfold float_of_int, binary_normalize.
  assert (Hdig : forall p, Zpos p < 2 ^ 1023 -> Zpos (digits2_pos p) < emax).
  { intros p Hp. pose proof (digits2_pos_bounds p) as [Hlo _].
    destruct (Z_lt_le_dec (Zpos (digits2_pos p)) emax) as [| Hge]; [assumption |].
    exfalso. unfold emax in Hge.
    assert (2 ^ 1023 <= 2 ^ (Zpos (digits2_pos p) - 1))
      by (apply Z.pow_le_mono_r; lia).
    lia. }
  destruct n as [| p | p].
  - eauto.
  - destruct (binary_round_finite false p) as (m' & e' & ->); [apply Hdig; lia | eauto].
  - destruct (binary_round_finite true p) as (m' & e' & ->); [apply Hdig; lia | eauto].
Qed.

(** ** Text and regular expressions *)

#[local] Open Scope string_scope.
#[local] Open Scope Z_scope.

Lemma string_app_assoc (a b c : string) : (a ++ b) ++ c = a ++ (b ++ c).
Proof. induction a as [| x a IH]; cbn; [reflexivity | now rewrite IH]. Qed.

Lemma string_app_nil_r (a : string) : a ++ "" = a.
Proof. induction a as [| x a IH]; cbn; [reflexivity | now rewrite IH]. Qed.

Lemma strip_prefix_app (l s : string) : strip_prefix l (l ++ s) = Some s.
Proof.
  induction l as [| a l IH]; cbn; [reflexivity |].
  now rewrite Ascii.eqb_refl.
Qed.

Lemma strip_prefix_sound (l : string) :
  forall s s', strip_prefix l s = Some s' -> s = l ++ s'.
Proof.
  induction l as [| a l IH]; cbn; intros s s' H.
  - congruence.
  - destruct s as [| b s]; [discriminate |].
    destruct (Ascii.eqb a b) eqn:E; [| discriminate].
    apply Ascii.eqb_eq in E. subst b. f_equal. now apply IH.
Qed.

Lemma first_some_sound {A : Type} (f : nat -> option A) (n : nat) (r : A) :
  first_some f n = Some r -> exists k, (1 <= k <= n)%nat /\ f k = Some r.
Proof.
  induction n as [| n IH]; cbn; [discriminate |].
  destruct (f (S n)) eqn:E.
  - intros [= <-]. exists (S n). split; [lia | exact E].
  - intros H. destruct (IH H) as (k & Hk & Hf). exists k. split; [lia | exact Hf].
Qed.

Lemma first_some_complete {A : Type} (f : nat -> option A) (n k : nat) (r : A) :
  (1 <= k <= n)%nat -> f k = Some r -> exists r', first_some f n = Some r'.
Proof.
  induction n as [| n IH]; intros Hk Hf; [lia |].
  cbn. destruct (f (S n)) eqn:E; [eauto |].
  apply IH; [| exact Hf].
  assert (k <> S n) by congruence. lia.
Qed.

Lemma take_drop (n : nat) :
  forall s, string_take n s ++ string_drop n s = s.
Proof.
  induction n as [| n IH]; intros [| c s]; cbn; try reflexivity.
  now rewrite IH.
Qed.

Lemma take_span_forall (p : ascii -> bool) (n : nat) :
  forall s, (n <= span_len p s)%nat -> string_forall p (string_take n s) = true.
Proof.
  induction n as [| n IH]; intros [| c s]; cbn; try reflexivity.
  destruct (p c); [| lia]. intros H. cbn. apply IH. lia.
Qed.

Lemma take_nonempty (n : nat) (s : string) :
  (1 <= n <= String.length s)%nat -> string_take n s <> "".
Proof. destruct n, s; cbn; try lia; congruence. Qed.

Lemma span_len_length (p : ascii -> bool) (s : string) :
  (span_len p s <= String.length s)%nat.
Proof. induction s as [| c s IH]; cbn; [lia |]. destruct (p c); lia. Qed.

Lemma span_len_app (p : ascii -> bool) (w rest : string) :
  string_forall p w = true -> (String.length w <= span_len p (w ++ rest))%nat.
Proof.
  induction w as [| c w IH]; cbn; [lia |].
  destruct (p c); cbn; [| discriminate]. intros H. specialize (IH H). lia.
Qed.

Lemma drop_app_length (w rest : string) :
  string_drop (String.length w) (w ++ rest) = rest.
Proof. induction w as [| c w IH]; cbn; [now destruct rest | exact IH]. Qed.

Lemma take_app_length (w rest : string) :
  string_take (String.length w) (w ++ rest) = w.
Proof. induction w as [| c w IH]; cbn; [now destruct rest | now rewrite IH]. Qed.

Lemma length_nonempty (w : string) : w <> "" -> (1 <= String.length w)%nat.
Proof. destruct w; cbn; [congruence | lia]. Qed.

(** Whatever [match_atoms] accepts is a prefix the atoms match. *)
Lemma match_atoms_sound (rs : list atom) :
  forall s cap c, match_atoms rs s cap = Some c ->
    exists w rest, s = w ++ rest /\ matches rs w cap c.
Proof.
  induction rs as [| [l | p | p] rs IH]; cbn [match_atoms]; intros s cap c H.
  - injection H as <-. exists "", s. split; [reflexivity | constructor].
  - destruct (strip_prefix l s) as [s' |] eqn:E; [| discriminate].
    apply strip_prefix_sound in E. subst s.
    destruct (IH _ _ _ H) as (w & rest & -> & Hm).
    exists (l ++ w), rest. split; [now rewrite string_app_assoc | now constructor].
  - apply first_some_sound in H. destruct H as (k & Hk & H).
    destruct (IH _ _ _ H) as (w & rest & Hs & Hm).
    exists (string_take k s ++ w), rest. split.
    + rewrite string_app_assoc, <- Hs. symmetry. apply take_drop.
    + constructor; [| apply take_span_forall; lia | exact Hm].
      apply take_nonempty. pose proof (span_len_length p s). lia.
  - apply first_some_sound in H. destruct H as (k & Hk & H).
    destruct (IH _ _ _ H) as (w & rest & Hs & Hm).
    exists (string_take k s ++ w), rest. split.
    + rewrite string_app_assoc, <- Hs. symmetry. apply take_drop.
    + constructor; [| apply take_span_forall; lia | exact Hm].
      apply take_nonempty. pose proof (span_len_length p s). lia.
Qed.

(** Wherever the atoms match a prefix, [match_atoms] finds a match. *)
Lemma match_atoms_complete (rs : list atom) (w : string) (cap c : option string) :
  matches rs w cap c ->
  forall rest, exists c', match_atoms rs (w ++ rest) cap = Some c'.
Proof.
  induction 1 as [cap | l rs w cap c _ IH | p rs run w cap c Hne Hp _ IH
                 | p rs run w cap c Hne Hp _ IH]; intros rest; cbn [match_atoms].
  - eauto.
  - rewrite string_app_assoc, strip_prefix_app. apply IH.
  - rewrite string_app_assoc. destruct (IH rest) as [c' Hc'].
    apply (first_some_complete _ _ (String.length run) c').
    + split; [now apply length_nonempty | now apply span_len_app].
    + now rewrite drop_app_length.
  - rewrite string_app_assoc. destruct (IH rest) as [c' Hc'].
    apply (first_some_complete _ _ (String.length run) c').
    + split; [now apply length_nonempty | now apply span_len_app].
    + now rewrite drop_app_length, take_app_length.
Qed.

Lemma re_search_sound (rs : list atom) (s : string) (c : option string) :
  re_search rs s = Some c ->
  exists pre w rest, s = pre ++ w ++ rest /\ matches rs w None c.
Proof.
  induction s as [| a s IH]; cbn [re_search].
  - destruct (match_atoms rs "" None) eqn:E; [| discriminate].
    intros [= ->]. destruct (match_atoms_sound _ _ _ _ E) as (w & rest & Hs & Hm).
    exists "", w, rest. auto.
  - destruct (match_atoms rs (String a s) None) eqn:E.
    + intros [= ->]. destruct (match_atoms_sound _ _ _ _ E) as (w & rest & Hs & Hm).
      exists "", w, rest. auto.
    + intros H. destruct (IH H) as (pre & w & rest & -> & Hm).
      exists (String a pre), w, rest. auto.
Qed.

Lemma re_search_complete (rs : list atom) (pre w rest : string) (c : option string) :
  matches rs w None c -> exists c', re_search rs (pre ++ w ++ rest) = Some c'.
Proof.
  intros Hm. induction pre as [| a pre IH].
  - destruct (match_atoms_complete _ _ _ _ Hm rest) as [c' Hc'].
    exists c'. cbn [append]. destruct (w ++ rest); cbn [re_search]; now rewrite Hc'.
  - cbn [append re_search]. destruct (match_atoms rs _ None); eauto.
Qed.

(** A search that fails leaves no place where the atoms match. *)
Lemma re_search_none (rs : list atom) (s : string) :
  re_search rs s = None ->
  forall pre w rest c, s = pre ++ w ++ rest -> ~ matches rs w None c.
Proof.
  intros Hn pre w rest c -> Hm.
  destruct (re_search_complete rs pre w rest c Hm) as [c' Hc']. congruence.
Qed.

(** ** [float(str)] on digit strings *)

Lemma string_rev_app_rev (a : string) :
  forall b c, string_rev_app (string_rev_app a b) c = string_rev_app b (a ++ c).
Proof.
  induction a as [| x a IH]; intros b c; cbn; [reflexivity |].
  now rewrite IH.
Qed.

Lemma string_rev_involutive (s : string) : string_rev (string_rev s) = s.
Proof.
  unfold string_rev. rewrite string_rev_app_rev. cbn. apply string_app_nil_r.
Qed.

Lemma string_forall_rev_app (p : ascii -> bool) (a : string) :
  forall b, string_forall p (string_rev_app a b)
            = string_forall p a && string_forall p b.
Proof.
  induction a as [| x a IH]; intros b; cbn; [reflexivity |].
  rewrite IH. cbn. destruct (p x), (string_forall p a); reflexivity.
Qed.

Lemma is_digit_range (c : ascii) :
  is_digit c = true <-> (48 <= nat_of_ascii c <= 57)%nat.
Proof.
  unfold is_digit. rewrite andb_true_iff, !Nat.leb_le. tauto.
Qed.

Lemma is_digit_not_float_space (c : ascii) :
  is_digit c = true -> is_float_space c = false.
Proof.
  rewrite is_digit_range. unfold is_float_space. intros H.
  repeat (apply orb_false_iff; split);
    try (apply andb_false_iff; rewrite !Nat.leb_gt; lia);
    apply Nat.eqb_neq; lia.
Qed.

Lemma is_digit_neq (c x : ascii) :
  is_digit c = true -> is_digit x = false -> Ascii.eqb c x = false.
Proof.
  intros Hc Hx. destruct (Ascii.eqb c x) eqn:E; [| reflexivity].
  apply Ascii.eqb_eq in E. congruence.
Qed.

Lemma is_digit_lower (c : ascii) : is_digit c = true -> to_lower c = c.
Proof.
  rewrite is_digit_range. unfold to_lower. intros H.
  replace ((65 <=? nat_of_ascii c)%nat) with false
    by (symmetry; apply Nat.leb_gt; lia).
  replace ((192 <=? nat_of_ascii c)%nat) with false
    by (symmetry; apply Nat.leb_gt; lia).
  reflexivity.
Qed.

Lemma drop_float_space_digits (s : string) :
  string_forall is_digit s = true -> drop_while is_float_space s = s.
Proof.
  destruct s as [| c s]; cbn; [reflexivity |].
  intros H. apply andb_true_iff in H as [Hc _].
  now rewrite (is_digit_not_float_space c Hc).
Qed.

Lemma float_strip_digits (s : string) :
  string_forall is_digit s = true -> float_strip s = s.
Proof.
  intros H. unfold float_strip. rewrite (drop_float_space_digits s H).
  rewrite drop_float_space_digits; [apply string_rev_involutive |].
  unfold string_rev. rewrite string_forall_rev_app, H. reflexivity.
Qed.

Lemma digitpart_tail_digits (s : string) :
  forall acc n, string_forall is_digit s = true ->
    digitpart_tail s acc n
    = (decimal_value s acc, n + Z.of_nat (String.length s), "").
Proof.
  induction s as [| c s IH]; intros acc n H;
    cbn [digitpart_tail decimal_value String.length].
  - now rewrite Z.add_0_r.
  - cbn in H. apply andb_true_iff in H as [Hc Hs]. rewrite Hc, IH by exact Hs.
    rewrite Nat2Z.inj_succ.
    now replace (n + 1 + Z.of_nat (String.length s))
      with (n + Z.succ (Z.of_nat (String.length s))) by lia.
Qed.

(** [float] of a non-empty string of digits is the float nearest to the
    integer the digits spell; it does not raise. *)
Lemma py_float_digits (s : string) :
  s <> "" -> string_forall is_digit s = true ->
  py_float s = Ret (decimal_to_float false (decimal_value s 0) 0).
Proof.
  intros Hne H. unfold py_float. rewrite (float_strip_digits s H).
  destruct s as [| c s]; [congruence |].
  cbn in H. apply andb_true_iff in H as [Hc Hs].
  unfold sign.
  rewrite (is_digit_neq c "-" Hc eq_refl), (is_digit_neq c "+" Hc eq_refl).
  cbn [lower String.eqb]. rewrite (is_digit_lower c Hc).
  rewrite (is_digit_neq c "i" Hc eq_refl), (is_digit_neq c "n" Hc eq_refl).
  cbn [andb orb].
  unfold number, digitpart. rewrite Hc, (digitpart_tail_digits s _ _ Hs).
  cbn [exponent]. reflexivity.
Qed.

(** ** [parse_windows_ping] *)

Lemma matches_average_inv (w : string) (c : option string) :
  matches average_regex w None c ->
  exists n, w = "Average = " ++ n ++ "ms" /\ c = Some n
            /\ n <> "" /\ string_forall is_digit n = true.
Proof.
  unfold average_regex. intros H.
  inversion H as [| l rs w1 cap c1 H1 | |]; subst; clear H.
  inversion H1 as [| | | p rs n w2 cap c2 Hne Hd H2]; subst; clear H1.
  inversion H2 as [| l rs w3 cap c3 H3 | |]; subst; clear H2.
  inversion H3; subst; clear H3.
  exists n. repeat split; auto.
Qed.

Lemma matches_average_intro (n : string) :
  n <> "" -> string_forall is_digit n = true ->
  matches average_regex ("Average = " ++ n ++ "ms" ++ "") None (Some n).
Proof.
  intros Hne Hd. unfold average_regex.
  apply matches_lit. apply matches_capplus; auto.
  apply matches_lit. constructor.
Qed.

(** Two runs of class characters that are each followed by a character
    outside the class, in the same text, are the same run. *)
Lemma run_unique (p : ascii -> bool) (a : string) :
  forall b x y u v,
    string_forall p a = true -> string_forall p b = true ->
    p x = false -> p y = false ->
    a ++ String x u = b ++ String y v -> a = b /\ u = v.
Proof.
  induction a as [| c a IH]; intros [| d b] x y u v Ha Hb Hx Hy E; cbn in *.
  - injection E as -> ->. auto.
  - injection E as -> _. apply andb_true_iff in Hb as [Hd _]. congruence.
  - injection E as -> _. apply andb_true_iff in Ha as [Hc _]. congruence.
  - injection E as -> E. apply andb_true_iff in Ha as [_ Ha].
    apply andb_true_iff in Hb as [_ Hb].
    destruct (IH b x y u v Ha Hb Hx Hy E) as [-> ->]. auto.
Qed.

Lemma append_inj_l (a : string) : forall b c, a ++ b = a ++ c -> b = c.
Proof. induction a as [| x a IH]; cbn; intros b c E; [exact E |]. injection E. apply IH. Qed.

(** Claim C6.  [parse_windows_ping] returns a number exactly when the output
    has an occurrence of [Average = N ms] (N a non-empty run of digits
    directly followed by "ms"), the number being [float(N)] of such an
    occurrence, the one at the start of the text when there is one there; it
    returns [None] otherwise and never raises; on "Average = 15ms" it yields
    [15.0]. *)
Theorem parse_windows_ping_spec :
  (forall out v, parse_windows_ping out = Ret (Some v) ->
     exists pre n post,
       out = pre ++ "Average = " ++ n ++ "ms" ++ post
       /\ n <> "" /\ string_forall is_digit n = true /\ py_float n = Ret v)
  /\ (forall pre n post, n <> "" -> string_forall is_digit n = true ->
        exists v, parse_windows_ping (pre ++ "Average = " ++ n ++ "ms" ++ post)
                  = Ret (Some v))
  /\ (forall n post, n <> "" -> string_forall is_digit n = true ->
        parse_windows_ping ("Average = " ++ n ++ "ms" ++ post)
        = Ret (Some (decimal_to_float false (decimal_value n 0) 0)))
  /\ (forall out, exists r, parse_windows_ping out = Ret r)
  /\ parse_windows_ping "Average = 15ms" = Ret (Some 15%float).
Proof.
  assert (Hshape : forall out m, re_search average_regex out = Some m ->
            exists pre n post,
              out = pre ++ "Average = " ++ n ++ "ms" ++ post /\ m = Some n
              /\ n <> "" /\ string_forall is_digit n = true).
  { intros out m Hs.
    destruct (re_search_sound _ _ _ Hs) as (pre & w & rest & -> & Hm).
    destruct (matches_average_inv _ _ Hm) as (n & -> & -> & Hne & Hd).
    exists pre, n, rest. repeat split; auto.
    now rewrite !string_app_assoc. }
  split; [| split; [| split; [| split]]].
  - intros out v. unfold parse_windows_ping.
    destruct (re_search average_regex out) as [m |] eqn:Hs; [| discriminate].
    destruct (Hshape _ _ Hs) as (pre & n & post & -> & -> & Hne & Hd).
    cbn [group1]. rewrite (py_float_digits n Hne Hd). cbn [bind].
    intros [= <-]. exists pre, n, post. repeat split; auto.
    apply py_float_digits; auto.
  - intros pre n post Hne Hd. unfold parse_windows_ping.
    destruct (re_search_complete average_regex pre _ post _
                (matches_average_intro n Hne Hd)) as [m Hs].
    replace (pre ++ ("Average = " ++ n ++ "ms" ++ "") ++ post)
      with (pre ++ "Average = " ++ n ++ "ms" ++ post) in Hs
      by (now rewrite !string_app_assoc).
    rewrite Hs. destruct (Hshape _ _ Hs) as (_ & n' & _ & _ & -> & Hne' & Hd').
    cbn [group1]. rewrite (py_float_digits n' Hne' Hd'). cbn [bind]. eauto.
  - intros n post Hne Hd. unfold parse_windows_ping.
    destruct (match_atoms_complete average_regex _ None _
                (matches_average_intro n Hne Hd) post) as [m Hm].
    replace (("Average = " ++ n ++ "ms" ++ "") ++ post)
      with ("Average = " ++ n ++ "ms" ++ post) in Hm
      by (now rewrite !string_app_assoc).
    assert (Hs : re_search average_regex ("Average = " ++ n ++ "ms" ++ post) = Some m).
    { cbn [append re_search]. cbn [append] in Hm. now rewrite Hm. }
    rewrite Hs.
    destruct (match_atoms_sound _ _ _ _ Hm) as (w & rest & E & Hw).
    destruct (matches_average_inv _ _ Hw) as (n' & -> & -> & Hne' & Hd').
    rewrite !string_app_assoc in E. apply append_inj_l in E.
    cbn [append] in E.
    destruct (run_unique is_digit n n' "m" "m" _ _ Hd Hd' eq_refl eq_refl E) as [<- _].
    cbn [group1]. now rewrite (py_float_digits n Hne Hd).
  - intros out. unfold parse_windows_ping.
    destruct (re_search average_regex out) as [m |] eqn:Hs; [| eauto].
    destruct (Hshape _ _ Hs) as (pre & n & post & -> & -> & Hne & Hd).
    cbn [group1]. rewrite (py_float_digits n Hne Hd). cbn [bind]. eauto.
  - vm_compute. reflexivity.
Qed.

Lemma parse_windows_ping_spec_witness :
  parse_windows_ping "Minimum = 14ms, Maximum = 16ms, Average = 15ms"
  = Ret (Some 15%float)
  /\ exists pre n post,
       "Minimum = 14ms, Maximum = 16ms, Average = 15ms"
       = pre ++ "Average = " ++ n ++ "ms" ++ post
       /\ n <> "" /\ string_forall is_digit n = true
       /\ py_float n = Ret 15%float.
Proof.
  assert (H : parse_windows_ping "Minimum = 14ms, Maximum = 16ms, Average = 15ms"
              = Ret (Some 15%float)) by (vm_compute; reflexivity).
  split; [exact H |].
  exact (proj1 parse_windows_ping_spec _ _ H).
Defined.

(** ** [parse_unix_ping] *)

Lemma matches_rtt_inv (w : string) (g : option string) :
  matches rtt_regex w None g ->
  exists a b c d, w = rtt_line a b c d /\ g = Some b
    /\ rtt_field a /\ rtt_field b /\ rtt_field c /\ rtt_field d.
Proof.
  unfold rtt_regex. intros H.
  inversion H as [| ? ? ? ? ? H1 | |]; subst; clear H.
  inversion H1 as [| | ? ? a ? ? ? Ha1 Ha2 H2 |]; subst; clear H1.
  inversion H2 as [| ? ? ? ? ? H3 | |]; subst; clear H2.
  inversion H3 as [| | | ? ? b ? ? ? Hb1 Hb2 H4]; subst; clear H3.
  inversion H4 as [| ? ? ? ? ? H5 | |]; subst; clear H4.
  inversion H5 as [| | ? ? c ? ? ? Hc1 Hc2 H6 |]; subst; clear H5.
  inversion H6 as [| ? ? ? ? ? H7 | |]; subst; clear H6.
  inversion H7 as [| | ? ? d ? ? ? Hd1 Hd2 H8 |]; subst; clear H7.
  inversion H8 as [| ? ? ? ? ? H9 | |]; subst; clear H8.
  inversion H9; subst; clear H9.
  exists a, b, c, d. unfold rtt_field, rtt_line. repeat split; auto.
Qed.








(** ** [ping_test] *)

Lemma ping_test_returns (h : host) (target_ip : pyval) (count timeout_sec : Z) :
  exists v, fst (ping_test h target_ip count timeout_sec) = Ret v.
Proof.
  unfold ping_test. destruct (negb (truthy target_ip)); [now exists None |].
  destruct (ping_try h target_ip count timeout_sec) as [[v | e] calls].
  - now exists v.
  - exists None. now destruct e.
Qed.

(** Claim C5.  [ping_test] never raises; it returns [None] when the ping
    process exits with a non-zero code (as it does for a host that cannot be
    resolved, whatever it printed), when running it raises
    [FileNotFoundError] (no ping command), [TimeoutExpired] or anything else,
    and when the process succeeds but its output does not parse (the parser
    returns [None] or raises). *)
Theorem ping_test_degrades_to_none :
  (forall h target_ip count timeout_sec,
     exists v, fst (ping_test h target_ip count timeout_sec) = Ret v)
  /\ (forall h ip count timeout_sec returncode stdout stderr,
        subprocess_run h (fst (ping_command h ip count timeout_sec)) (timeout_sec + 2)
        = Completed returncode stdout stderr ->
        returncode <> 0 ->
        fst (ping_test h (VStr ip) count timeout_sec) = Ret None)
  /\ (forall h ip count timeout_sec e,
        subprocess_run h (fst (ping_command h ip count timeout_sec)) (timeout_sec + 2)
        = ProcRaise e ->
        fst (ping_test h (VStr ip) count timeout_sec) = Ret None)
  /\ (forall h ip count timeout_sec stdout stderr,
        subprocess_run h (fst (ping_command h ip count timeout_sec)) (timeout_sec + 2)
        = Completed 0 stdout stderr ->
        (snd (ping_command h ip count timeout_sec) stdout = Ret None
         \/ exists e, snd (ping_command h ip count timeout_sec) stdout = Raise e) ->
        fst (ping_test h (VStr ip) count timeout_sec) = Ret None).
Proof.
  split; [exact ping_test_returns |].
  split; [| split].
  - intros h ip count timeout_sec rc out err Hrun Hrc.
    unfold ping_test. destruct (negb (truthy (VStr ip))); [reflexivity |].
    unfold ping_try.
    destruct (ping_command h ip count timeout_sec) as [cmd parse_func].
    cbn [fst] in Hrun. rewrite Hrun.
    replace (rc =? 0) with false by (symmetry; now apply Z.eqb_neq).
    reflexivity.
  - intros h ip count timeout_sec e Hrun.
    unfold ping_test. destruct (negb (truthy (VStr ip))); [reflexivity |].
    unfold ping_try.
    destruct (ping_command h ip count timeout_sec) as [cmd parse_func].
    cbn [fst] in Hrun. rewrite Hrun. now destruct e.
  - intros h ip count timeout_sec out err Hrun Hparse.
    unfold ping_test. destruct (negb (truthy (VStr ip))); [reflexivity |].
    unfold ping_try.
    destruct (ping_command h ip count timeout_sec) as [cmd parse_func].
    cbn [fst snd] in *. rewrite Hrun. cbn [Z.eqb negb].
    destruct Hparse as [-> | [e ->]]; [reflexivity | now destruct e].
Qed.

Lemma ping_test_degrades_to_none_witness :
  subprocess_run unresolved_host
    (fst (ping_command unresolved_host "nosuch.invalid" 3 5)) (5 + 2)
  = Completed 2 "" "ping: nosuch.invalid: Name or service not known"
  /\ 2 <> 0
  /\ fst (ping_test unresolved_host (VStr "nosuch.invalid") 3 5) = Ret None.
Proof.
  split; [reflexivity |]. split; [lia |].
  apply (proj1 (proj2 ping_test_degrades_to_none) unresolved_host "nosuch.invalid"
           3 5 2 "" "ping: nosuch.invalid: Name or service not known");
    [reflexivity | lia].
Defined.

(** ** Servers without an address *)

(** Claim C10.  For a server whose ["ipv4_addr_in"] entry is missing or falsy
    [get_server_latency] returns the result with [latency = None] and makes no
    subprocess call, and [run_socket_ping_pong_test] returns [(None, None)]
    and leaves the I/O state untouched: no connection attempt, no send or
    receive, no clock or stop-event reading. *)
Theorem no_address_no_probe :
  forall (h : host) (net : network) (has_stop : bool) (srv : dict),
    truthy (dict_get srv "ipv4_addr_in") = false ->
    (forall ping_count timeout_sec,
       get_server_latency h srv ping_count timeout_sec
       = (Ret {| server := srv; latency := None |}, []))
    /\ (forall fuel duration chunk_size ports st,
          run_socket_ping_pong_test net has_stop fuel srv duration chunk_size ports st
          = Some (Ret (None, None), st)).
Proof.
  intros h net has_stop srv Hip. split.
  - intros. unfold get_server_latency. now rewrite Hip.
  - intros. unfold run_socket_ping_pong_test. now rewrite Hip.
Qed.

Lemma no_address_no_probe_witness :
  truthy (dict_get [("hostname", VStr "se-got-wg-001"); ("ipv4_addr_in", VStr "")]
            "ipv4_addr_in") = false
  /\ get_server_latency unresolved_host
       [("hostname", VStr "se-got-wg-001"); ("ipv4_addr_in", VStr "")] 3 10
     = (Ret {| server := [("hostname", VStr "se-got-wg-001"); ("ipv4_addr_in", VStr "")];
               latency := None |}, []).
Proof.
  split; [reflexivity |].
  apply (proj1 (no_address_no_probe unresolved_host silent_network false
                  [("hostname", VStr "se-got-wg-001"); ("ipv4_addr_in", VStr "")]
                  eq_refl)).
Defined.

(** ** [calculate_mbps] *)

(** A duration that is not [<= 0.01] scales by [1_000_000] to a non-zero
    float, so the division in [calculate_mbps] has a non-zero divisor. *)
Lemma scaled_duration_nonzero (d : float) :
  (d <=? 0.01)%float = false -> (d * 1000000 =? 0)%float = false.
Proof.
  rewrite leb_spec, eqb_spec, mul_spec, Prim2SF_001, Prim2SF_1e6, Prim2SF_zero.
  unfold SF64mul.
  destruct (Prim2SF d) as [s | s | | s m e]; cbn [SFmul];
    try (try destruct s; unfold SFleb, SFeqb; cbn [SFcompare xorb]; congruence).
  destruct s; [unfold SFleb; cbn [SFcompare]; congruence |].
  intros Hle.
  assert (He : -59 <= e).
  { unfold SFleb in Hle; cbn [SFcompare] in Hle.
    destruct (e ?= -59) eqn:Ec; try discriminate.
    - apply Z.compare_eq in Ec. lia.
    - apply Z.compare_gt_iff in Ec. lia. }
  destruct (binary_round_aux_nonzero (xorb false false)
              (m * 8589934592000000) (e + -33) loc_Exact) as [s' [H | (m' & e' & H)]].
  { unfold SpecFloat.emin, prec, emax. lia. }
  - rewrite H. destruct s'; reflexivity.
  - rewrite H. destruct s'; reflexivity.
Qed.

Lemma calculate_mbps_guard (b : Z) (d : float) :
  (d <=? 0.01)%float = true \/ b <= 0 -> calculate_mbps b d = Ret 0%float.
Proof.
  intros [H | H]; unfold calculate_mbps.
  - rewrite H. reflexivity.
  - apply Z.leb_le in H. rewrite H, orb_true_r. reflexivity.
Qed.

(** Claim C8.  [calculate_mbps b d] is [0.0] whenever [d <= 0.01] or the byte
    count is not positive; when [d > 0.01] and [b > 0] it is the float quotient
    [(b * 8) / (d * 1_000_000)], [b * 8] being converted to the nearest float
    (which succeeds below [2 ^ 1023]); for no input at all does it raise
    [ZeroDivisionError]; and [calculate_mbps(1_000_000, 1.0) == 8.0]. *)
Theorem calculate_mbps_spec :
  (forall b d, (d <=? 0.01)%float = true \/ b <= 0 ->
     calculate_mbps b d = Ret 0%float)
  /\ (forall b d, (0.01 <? d)%float = true -> 0 < b -> b * 8 < 2 ^ 1023 ->
        exists n, float_of_int (b * 8) = Ret n
                  /\ calculate_mbps b d = Ret (n / (d * 1000000))%float)
  /\ (forall b d, calculate_mbps b d <> Raise ZeroDivisionError)
  /\ calculate_mbps 1000000 1%float = Ret 8%float.
Proof.
  split; [exact calculate_mbps_guard |].
  split; [| split; [| vm_compute; reflexivity]].
  - intros b d Hd Hb Hsmall.
    destruct (float_of_int_bounded (b * 8)) as [n Hn]; [lia |].
    exists n. split; [exact Hn |]. unfold calculate_mbps.
    rewrite (ltb_leb_false _ _ Hd).
    replace (b <=? 0) with false by (symmetry; apply Z.leb_gt; lia).
    cbn [orb]. unfold int_truediv_float, float_truediv. rewrite Hn. cbn [bind].
    rewrite (scaled_duration_nonzero d (ltb_leb_false _ _ Hd)). reflexivity.
  - intros b d. unfold calculate_mbps.
    destruct (d <=? 0.01)%float eqn:Hd; [discriminate |].
    destruct (b <=? 0); cbn [orb]; [discriminate |].
    unfold int_truediv_float, float_truediv, float_of_int.
    destruct (binary_normalize prec emax (b * 8) 0 false); cbn [bind];
      try discriminate;
      rewrite (scaled_duration_nonzero d Hd); discriminate.
Qed.

Lemma calculate_mbps_spec_witness :
  (0.01 <? 2)%float = true /\ 0 < 500 /\ 500 * 8 < 2 ^ 1023
  /\ exists n, float_of_int (500 * 8) = Ret n
               /\ calculate_mbps 500 2%float = Ret (n / (2 * 1000000))%float.
Proof.
  split; [vm_compute; reflexivity |]. split; [lia |].
  split; [vm_compute; reflexivity |].
  apply (proj1 (proj2 calculate_mbps_spec) 500 2%float);
    [vm_compute; reflexivity | lia | vm_compute; reflexivity].
Defined.

(** ** The speed prober: connection attempts *)

Section SessionFacts.
Variable net : network.
Variable has_stop : bool.

Lemma same_sockets_refl (st : io_state) : same_sockets st st.
Proof. repeat split. Qed.

Lemma same_sockets_trans (st1 st2 st3 : io_state) :
  same_sockets st1 st2 -> same_sockets st2 st3 -> same_sockets st1 st3.
Proof. unfold same_sockets. intuition congruence. Qed.

Lemma monotonic_sockets (st : io_state) :
  same_sockets st (snd (monotonic net st)).
Proof. repeat split. Qed.

Lemma stop_requested_sockets (st : io_state) :
  same_sockets st (snd (stop_requested net has_stop st)).
Proof. unfold stop_requested. destruct has_stop; repeat split. Qed.

Lemma monotonic_connects (st : io_state) :
  connects (snd (monotonic net st)) = connects st.
Proof. reflexivity. Qed.

Lemma stop_requested_connects (st : io_state) :
  connects (snd (stop_requested net has_stop st)) = connects st.
Proof. apply stop_requested_sockets. Qed.

Lemma recv_loop_sockets (fuel : nat) :
  forall expected got deadline st r st',
    recv_loop net has_stop fuel expected got deadline st = Some (r, st') ->
    same_sockets st st'.
Proof.
  induction fuel as [| fuel IH]; intros expected got deadline st r st' H;
    cbn [recv_loop] in H; [discriminate |].
  destruct (got <? expected); [| injection H as _ <-; apply same_sockets_refl].
  cbn [monotonic] in H.
  destruct (_ <? deadline)%float; [| injection H as _ <-; repeat split].
  pose proof (stop_requested_sockets (snd (monotonic net st))) as Hs.
  cbn [monotonic snd] in Hs.
  destruct (stop_requested net has_stop _) as [[] st2]; cbn [snd] in Hs.
  { injection H as _ <-. exact Hs. }
  destruct (_ <=? 0)%float; [injection H as _ <-; exact Hs |].
  unfold sock_recv in H.
  destruct (recv net (recvs _)) as [n | e]; [| injection H as _ <-; exact Hs].
  destruct (Z.min n _ <=? 0); [injection H as _ <-; exact Hs |].
  apply IH in H. eapply same_sockets_trans; [| exact H]. exact Hs.
Qed.

Lemma ping_pong_loop_sockets (fuel : nat) :
  forall expected end_time stats st stats' st',
    ping_pong_loop net has_stop fuel expected end_time stats st = Some (stats', st') ->
    same_sockets st st'.
Proof.
  induction fuel as [| fuel IH]; intros expected end_time stats st stats' st' H;
    cbn [ping_pong_loop] in H; [discriminate |].
  cbn [monotonic] in H.
  destruct (_ <? end_time)%float; [| injection H as _ <-; repeat split].
  pose proof (stop_requested_sockets (snd (monotonic net st))) as Hs.
  cbn [monotonic snd] in Hs.
  destruct (stop_requested net has_stop _) as [[] st2]; cbn [snd] in Hs;
    [injection H as _ <-; exact Hs |].
  unfold sock_send in H.
  destruct (send net _) as [sent | e]; [| injection H as _ <-; exact Hs].
  destruct (sent =? 0); [injection H as _ <-; exact Hs |].
  destruct (recv_loop net has_stop fuel expected 0 _ _) as [[r st6] |] eqn:Hr;
    [| discriminate].
  apply recv_loop_sockets in Hr.
  assert (H6 : same_sockets st st6)
    by (eapply same_sockets_trans; [exact Hs | exact Hr]).
  destruct r as [bytes | e].
  - apply IH in H. eapply same_sockets_trans; [exact H6 | exact H].
  - destruct e; try (injection H as _ <-; exact H6).
    apply IH in H. eapply same_sockets_trans; [exact H6 | exact H].
Qed.

(** A session calls [socket.socket()] once.  When that raises, nothing is
    connected and nothing closed; when it gives a socket, one connection is
    attempted, to the session's own port, and one socket is closed. *)
Lemma session_try_sockets fuel ip port duration chunk_size st stats speeds st' :
  session_try net has_stop fuel ip port duration chunk_size st
  = Some (stats, speeds, st') ->
  urandoms st' = urandoms st
  /\ sockets st' = S (sockets st)
  /\ match socket net (sockets st) with
     | Some _ =>
         stats = None /\ speeds = (None, None)
         /\ connects st' = connects st /\ closes st' = closes st
     | None =>
         connects st' = (connects st ++ [(ip, port)])%list
         /\ closes st' = S (closes st)
     end.
Proof.
  unfold session_try. cbn [monotonic]. unfold sock_socket. cbn [sockets].
  destruct (socket net (sockets st)) as [e0 |].
  { intros [= <- <- <-]. repeat split. }
  unfold sock_connect.
  destruct (match ip with VStr _ => _ | _ => _ end) as [e |].
  { intros [= _ _ <-]. repeat split. }
  cbn [monotonic].
  destruct (float_of_int duration) as [d | e]; [| intros [= _ _ <-]; repeat split].
  destruct (ping_pong_loop net has_stop fuel chunk_size _ _ _)
    as [[stats1 st5] |] eqn:Hl; [| discriminate].
  apply ping_pong_loop_sockets in Hl. destruct Hl as (H1 & H2 & H3 & H4).
  cbn in H1, H2, H3, H4. intros [= _ _ <-]. cbn. repeat split; congruence.
Qed.

(** A session that reports a speed had a socket and was connected. *)
Lemma session_try_speed_connected fuel ip port duration chunk_size st stats dl ul st' :
  session_try net has_stop fuel ip port duration chunk_size st
  = Some (stats, (dl, ul), st') ->
  dl <> None \/ ul <> None ->
  socket net (sockets st) = None
  /\ fst (sock_connect net ip port
            (snd (sock_socket net (snd (monotonic net st))))) = None.
Proof.
  unfold session_try. cbn [monotonic snd]. unfold sock_socket. cbn [sockets snd].
  destruct (socket net (sockets st)) as [e0 |].
  { intros [= _ <- <- _] [H | H]; congruence. }
  destruct (sock_connect net ip port _) as [[e' |] st2]; cbn [fst];
    [| split; reflexivity].
  intros [= _ <- <- _] [H | H]; congruence.
Qed.

(** What [os.urandom] does with the size. *)
Lemma os_urandom_ret (size : Z) (st : io_state) (n : Z) (st1 : io_state) :
  os_urandom net size st = (Ret n, st1) ->
  n = size /\ 0 <= size < 2 ^ 63 /\ urandom net (urandoms st) = None
  /\ st1 = count_urandom st.
Proof.
  unfold os_urandom.
  destruct ((size <? - 2 ^ 63) || (2 ^ 63 <=? size)) eqn:E1; [discriminate |].
  destruct (size <? 0) eqn:E2; [discriminate |].
  apply orb_false_iff in E1 as [E1 E3].
  apply Z.ltb_ge in E1, E2. apply Z.leb_gt in E3.
  destruct (urandom net (urandoms st)); [discriminate |].
  intros [= <- <-]. repeat split; lia.
Qed.

Lemma os_urandom_raise (size : Z) (st : io_state) (e : exn) (st1 : io_state) :
  os_urandom net size st = (Raise e, st1) ->
  (e = OverflowError /\ (size < - 2 ^ 63 \/ 2 ^ 63 <= size) /\ st1 = st)
  \/ (e = ValueError /\ - 2 ^ 63 <= size < 0 /\ st1 = st)
  \/ (0 <= size < 2 ^ 63 /\ urandom net (urandoms st) = Some e
      /\ st1 = count_urandom st).
Proof.
  unfold os_urandom.
  destruct ((size <? - 2 ^ 63) || (2 ^ 63 <=? size)) eqn:E1.
  { intros [= <- <-]. left. apply orb_true_iff in E1 as [E1 | E1];
      [apply Z.ltb_lt in E1 | apply Z.leb_le in E1]; repeat split; lia. }
  apply orb_false_iff in E1 as [E1 E3].
  apply Z.ltb_ge in E1. apply Z.leb_gt in E3.
  destruct (size <? 0) eqn:E2.
  { intros [= <- <-]. right. left. apply Z.ltb_lt in E2. repeat split; lia. }
  apply Z.ltb_ge in E2.
  destruct (urandom net (urandoms st)) as [e' |]; [| discriminate].
  intros [= <- <-]. right. right. repeat split; lia.
Qed.

Lemma os_urandom_made (size : Z) (st : io_state) :
  0 <= size < 2 ^ 63 -> urandom net (urandoms st) = None ->
  os_urandom net size st = (Ret size, count_urandom st).
Proof.
  intros Hs Hu. unfold os_urandom.
  replace (size <? - 2 ^ 63) with false by (symmetry; apply Z.ltb_ge; lia).
  replace (2 ^ 63 <=? size) with false by (symmetry; apply Z.leb_gt; lia).
  replace (size <? 0) with false by (symmetry; apply Z.ltb_ge; lia).
  cbn [orb]. now rewrite Hu.
Qed.

(** A session of [_execute_socket_ping_pong] that returns. *)
Lemma execute_sockets fuel ip port duration chunk_size st speeds st' :
  _execute_socket_ping_pong net has_stop fuel ip port duration chunk_size st
  = Some (Ret speeds, st') ->
  0 <= chunk_size < 2 ^ 63
  /\ urandom net (urandoms st) = None
  /\ urandoms st' = S (urandoms st)
  /\ sockets st' = S (sockets st)
  /\ match socket net (sockets st) with
     | Some _ =>
         speeds = (None, None)
         /\ connects st' = connects st /\ closes st' = closes st
     | None =>
         connects st' = (connects st ++ [(ip, port)])%list
         /\ closes st' = S (closes st)
     end.
Proof.
  unfold _execute_socket_ping_pong.
  destruct (os_urandom net chunk_size st) as [[n | e] st1] eqn:Hu; [| discriminate].
  apply os_urandom_ret in Hu as (-> & Hc & Hu & ->).
  destruct (session_try net has_stop fuel ip port duration chunk_size _)
    as [[[stats speeds1] st2] |] eqn:Hs; [| discriminate].
  intros [= <- <-]. apply session_try_sockets in Hs.
  cbn [count_urandom urandoms sockets connects closes] in Hs.
  destruct Hs as (H1 & H2 & H3). repeat split; try lia; try assumption.
  destruct (socket net (sockets st)); tauto.
Qed.

(** A session of [_execute_socket_ping_pong] that raises: it is
    [os.urandom] that raised, and no socket was asked for. *)
Lemma execute_raise fuel ip port duration chunk_size st e st' :
  _execute_socket_ping_pong net has_stop fuel ip port duration chunk_size st
  = Some (Raise e, st') ->
  os_urandom net chunk_size st = (Raise e, st')
  /\ sockets st' = sockets st /\ connects st' = connects st
  /\ closes st' = closes st.
Proof.
  unfold _execute_socket_ping_pong.
  destruct (os_urandom net chunk_size st) as [[n | e'] st1] eqn:Hu.
  - destruct (session_try net has_stop fuel ip port duration n st1)
      as [[[stats speeds] st2] |]; discriminate.
  - intros [= <- <-]. split; [reflexivity |].
    apply os_urandom_raise in Hu as [(_ & _ & ->) | [(_ & _ & ->) | (_ & _ & ->)]];
      repeat split.
Qed.

End SessionFacts.

(** ** The port fallback of [run_socket_ping_pong_test] *)

Section PortFallback.
Variable net : network.
Variable has_stop : bool.

#[local] Abbreviation try_ports := (try_ports net has_stop).
#[local] Abbreviation execute := (_execute_socket_ping_pong net has_stop).
#[local] Abbreviation failed_ports := (failed_ports net has_stop).

(** The ports whose sessions come back with [(None, None)] are passed
    over: the loop goes on with the next port, from the state the last of
    them left. *)
Lemma try_ports_failed fuel ip duration chunk_size (l1 rest : list Z) :
  forall st st1,
    failed_ports fuel ip l1 duration chunk_size st = Some st1 ->
    try_ports fuel ip (l1 ++ rest) duration chunk_size st
    = try_ports fuel ip rest duration chunk_size st1.
Proof.
  induction l1 as [| port l1 IH]; intros st st1 H; cbn [failed_ports] in H.
  - now injection H as <-.
  - cbn [app try_ports].
    destruct (stop_requested net has_stop st) as [[] st0]; [discriminate |].
    destruct (execute fuel ip port duration chunk_size st0)
      as [[[[[dl |] [ul |]] | e] st2] |]; try discriminate.
    now apply IH.
Qed.

(** A session with another outcome ends the loop. *)
Lemma try_ports_decided fuel ip duration chunk_size port (rest : list Z) st out st' :
  fst (stop_requested net has_stop st) = false ->
  execute fuel ip port duration chunk_size (snd (stop_requested net has_stop st))
  = Some (out, st') ->
  out <> Ret (None, None) ->
  try_ports fuel ip (port :: rest) duration chunk_size st = Some (out, st').
Proof.
  intros Hstop He Hout. cbn [try_ports].
  destruct (stop_requested net has_stop st) as [stop st0]. cbn [fst snd] in *.
  subst stop. rewrite He.
  destruct out as [[[dl |] [ul |]] | e]; try reflexivity. contradiction.
Qed.

Lemma try_ports_inv fuel ip duration chunk_size (ports : list Z) :
  forall st out st',
    try_ports fuel ip ports duration chunk_size st = Some (out, st') ->
    exists l1 rest st1,
      ports = (l1 ++ rest)%list
      /\ failed_ports fuel ip l1 duration chunk_size st = Some st1
      /\ match rest with
         | [] => out = Ret (None, None) /\ st' = st1
         | port :: _ =>
             (fst (stop_requested net has_stop st1) = true
              /\ out = Ret (None, None)
              /\ st' = snd (stop_requested net has_stop st1))
             \/ (fst (stop_requested net has_stop st1) = false
                 /\ execute fuel ip port duration chunk_size
                      (snd (stop_requested net has_stop st1))
                    = Some (out, st')
                 /\ out <> Ret (None, None))
         end.
Proof.
  induction ports as [| port ports IH]; intros st out st' H;
    cbn [try_ports] in H.
  - injection H as <- <-. exists [], [], st. repeat split.
  - destruct (stop_requested net has_stop st) as [stop st0] eqn:Hs.
    destruct stop.
    { injection H as <- <-. exists [], (port :: ports), st.
      split; [reflexivity |]. split; [reflexivity |]. left. now rewrite Hs. }
    destruct (execute fuel ip port duration chunk_size st0)
      as [[r st2] |] eqn:He; [| discriminate].
    assert (Hother : r <> Ret (None, None) -> Some (r, st2) = Some (out, st') ->
              exists l1 rest st1,
                port :: ports = (l1 ++ rest)%list
                /\ failed_ports fuel ip l1 duration chunk_size st = Some st1
                /\ match rest with
                   | [] => out = Ret (None, None) /\ st' = st1
                   | port0 :: _ =>
                       (fst (stop_requested net has_stop st1) = true
                        /\ out = Ret (None, None)
                        /\ st' = snd (stop_requested net has_stop st1))
                       \/ (fst (stop_requested net has_stop st1) = false
                           /\ execute fuel ip port0 duration chunk_size
                                (snd (stop_requested net has_stop st1))
                              = Some (out, st')
                           /\ out <> Ret (None, None))
                   end).
    { intros Hr [= <- <-]. exists [], (port :: ports), st.
      split; [reflexivity |]. split; [reflexivity |]. right.
      rewrite Hs. cbn [fst snd]. repeat split; assumption. }
    destruct r as [[[dl |] [ul |]] | e];
      try (apply Hother; [discriminate | exact H]).
    destruct (IH _ _ _ H) as (l1 & rest & st1 & -> & Hf & Hrest).
    exists (port :: l1), rest, st1. split; [reflexivity |]. split; [| exact Hrest].
    cbn [failed_ports]. now rewrite Hs, He.
Qed.

(** The calls of [socket.socket()] and of [connect] the loop makes. *)
Lemma try_ports_order fuel ip duration chunk_size (ports : list Z) :
  forall st out st',
    try_ports fuel ip ports duration chunk_size st = Some (out, st') ->
    exists tried rest,
      ports = (tried ++ rest)%list
      /\ sockets st' = (sockets st + List.length tried)%nat
      /\ connects st'
         = (connects st ++ attempts ip (with_socket net (sockets st) tried))%list.
Proof.
  induction ports as [| port ports IH]; intros st out st' H;
    cbn [try_ports] in H.
  - injection H as _ <-. exists [], []. cbn. now rewrite app_nil_r, Nat.add_0_r.
  - destruct (stop_requested_sockets net has_stop st) as (_ & Hs2 & Hs3 & _).
    destruct (stop_requested net has_stop st) as [[] st1]; cbn [snd] in Hs2, Hs3.
    { injection H as _ <-. exists [], (port :: ports). cbn.
      now rewrite app_nil_r, Nat.add_0_r. }
    destruct (execute fuel ip port duration chunk_size st1)
      as [[[[dl ul] | e] st2] |] eqn:He; [| | discriminate].
    + apply execute_sockets in He as (_ & _ & _ & H2 & H3).
      rewrite Hs2, Hs3 in *.
      assert (Hone : sockets st2 = (sockets st + List.length [port])%nat
                     /\ connects st2
                        = (connects st
                           ++ attempts ip (with_socket net (sockets st) [port]))%list).
      { cbn [List.length with_socket]. split; [lia |].
        destruct (socket net (sockets st)); cbn [attempts map];
          [rewrite app_nil_r |]; tauto. }
      destruct dl as [dl |], ul as [ul |];
        try (injection H as _ <-; exists [port], ports; split;
             [reflexivity | exact Hone]).
      destruct (IH _ _ _ H) as (tried & rest & -> & Hk & Ht).
      exists (port :: tried), rest. split; [reflexivity |].
      cbn [List.length with_socket]. split; [lia |].
      rewrite Ht, H2. destruct (socket net (sockets st)) as [e0 |].
      * destruct H3 as (_ & -> & _). reflexivity.
      * destruct H3 as (-> & _). cbn [attempts map].
        now rewrite <- app_assoc.
    + apply execute_raise in He as (_ & H2 & H3 & _).
      injection H as _ <-. exists [], (port :: ports). cbn.
      rewrite app_nil_r, Nat.add_0_r. split; [reflexivity |]. split; congruence.
Qed.

Lemma try_ports_all_refused fuel ip duration chunk_size (ports : list Z) :
  0 <= chunk_size < 2 ^ 63 ->
  (forall k, urandom net k = None) ->
  (forall k, connect net k <> None) ->
  forall st, exists st',
    try_ports fuel ip ports duration chunk_size st = Some (Ret (None, None), st').
Proof.
  intros Hc Hu Hrefuse. induction ports as [| port ports IH]; intros st;
    cbn [try_ports]; [eauto |].
  destruct (stop_requested net has_stop st) as [[] st1]; [eauto |].
  unfold _execute_socket_ping_pong.
  rewrite (os_urandom_made net chunk_size st1 Hc (Hu _)).
  unfold session_try. cbn [monotonic]. unfold sock_socket.
  destruct (socket net _); [apply IH |].
  unfold sock_connect.
  destruct (match ip with VStr _ => _ | _ => _ end) as [e |] eqn:E; [apply IH |].
  destruct ip; try discriminate.
  destruct ((0 <=? port) && (port <=? 65535)); [| discriminate].
  now apply Hrefuse in E.
Qed.

(** One iteration of the loop whose send is dead: the loop ends with the
    byte totals it had. *)
Lemma ping_pong_loop_dead_send fuel expected end_time stats st :
  (send net (sends st) = Ret 0 \/ exists e, send net (sends st) = Raise e) ->
  exists stats' st',
    ping_pong_loop net has_stop (S fuel) expected end_time stats st
    = Some (stats', st')
    /\ total_bytes_sent stats' = total_bytes_sent stats
    /\ total_bytes_received stats' = total_bytes_received stats.
Proof.
  intros Hsend. cbn [ping_pong_loop monotonic].
  destruct (_ <? end_time)%float; [| eauto].
  match goal with
  | |- context [stop_requested net has_stop ?st0] =>
      assert (Hs : sends (snd (stop_requested net has_stop st0)) = sends st)
        by (unfold stop_requested; now destruct has_stop);
      destruct (stop_requested net has_stop st0) as [[] st2]; cbn [snd] in Hs
  end; [eexists _, _; cbn; eauto |].
  unfold sock_send. cbn [sends]. rewrite Hs.
  destruct Hsend as [-> | [e ->]]; eexists _, _; cbn; eauto.
Qed.

Lemma aggregate_speeds_zero stats elapsed :
  total_bytes_sent stats = 0 -> total_bytes_received stats = 0 ->
  aggregate_speeds stats elapsed = (Some 0%float, Some 0%float).
Proof.
  intros Hs Hr. unfold aggregate_speeds. rewrite Hs, Hr.
  now rewrite (calculate_mbps_guard 0 elapsed) by (right; lia).
Qed.

Lemma dead_send_session fuel ip port duration chunk_size st :
  0 <= chunk_size < 2 ^ 63 ->
  urandom net (urandoms st) = None ->
  socket net (sockets st) = None ->
  0 <= port <= 65535 ->
  connect net (List.length (connects st)) = None ->
  - 2 ^ 1023 < duration < 2 ^ 1023 ->
  (send net (sends st) = Ret 0 \/ exists e, send net (sends st) = Raise e) ->
  exists st',
    execute (S fuel) (VStr ip) port duration chunk_size st
    = Some (Ret (Some 0%float, Some 0%float), st').
Proof.
  intros Hchunk Hu Hsock Hport Hc Hdur Hsend. unfold _execute_socket_ping_pong.
  destruct (float_of_int_bounded duration Hdur) as [d Hd].
  rewrite (os_urandom_made net chunk_size st Hchunk Hu).
  unfold session_try, sock_socket, sock_connect.
  replace ((0 <=? port) && (port <=? 65535)) with true
    by (symmetry; apply andb_true_iff; split; apply Z.leb_le; lia).
  cbn [monotonic count_urandom sockets connects]. rewrite Hsock, Hc, Hd.
  match goal with
  | |- context [ping_pong_loop net has_stop (S fuel) ?x ?e ?s ?st0] =>
      destruct (ping_pong_loop_dead_send fuel x e s st0 Hsend)
        as (stats & st5 & -> & Hs & Hr)
  end.
  cbn [monotonic]. rewrite aggregate_speeds_zero by assumption. eauto.
Qed.

Lemma calculate_mbps_returns (b : Z) (d : float) :
  b * 8 < 2 ^ 1023 -> exists r, calculate_mbps b d = Ret r.
Proof.
  intros Hb. unfold calculate_mbps.
  destruct (d <=? 0.01)%float eqn:Eg; cbn [orb]; [eauto |].
  destruct (b <=? 0) eqn:Eb; [eauto |]. apply Z.leb_gt in Eb.
  unfold int_truediv_float, float_truediv.
  destruct (float_of_int_bounded (b * 8) ltac:(lia)) as [a ->]. cbn [bind].
  rewrite (scaled_duration_nonzero d Eg). eauto.
Qed.

(** A session that gets a socket and a connection, with a duration that is
    a float, comes to its loop; unless the bytes sent are beyond every
    float, it reports an upload speed, whatever happened in the loop. *)
Lemma connected_session_decides fuel ip port duration chunk_size st stats speeds st' :
  socket net (sockets st) = None ->
  0 <= port <= 65535 ->
  connect net (List.length (connects st)) = None ->
  - 2 ^ 1023 < duration < 2 ^ 1023 ->
  session_try net has_stop fuel (VStr ip) port duration chunk_size st
  = Some (stats, speeds, st') ->
  exists s, stats = Some s
            /\ (total_bytes_sent s * 8 < 2 ^ 1023 -> snd speeds <> None).
Proof.
  intros Hsock Hport Hc Hdur. unfold session_try, sock_socket, sock_connect.
  replace ((0 <=? port) && (port <=? 65535)) with true
    by (symmetry; apply andb_true_iff; split; apply Z.leb_le; lia).
  cbn [monotonic sockets connects]. rewrite Hsock, Hc.
  destruct (float_of_int_bounded duration Hdur) as [d ->].
  destruct (ping_pong_loop net has_stop fuel chunk_size _ _ _)
    as [[s st5] |]; [| discriminate].
  cbn [monotonic]. intros [= <- <- _]. exists s. split; [reflexivity |].
  intros Hb. unfold aggregate_speeds.
  match goal with
  | |- context [calculate_mbps (total_bytes_sent s) ?e] =>
      destruct (calculate_mbps_returns (total_bytes_sent s) e Hb) as [ul ->]
  end.
  destruct (calculate_mbps (total_bytes_received s) _); cbn; discriminate.
Qed.

End PortFallback.

(** Claim C3.  For a server with an address, [run_socket_ping_pong_test]
    goes through the ports in the order given.  Every call that returns has
    passed over a front part of the list, port after port, each session
    coming back with [(None, None)] and handing its state to the next; it
    then ends in one of three ways: the list is used up and the result is
    [(None, None)]; the stop event is found set before the next port and the
    result is [(None, None)]; or the session on the next port has another
    outcome, which is the outcome of the call, in the state in which that
    session ended (a pair with a download or an upload value, or what
    [os.urandom] raised).  Conversely the ports whose sessions come back with
    [(None, None)] are passed over, the first session with another outcome
    decides, and when the sessions of all ports come back with
    [(None, None)] so does the call.  The calls of [connect] are, in order,
    those to the ports tried whose session got a socket.  A session that
    reports a value had a socket and was connected.  A session that got a
    socket and a connection, with a duration that is a float, ends the call at
    its port whatever happens in its loop: it reports an upload value (unless
    the bytes sent are beyond every float), and no other port is tried.  In
    particular a session that connects and then fails at once (its first
    send sends nothing or raises) reports [(0.0, 0.0)].  When no port accepts
    a connection the call returns [(None, None)]. *)
Theorem port_fallback_policy (net : network) (has_stop : bool) :
  (forall fuel srv duration chunk_size ports st out st',
     truthy (dict_get srv "ipv4_addr_in") = true ->
     run_socket_ping_pong_test net has_stop fuel srv duration chunk_size ports st
     = Some (out, st') ->
     exists l1 rest st1,
       ports = (l1 ++ rest)%list
       /\ failed_ports net has_stop fuel (dict_get srv "ipv4_addr_in") l1
            duration chunk_size st = Some st1
       /\ match rest with
          | [] => out = Ret (None, None) /\ st' = st1
          | port :: _ =>
              (fst (stop_requested net has_stop st1) = true
               /\ out = Ret (None, None)
               /\ st' = snd (stop_requested net has_stop st1))
              \/ (fst (stop_requested net has_stop st1) = false
                  /\ _execute_socket_ping_pong net has_stop fuel
                       (dict_get srv "ipv4_addr_in") port duration chunk_size
                       (snd (stop_requested net has_stop st1))
                     = Some (out, st')
                  /\ out <> Ret (None, None))
          end)
  /\ (forall fuel srv duration chunk_size l1 rest st st1,
        truthy (dict_get srv "ipv4_addr_in") = true ->
        failed_ports net has_stop fuel (dict_get srv "ipv4_addr_in") l1
          duration chunk_size st = Some st1 ->
        run_socket_ping_pong_test net has_stop fuel srv duration chunk_size
          (l1 ++ rest) st
        = run_socket_ping_pong_test net has_stop fuel srv duration chunk_size
            rest st1)
  /\ (forall fuel srv duration chunk_size port rest st out st',
        truthy (dict_get srv "ipv4_addr_in") = true ->
        fst (stop_requested net has_stop st) = false ->
        _execute_socket_ping_pong net has_stop fuel
          (dict_get srv "ipv4_addr_in") port duration chunk_size
          (snd (stop_requested net has_stop st))
        = Some (out, st') ->
        out <> Ret (None, None) ->
        run_socket_ping_pong_test net has_stop fuel srv duration chunk_size
          (port :: rest) st
        = Some (out, st'))
  /\ (forall fuel srv duration chunk_size ports st st',
        truthy (dict_get srv "ipv4_addr_in") = true ->
        failed_ports net has_stop fuel (dict_get srv "ipv4_addr_in") ports
          duration chunk_size st = Some st' ->
        run_socket_ping_pong_test net has_stop fuel srv duration chunk_size
          ports st
        = Some (Ret (None, None), st'))
  /\ (forall fuel srv duration chunk_size ports st out st',
        run_socket_ping_pong_test net has_stop fuel srv duration chunk_size ports st
        = Some (out, st') ->
        exists tried rest,
          ports = (tried ++ rest)%list
          /\ connects st'
             = (connects st
                ++ attempts (dict_get srv "ipv4_addr_in")
                     (with_socket net (sockets st) tried))%list)
  /\ (forall fuel ip port duration chunk_size st dl ul st',
        _execute_socket_ping_pong net has_stop fuel ip port duration chunk_size st
        = Some (Ret (dl, ul), st') ->
        dl <> None \/ ul <> None ->
        socket net (sockets st) = None
        /\ (exists s, ip = VStr s)
        /\ 0 <= port <= 65535
        /\ connect net (List.length (connects st)) = None
        /\ connects st' = (connects st ++ [(ip, port)])%list)
  /\ (forall fuel srv ip port rest duration chunk_size st out st',
        dict_get srv "ipv4_addr_in" = VStr ip -> ip <> "" ->
        fst (stop_requested net has_stop st) = false ->
        socket net (sockets st) = None ->
        0 <= port <= 65535 ->
        connect net (List.length (connects st)) = None ->
        - 2 ^ 1023 < duration < 2 ^ 1023 ->
        run_socket_ping_pong_test net has_stop fuel srv duration chunk_size
          (port :: rest) st
        = Some (out, st') ->
        (exists e, out = Raise e /\ connects st' = connects st)
        \/ (exists stats speeds st1,
              session_try net has_stop fuel (VStr ip) port duration chunk_size
                (count_urandom (snd (stop_requested net has_stop st)))
              = Some (Some stats, speeds, st1)
              /\ (total_bytes_sent stats * 8 < 2 ^ 1023 ->
                  out = Ret speeds /\ snd speeds <> None /\ st' = st1
                  /\ connects st' = (connects st ++ [(VStr ip, port)])%list)))
  /\ (forall fuel srv ip port rest duration chunk_size st,
        dict_get srv "ipv4_addr_in" = VStr ip -> ip <> "" ->
        fst (stop_requested net has_stop st) = false ->
        0 <= chunk_size < 2 ^ 63 ->
        urandom net (urandoms st) = None ->
        socket net (sockets st) = None ->
        0 <= port <= 65535 ->
        connect net (List.length (connects st)) = None ->
        - 2 ^ 1023 < duration < 2 ^ 1023 ->
        (send net (sends st) = Ret 0 \/ exists e, send net (sends st) = Raise e) ->
        exists st',
          run_socket_ping_pong_test net has_stop (S fuel) srv duration chunk_size
            (port :: rest) st
          = Some (Ret (Some 0%float, Some 0%float), st')
          /\ connects st' = (connects st ++ [(VStr ip, port)])%list)
  /\ (forall fuel srv duration chunk_size ports st,
        0 <= chunk_size < 2 ^ 63 ->
        (forall k, urandom net k = None) ->
        (forall k, connect net k <> None) ->
        exists st',
          run_socket_ping_pong_test net has_stop fuel srv duration chunk_size ports st
          = Some (Ret (None, None), st')).
Proof.
  split; [| split; [| split; [| split; [| split; [| split; [| split; [| split]]]]]]].
  - intros fuel srv duration chunk_size ports st out st' Hip.
    unfold run_socket_ping_pong_test. rewrite Hip. cbn [negb].
    apply try_ports_inv.
  - intros fuel srv duration chunk_size l1 rest st st1 Hip Hf.
    unfold run_socket_ping_pong_test. rewrite Hip. cbn [negb].
    now apply try_ports_failed.
  - intros fuel srv duration chunk_size port rest st out st' Hip Hstop He Hout.
    unfold run_socket_ping_pong_test. rewrite Hip. cbn [negb].
    now apply try_ports_decided.
  - intros fuel srv duration chunk_size ports st st' Hip Hf.
    unfold run_socket_ping_pong_test. rewrite Hip. cbn [negb].
    rewrite <- (app_nil_r ports).
    now rewrite (try_ports_failed net has_stop _ _ _ _ ports [] st st' Hf).
  - intros fuel srv duration chunk_size ports st out st'.
    unfold run_socket_ping_pong_test.
    destruct (negb (truthy (dict_get srv "ipv4_addr_in"))).
    + intros [= _ <-]. exists [], ports. cbn. now rewrite app_nil_r.
    + intros H. apply try_ports_order in H as (tried & rest & H1 & _ & H3).
      eauto.
  - intros fuel ip port duration chunk_size st dl ul st' He Hnn.
    pose proof He as Hs. apply execute_sockets in Hs as (_ & _ & _ & _ & Hs).
    unfold _execute_socket_ping_pong in He.
    destruct (os_urandom net chunk_size st) as [[n | e] st1] eqn:Hu;
      [| discriminate].
    apply os_urandom_ret in Hu as (-> & _ & _ & ->).
    destruct (session_try net has_stop fuel ip port duration chunk_size _)
      as [[[stats speeds] st2] |] eqn:Hst; [| discriminate].
    injection He as -> ->.
    destruct (session_try_speed_connected net has_stop _ _ _ _ _ _ _ _ _ _ Hst Hnn)
      as (Hsock & Hconn).
    cbn [count_urandom sockets] in Hsock. rewrite Hsock in Hs.
    split; [exact Hsock |]. unfold sock_connect in Hconn.
    cbn [fst snd monotonic sock_socket connects count_urandom] in Hconn.
    destruct ip; try discriminate. split; [eauto |].
    destruct ((0 <=? port) && (port <=? 65535)) eqn:Ep; [| discriminate].
    apply andb_true_iff in Ep as [Ep1 Ep2]. apply Z.leb_le in Ep1, Ep2.
    split; [lia |]. split; [exact Hconn | tauto].
  - intros fuel srv ip port rest duration chunk_size st out st' Hip Hne Hstop
           Hsock Hport Hc Hd.
    unfold run_socket_ping_pong_test. rewrite Hip. cbn [truthy].
    replace (String.eqb ip "") with false by (symmetry; now apply String.eqb_neq).
    cbn [negb try_ports].
    destruct (stop_requested_sockets net has_stop st) as (_ & Hk1 & Hc1 & _).
    destruct (stop_requested net has_stop st) as [stop st0]; cbn [fst snd] in *.
    subst stop. unfold _execute_socket_ping_pong.
    destruct (os_urandom net chunk_size st0) as [[n | e] st1] eqn:Hu.
    + apply os_urandom_ret in Hu as (-> & _ & _ & ->).
      destruct (session_try net has_stop fuel (VStr ip) port duration chunk_size _)
        as [[[stats speeds] st2] |] eqn:Hs; [| discriminate].
      intros H. right.
      assert (Hsock' : socket net (sockets (count_urandom st0)) = None)
        by (cbn; congruence).
      assert (Hc' : connect net (List.length (connects (count_urandom st0))) = None)
        by (cbn; congruence).
      destruct (connected_session_decides net has_stop _ _ _ _ _ _ _ _ _
                  Hsock' Hport Hc' Hd Hs) as (s & -> & Hul).
      exists s, speeds, st2. split; [reflexivity |]. intros Hb.
      specialize (Hul Hb). apply session_try_sockets in Hs as (_ & _ & Hs).
      cbn [count_urandom sockets connects] in Hs. rewrite Hk1, Hsock in Hs.
      destruct Hs as (Hs & _).
      destruct speeds as [dl [ul |]]; [| now contradiction Hul].
      destruct dl; injection H as <- <-; repeat split; congruence.
    + intros [= <- <-]. left. exists e. split; [reflexivity |].
      apply os_urandom_raise in Hu as [(_ & _ & ->) | [(_ & _ & ->) | (_ & _ & ->)]];
        cbn; congruence.
  - intros fuel srv ip port rest duration chunk_size st Hip Hne Hstop Hchunk Hu
           Hsock Hport Hc Hd Hsend.
    unfold run_socket_ping_pong_test. rewrite Hip. cbn [truthy].
    replace (String.eqb ip "") with false by (symmetry; now apply String.eqb_neq).
    cbn [negb try_ports].
    assert (Hst : urandoms (snd (stop_requested net has_stop st)) = urandoms st
                  /\ sockets (snd (stop_requested net has_stop st)) = sockets st
                  /\ connects (snd (stop_requested net has_stop st)) = connects st
                  /\ sends (snd (stop_requested net has_stop st)) = sends st)
      by (unfold stop_requested; now destruct has_stop).
    destruct (stop_requested net has_stop st) as [stop st1]; cbn [fst snd] in *.
    subst stop. destruct Hst as (Hu1 & Hk1 & Hc1 & Hs1).
    rewrite <- Hu1 in Hu. rewrite <- Hk1 in Hsock. rewrite <- Hc1 in Hc.
    rewrite <- Hs1 in Hsend.
    destruct (dead_send_session net has_stop fuel ip port duration chunk_size st1
                Hchunk Hu Hsock Hport Hc Hd Hsend) as [st' He].
    rewrite He. exists st'. split; [reflexivity |].
    apply execute_sockets in He as (_ & _ & _ & _ & He).
    rewrite Hsock in He. destruct He as (He & _). congruence.
  - intros fuel srv duration chunk_size ports st Hchunk Hu Hrefuse.
    unfold run_socket_ping_pong_test.
    destruct (negb (truthy (dict_get srv "ipv4_addr_in"))); [eauto |].
    now apply try_ports_all_refused.
Qed.

Lemma port_fallback_policy_witness :
  (0 <= 8192 < 2 ^ 63
   /\ (forall k, urandom refusing_network k = None)
   /\ (forall k, connect refusing_network k <> None)
   /\ exists st',
        run_socket_ping_pong_test refusing_network false 10
          [("hostname", VStr "se-got-wg-001"); ("ipv4_addr_in", VStr "192.0.2.1")]
          5 8192 DEFAULT_PORTS io_start
        = Some (Ret (None, None), st'))
  /\ (exists st1,
       failed_ports crowded_network false 10 (VStr "192.0.2.1") [443; 80] 5 8192
         io_start = Some st1
       /\ run_socket_ping_pong_test crowded_network false 10
            [("hostname", VStr "se-got-wg-001"); ("ipv4_addr_in", VStr "192.0.2.1")]
            5 8192 ([443; 80] ++ [8080; 51820]) io_start
          = run_socket_ping_pong_test crowded_network false 10
              [("hostname", VStr "se-got-wg-001"); ("ipv4_addr_in", VStr "192.0.2.1")]
              5 8192 [8080; 51820] st1)
  /\ exists st',
       _execute_socket_ping_pong silent_network false 10 (VStr "192.0.2.1") 443 5
         8192 io_start
       = Some (Ret (Some 0%float, Some 0%float), st')
       /\ run_socket_ping_pong_test silent_network false 10
            [("hostname", VStr "se-got-wg-001"); ("ipv4_addr_in", VStr "192.0.2.1")]
            5 8192 DEFAULT_PORTS io_start
          = Some (Ret (Some 0%float, Some 0%float), st').
Proof.
  split; [| split].
  - split; [lia |]. split; [reflexivity |]. split; [intros k; discriminate |].
    apply (proj2 (proj2 (proj2 (proj2 (proj2 (proj2 (proj2 (proj2
             (port_fallback_policy refusing_network false)))))))));
      [lia | reflexivity | intros k; discriminate].
  - eexists. split; [vm_compute; reflexivity |].
    apply (proj1 (proj2 (port_fallback_policy crowded_network false)));
      [reflexivity | vm_compute; reflexivity].
  - eexists. split; [vm_compute; reflexivity |].
    apply (proj1 (proj2 (proj2 (port_fallback_policy silent_network false))));
      [reflexivity | reflexivity | vm_compute; reflexivity | discriminate].
Defined.

(** ** Relay lists *)

Lemma filter_servers_identity (servers : list dict) (protocol : option string) :
  protocol = None \/ (exists p, protocol = Some p /\ lower p = "both") ->
  filter_servers_by_protocol servers protocol = servers.
Proof.
  intros [-> | (p & -> & Hp)]; cbn [filter_servers_by_protocol]; [reflexivity |].
  rewrite Hp. cbn [String.eqb]. now rewrite orb_true_r.
Qed.

(** Claim C9.  [filter_servers_by_protocol] is the identity on the server
    list when [protocol] is [None] or is "both" in any letter case, and so
    [get_all_servers(data, None)] is the list of all extracted relays (or the
    empty list when there is no data or no country), none filtered out. *)
Theorem no_protocol_no_filter :
  (forall servers protocol,
     protocol = None \/ (exists p, protocol = Some p /\ lower p = "both") ->
     filter_servers_by_protocol servers protocol = servers)
  /\ (forall d,
        truthy (VDict d) = true -> truthy (extract_countries d) = true ->
        get_all_servers (Some d) None = collect_servers (extract_countries d))
  /\ (forall data, (forall d, data = Some d -> truthy (VDict d) = false
                              \/ truthy (extract_countries d) = false) ->
        get_all_servers data None = Ret [])
  /\ get_all_servers (Some two_relays) None
     = Ret [[("hostname", VStr "se-got-wg-001"); ("ipv4_addr_in", VStr "192.0.2.1");
             ("endpoint_data", VDict [("wireguard", VDict [])]);
             ("country", VStr "Sweden"); ("country_code", VStr "se");
             ("city", VStr "Gothenburg"); ("city_code", VStr "got")];
            [("hostname", VStr "se-got-ovpn-001"); ("ipv4_addr_in", VStr "192.0.2.2");
             ("endpoint_data", VStr "openvpn");
             ("country", VStr "Sweden"); ("country_code", VStr "se");
             ("city", VStr "Gothenburg"); ("city_code", VStr "got")]].
Proof.
  split; [exact filter_servers_identity |]. split; [| split].
  - intros d Hd Hc. unfold get_all_servers. rewrite Hd, Hc. cbn [negb].
    destruct (collect_servers (extract_countries d)); reflexivity.
  - intros [d |] H; [| reflexivity]. unfold get_all_servers.
    destruct (H d eq_refl) as [-> | Hc]; [reflexivity |].
    destruct (negb (truthy (VDict d))); [reflexivity |]. now rewrite Hc.
  - vm_compute. reflexivity.
Qed.

Lemma no_protocol_no_filter_witness :
  (exists p, Some "BoTh" = Some p /\ lower p = "both")
  /\ filter_servers_by_protocol
       [[("hostname", VStr "se-got-ovpn-001"); ("endpoint_data", VStr "openvpn")]]
       (Some "BoTh")
     = [[("hostname", VStr "se-got-ovpn-001"); ("endpoint_data", VStr "openvpn")]].
Proof.
  assert (H : exists p, Some "BoTh" = Some p /\ lower p = "both")
    by (exists "BoTh"; split; reflexivity).
  split; [exact H |].
  exact (proj1 no_protocol_no_filter _ (Some "BoTh") (or_intror H)).
Defined.

(** ** The receive phase of a round *)

(** When the round's deadline is seen on the clock (the loop test or the
    [remaining_time <= 0] break), the bytes that arrived are accounted: on the
    lagging network the 100 bytes of the first round are in the total and
    the round counts as an exchange. *)
Lemma deadline_on_clock_keeps_partial_round :
  exists stats speeds st,
    session_try lagging_network false 10 (VStr "192.0.2.1") 443 5 8192 io_start
    = Some (Some stats, speeds, st)
    /\ total_bytes_received stats = 100 + 8192
    /\ successful_exchanges stats = 2
    /\ List.length (rtt_samples stats) = 2%nat.
Proof. vm_compute. eexists _, _, _. repeat split. Qed.

(** Claim C2, which the code does not meet.  On the stalling network 100
    bytes of the first round's block arrive and the deadline then elapses
    inside [sock.recv], which raises [socket.timeout].  The round is not fatal
    and the loop goes on to a second round (two sends, no loop error), but the
    100 bytes are not added to the total received (8192, the second round
    alone), the round is not counted as an exchange (1, not 2) and gets no RTT
    sample: the [except socket.timeout] handler skips the accounting that
    follows the inner loop. *)
Theorem recv_timeout_drops_partial_round :
  recv stalling_network 0 = Ret 100
  /\ recv stalling_network 1 = Raise SocketTimeout
  /\ exists stats speeds st,
       session_try stalling_network false 10 (VStr "192.0.2.1") 443 5 8192 io_start
       = Some (Some stats, speeds, st)
       /\ sends st = 2%nat
       /\ loop_error stats = None
       /\ total_bytes_sent stats = 2 * 8192
       /\ total_bytes_received stats = 8192
       /\ successful_exchanges stats = 1
       /\ List.length (rtt_samples stats) = 1%nat.
Proof.
  split; [reflexivity |]. split; [reflexivity |].
  vm_compute. eexists _, _, _. repeat split.
Qed.

(** ** The aggregator: sorting by latency *)

Ltac compare_cases :=
  repeat match goal with
    | |- context [Z.compare ?a ?b] =>
        destruct (Z.compare_spec a b); subst
    | H : context [Z.compare ?a ?b] |- _ =>
        destruct (Z.compare_spec a b); subst
    | |- context [Pos.compare_cont Eq ?a ?b] =>
        change (Pos.compare_cont Eq a b) with (Pos.compare a b);
        destruct (Pos.compare_spec a b); subst
    | H : context [Pos.compare_cont Eq ?a ?b] |- _ =>
        change (Pos.compare_cont Eq a b) with (Pos.compare a b) in H;
        destruct (Pos.compare_spec a b); subst
    end;
  cbn in *; try discriminate; try reflexivity; try lia.

Lemma SFleb_trans (x y z : spec_float) :
  SFleb x y = true -> SFleb y z = true -> SFleb x z = true.
Proof.
  unfold SFleb.
  destruct x as [[] | [] | | [] mx ex], y as [[] | [] | | [] my ey],
           z as [[] | [] | | [] mz ez];
    cbn; try discriminate; try reflexivity; intros H1 H2; compare_cases.
Qed.

Lemma SFleb_total (x y : spec_float) :
  x <> S754_nan -> y <> S754_nan -> SFltb y x = false -> SFleb x y = true.
Proof.
  unfold SFleb, SFltb.
  destruct x as [[] | [] | | [] mx ex], y as [[] | [] | | [] my ey];
    cbn; try discriminate; try reflexivity; try congruence;
    intros _ _ H; compare_cases.
Qed.

Lemma SFltb_SFleb (x y : spec_float) : SFltb x y = true -> SFleb x y = true.
Proof.
  unfold SFleb, SFltb. destruct (SFcompare x y) as [[] |]; congruence.
Qed.

(** [x <= inf] says that [x] is not a NaN. *)
Lemma leb_infinity_not_nan (x : float) :
  (x <=? infinity)%float = true -> Prim2SF x <> S754_nan.
Proof.
  rewrite leb_spec. intros H E. rewrite E in H. discriminate.
Qed.

Lemma leb_trans (x y z : float) :
  (x <=? y)%float = true -> (y <=? z)%float = true -> (x <=? z)%float = true.
Proof. rewrite !leb_spec. apply SFleb_trans. Qed.

Lemma leb_total (x y : float) :
  (x <=? infinity)%float = true -> (y <=? infinity)%float = true ->
  (y <? x)%float = false -> (x <=? y)%float = true.
Proof.
  intros Hx Hy. rewrite ltb_spec, leb_spec.
  apply SFleb_total; now apply leb_infinity_not_nan.
Qed.

Lemma ltb_leb (x y : float) : (x <? y)%float = true -> (x <=? y)%float = true.
Proof. rewrite ltb_spec, leb_spec. apply SFltb_SFleb. Qed.

Lemma infinity_leb (x : float) :
  (infinity <=? x)%float = true -> (x <? infinity)%float = false.
Proof.
  rewrite leb_spec, ltb_spec. unfold SFleb, SFltb.
  change (Prim2SF infinity) with (S754_infinity false).
  destruct (Prim2SF x) as [[] | [] | | [] m e]; cbn; congruence.
Qed.

Section SortByKey.
Context {A : Type}.
Variable key : A -> float.

Lemma insert_by_key_perm (x : A) (l : list A) :
  Permutation (insert_by_key key x l) (x :: l).
Proof.
  induction l as [| y l IH]; cbn; [reflexivity |].
  destruct (key y <? key x)%float; [| reflexivity].
  rewrite IH. apply perm_swap.
Qed.

Lemma sort_by_key_perm (l : list A) : Permutation (sort_by_key key l) l.
Proof.
  induction l as [| x l IH]; cbn; [reflexivity |].
  rewrite insert_by_key_perm. now apply perm_skip.
Qed.

Lemma insert_by_key_sorted (x : A) (l : list A) :
  ordered key x -> Forall (ordered key) l ->
  StronglySorted (key_le key) l -> StronglySorted (key_le key) (insert_by_key key x l).
Proof.
  intros Hx Hl Hs. induction Hs as [| y l Hs IH Hy]; cbn.
  - constructor; constructor.
  - inversion Hl as [| ? ? Hoy Hol]; subst.
    destruct (key y <? key x)%float eqn:E.
    + constructor; [now apply IH |].
      rewrite insert_by_key_perm. constructor; [now apply ltb_leb | exact Hy].
    + assert (Hxy : key_le key x y) by (now apply leb_total).
      constructor; [now constructor |].
      constructor; [exact Hxy |].
      eapply Forall_impl; [| exact Hy].
      intros b Hb. unfold key_le in *. eapply leb_trans; eauto.
Qed.

Lemma sort_by_key_sorted (l : list A) :
  Forall (ordered key) l -> StronglySorted (key_le key) (sort_by_key key l).
Proof.
  induction l as [| x l IH]; cbn; intros H; [constructor |].
  inversion H as [| ? ? Hx Hl]; subst.
  apply insert_by_key_sorted; auto.
  eapply Permutation_Forall; [| exact Hl].
  symmetry. apply sort_by_key_perm.
Qed.

Lemma sorted_pair (l1 l2 l3 : list A) (a b : A) :
  StronglySorted (key_le key) (l1 ++ a :: l2 ++ b :: l3)%list -> key_le key a b.
Proof.
  induction l1 as [| c l1 IH]; cbn; intros H.
  - inversion H as [| ? ? _ Hall]; subst.
    rewrite Forall_forall in Hall. apply Hall.
    apply in_or_app. right. now left.
  - inversion H; subst. now apply IH.
Qed.

End SortByKey.

Lemma measured_ordered (r : probe_result) :
  measured r -> ordered latency_key r.
Proof.
  unfold measured, ordered, latency_key. intros H.
  destruct (latency r) as [x |]; [| reflexivity].
  apply ltb_leb. now apply H.
Qed.

(** ** The worker pool *)

Lemma get_server_latency_returns (h : host) (srv : dict) (count timeout : Z) :
  exists lat, fst (get_server_latency h srv count timeout)
              = Ret {| server := srv; latency := lat |}.
Proof.
  unfold get_server_latency.
  destruct (negb (truthy (dict_get srv "ipv4_addr_in"))); [now exists None |].
  destruct (ping_test_returns h (dict_get srv "ipv4_addr_in") count (timeout / 2))
    as [lat Hlat].
  destruct (ping_test h (dict_get srv "ipv4_addr_in") count (timeout / 2))
    as [r calls]. cbn [fst] in Hlat. subst r. now exists lat.
Qed.

Lemma nth_error_set_nth {A : Type} (i : nat) (a : A) :
  forall l j, nth_error (set_nth i a l) j
              = if Nat.eqb i j then option_map (fun _ => a) (nth_error l j)
                else nth_error l j.
Proof.
  induction i as [| i IH]; intros [| x l] [| j]; cbn; try reflexivity;
    try (now destruct (Nat.eqb i j)); try (now destruct j); apply IH.
Qed.

Lemma held_set_nth (i : nat) (pc' : worker_pc) :
  forall ws pc, nth_error ws i = Some pc ->
    Permutation (held_by pc ++ held (set_nth i pc' ws)) (held_by pc' ++ held ws).
Proof.
  induction i as [| i IH]; intros [| x ws] pc H; cbn in H; try discriminate.
  - injection H as ->. unfold held. cbn [set_nth flat_map].
    apply Permutation_app_swap_app.
  - unfold held. cbn [set_nth flat_map]. fold (held ws).
    fold (held (set_nth i pc' ws)).
    rewrite Permutation_app_swap_app, (IH ws pc H).
    apply Permutation_app_swap_app.
Qed.

Lemma busy_set_nth (i : nat) (pc' : worker_pc) :
  forall ws pc, nth_error ws i = Some pc ->
    (busy_pc pc + busy (set_nth i pc' ws) = busy_pc pc' + busy ws)%nat.
Proof.
  unfold busy, list_sum.
  induction i as [| i IH]; intros [| x ws] pc H; cbn in H; try discriminate.
  - injection H as ->. cbn. lia.
  - specialize (IH ws pc H). cbn in *. lia.
Qed.

Lemma busy_nth (ws : list worker_pc) (i : nat) (pc : worker_pc) :
  nth_error ws i = Some pc -> (busy_pc pc <= busy ws)%nat.
Proof.
  unfold busy, list_sum. revert i.
  induction ws as [| x ws IH]; intros [| i] H; cbn in *; try discriminate.
  - injection H as ->. lia.
  - specialize (IH i H). lia.
Qed.

Lemma busy_zero_held (ws : list worker_pc) : busy ws = 0%nat -> held ws = [].
Proof.
  unfold busy, held, list_sum. induction ws as [| x ws IH]; cbn; [reflexivity |].
  destruct x; cbn; try discriminate; auto; intros H; try lia.
Qed.

Lemma perm_under {A : Type} (a : A) (x l r : list A) :
  Permutation l (a :: r) -> Permutation (x ++ l) (a :: x ++ r).
Proof. intros H. rewrite H. symmetry. apply Permutation_middle. Qed.

(** Solves [Permutation (.. ++ a :: ..) (.. ++ (a :: ..) ++ ..)] goals in
    which one element moved to the right over whole lists. *)
Ltac perm_move :=
  rewrite <- ?app_assoc; cbn [app];
  repeat apply Permutation_app_head;
  repeat apply perm_under; reflexivity.

Section Pool.
Variable cfg : config.

(** Every step leaves the servers where the inventory looks for them. *)
Lemma step_inventory (a : action) (s s' : pool) :
  step cfg a s = Some s' -> Permutation (inventory s') (inventory s).
Proof.
  destruct a as [i h n | | |]; cbn [step];
    [| | intros [= <-]; unfold inventory; cbn; reflexivity ..].
  - unfold worker_step.
    destruct (nth_error (workers s) i) as [pc |] eqn:Hpc; [| discriminate].
    pose proof (fun pc' => held_set_nth i pc' _ _ Hpc) as Hh.
    destruct pc; cbn [held_by app] in Hh.
    + intros [= <-]. unfold inventory; cbn. rewrite Hh.
      now destruct (stop_event s).
    + intros [= <-]. unfold inventory; cbn. rewrite Hh.
      now destruct (pause_event s).
    + destruct (server_queue s) as [| srv q] eqn:Hq.
      * destruct (_ <=? _); intros [= <-]; unfold inventory; cbn;
          now rewrite Hq, Hh.
      * intros [= <-]. unfold inventory; cbn. rewrite Hq, (Hh (WGot srv)).
        cbn [held_by]. perm_move.
    + destruct (stop_event s); intros [= <-]; unfold inventory; cbn.
      * rewrite <- (Hh WExited). cbn [held_by]. perm_move.
      * specialize (Hh (WProbe srv)). cbn [held_by app] in Hh.
        apply Permutation_cons_inv in Hh. now rewrite Hh.
    + destruct (get_server_latency_returns h srv (ping_count cfg) (timeout_sec cfg))
        as [lat ->].
      intros [= <-]. unfold inventory; cbn. rewrite map_app. cbn [map server].
      rewrite <- (Hh WCount). cbn [held_by]. perm_move.
    + intros [= <-]. unfold inventory; cbn. now rewrite Hh.
    + intros [= <-]. unfold inventory; cbn. now rewrite Hh.
    + discriminate.
  - unfold coordinator_step.
    destruct (coordinator s) eqn:Hc; try discriminate.
    + intros [= <-]. unfold inventory; cbn. rewrite Hc.
      now destruct (stop_event s).
    + intros [= <-]. unfold inventory; cbn. rewrite Hc.
      now destruct (Nat.eqb _ _).
    + intros [= <-]. unfold inventory; cbn. rewrite Hc.
      now destruct (pause_event s).
    + intros [= <-]. unfold inventory; cbn. rewrite Hc.
      now destruct (pause_event s), (stop_event s).
    + intros [= <-]. unfold inventory; cbn. rewrite Hc.
      now destruct (stop_event s).
    + intros [= <-]. unfold inventory; cbn. rewrite Hc.
      now destruct (server_queue s).
    + destruct (server_queue s) as [| srv q] eqn:Hq; intros [= <-];
        unfold inventory; cbn; rewrite Hc, Hq; [reflexivity |].
      cbn [collected map]. perm_move.
    + destruct (result_queue s) as [| r q] eqn:Hq; intros [= <-];
        unfold inventory; cbn; rewrite Hc, Hq; cbn [collected map app].
      * do 2 apply Permutation_app_head. apply Permutation_app_tail.
        apply Permutation_map. apply sort_by_key_perm.
      * rewrite map_app. cbn [map]. perm_move.
Qed.

Lemma step_accounted (servers : list dict) (a : action) (s s' : pool) :
  accounted cfg servers s -> step cfg a s = Some s' -> accounted cfg servers s'.
Proof.
  intros (Hinv & Hun & Hpr) Hstep. split; [| split].
  - rewrite (step_inventory a s s' Hstep). exact Hinv.
  - destruct a as [i h n | | |]; cbn [step] in Hstep;
      [| | injection Hstep as <-; exact Hun ..].
    + unfold worker_step in Hstep.
      destruct (nth_error (workers s) i) as [pc |] eqn:Hpc; [| discriminate].
      pose proof (fun pc' => busy_set_nth i pc' _ _ Hpc) as Hb.
      destruct pc; cbn [busy_pc] in Hb.
      * injection Hstep as <-. cbn. specialize (Hb (if stop_event s then WExited else WPauseCheck)).
        destruct (stop_event s); cbn in Hb; lia.
      * injection Hstep as <-. cbn. specialize (Hb (if pause_event s then WLoop else WGet)).
        destruct (pause_event s); cbn in Hb; lia.
      * destruct (server_queue s) as [| srv q] eqn:Hq.
        -- destruct (_ <=? _); injection Hstep as <-; cbn; rewrite Hq;
             [specialize (Hb WExited) | specialize (Hb WLoop)]; cbn in *; lia.
        -- injection Hstep as <-. cbn. specialize (Hb (WGot srv)). cbn in *. lia.
      * destruct (stop_event s); injection Hstep as <-; cbn;
          [specialize (Hb WExited) | specialize (Hb (WProbe srv))]; cbn in *; lia.
      * destruct (fst (get_server_latency h srv _ _)); injection Hstep as <-; cbn;
          [specialize (Hb WCount) | specialize (Hb WTaskDone)]; cbn in *; lia.
      * injection Hstep as <-. cbn. specialize (Hb WTaskDone). cbn in *. lia.
      * injection Hstep as <-. cbn. specialize (Hb WLoop). cbn in *. lia.
      * discriminate.
    + unfold coordinator_step in Hstep.
      destruct (coordinator s); try discriminate;
        try (injection Hstep as <-; exact Hun).
      * destruct (server_queue s) as [| srv q] eqn:Hq; injection Hstep as <-;
          cbn; rewrite ?Hq; cbn in *; lia.
      * destruct (result_queue s); injection Hstep as <-; exact Hun.
  - destruct a as [i h n | | |]; cbn [step] in Hstep;
      [| | injection Hstep as <-; exact Hpr ..].
    + unfold worker_step in Hstep.
      destruct (nth_error (workers s) i) as [[] |]; try discriminate;
        try (injection Hstep as <-; exact Hpr).
      * destruct (server_queue s); [destruct (_ <=? _) |];
          injection Hstep as <-; exact Hpr.
      * destruct (stop_event s); injection Hstep as <-; exact Hpr.
      * destruct (get_server_latency_returns h srv (ping_count cfg) (timeout_sec cfg))
          as [lat Hlat].
        rewrite Hlat in Hstep. injection Hstep as <-. cbn.
        rewrite <- app_assoc.
        apply Forall_app in Hpr as [H1 H2].
        apply Forall_app. split; [exact H1 |].
        apply Forall_app. split; [| exact H2].
        constructor; [| constructor]. now exists h.
    + unfold coordinator_step in Hstep.
      destruct (coordinator s) eqn:Hc; try discriminate.
      * destruct (stop_event s); injection Hstep as <-; cbn in *; exact Hpr.
      * destruct (Nat.eqb _ _); injection Hstep as <-; cbn in *; exact Hpr.
      * destruct (pause_event s); injection Hstep as <-; cbn in *; exact Hpr.
      * destruct (pause_event s && _); injection Hstep as <-; cbn in *; exact Hpr.
      * destruct (stop_event s); injection Hstep as <-; cbn in *; exact Hpr.
      * destruct (server_queue s); injection Hstep as <-; cbn in *; exact Hpr.
      * destruct (server_queue s); injection Hstep as <-; cbn in *; exact Hpr.
      * destruct (result_queue s) as [| r q] eqn:Hq; injection Hstep as <-;
          cbn in *; rewrite ?Hq; cbn [app].
        -- eapply Permutation_Forall; [| exact Hpr].
           symmetry. apply sort_by_key_perm.
        -- inversion Hpr as [| ? ? Hr Hrest]; subst.
           apply Forall_app in Hrest as [H1 H2].
           apply Forall_app. split; [exact H1 |].
           apply Forall_app. split; [exact H2 | now constructor].
Qed.

Lemma step_undisturbed (servers : list dict) (a : action) (s s' : pool) :
  accounted cfg servers s -> undisturbed s -> a <> SetStop ->
  step cfg a s = Some s' -> undisturbed s'.
Proof.
  intros (_ & Hun & _) (Hstop & Hdr & Hdn & Hco) Hna Hstep.
  assert (Hkeep : forall s1 pc,
            stop_event s1 = stop_event s -> dropped s1 = dropped s ->
            drained s1 = drained s -> coordinator s1 = coordinator s ->
            (unfinished_tasks s1 <= unfinished_tasks s)%nat ->
            (busy_pc pc <= busy (workers s))%nat ->
            result_queue s1 = result_queue s \/ busy_pc pc = 1%nat ->
            undisturbed s1).
  { intros s1 pc E1 E2 E3 E4 E5 Hb E6. unfold undisturbed.
    rewrite E1, E2, E3, E4. repeat split; auto.
    destruct (coordinator s); auto; try lia.
    destruct Hco as [Hu Hr]. split; [lia |].
    destruct E6 as [-> | E6]; [exact Hr | lia]. }
  destruct a as [i h n | | | b]; cbn [step] in Hstep; [| | congruence |].
  - unfold worker_step in Hstep.
    destruct (nth_error (workers s) i) as [pc |] eqn:Hpc; [| discriminate].
    pose proof (busy_nth _ _ _ Hpc) as Hb.
    rewrite ?Hstop in Hstep.
    destruct pc;
      repeat match type of Hstep with
        | context [if ?c then _ else _] => destruct c
        | context [match ?x with _ => _ end] => destruct x
        end;
      try discriminate;
      injection Hstep as <-;
      (eapply Hkeep; [.. | exact Hb |]); cbn;
      first [reflexivity | lia | now left | now right].
  - unfold coordinator_step in Hstep. unfold undisturbed.
    destruct (coordinator s) eqn:Hc; try contradiction; try discriminate;
      rewrite ?Hstop in Hstep.
    + injection Hstep as <-. cbn. auto.
    + destruct (Nat.eqb (unfinished_tasks s) 0) eqn:E; injection Hstep as <-;
        cbn; repeat split; auto. now apply Nat.eqb_eq.
    + destruct (pause_event s); injection Hstep as <-; cbn; auto.
    + destruct (pause_event s); injection Hstep as <-; cbn; auto.
    + injection Hstep as <-. cbn. auto.
    + destruct (result_queue s) eqn:Hq; injection Hstep as <-; cbn; auto.
  - injection Hstep as <-. unfold undisturbed. cbn. auto.
Qed.

Lemma run_app (t1 t2 : list action) (s : pool) :
  run cfg (t1 ++ t2) s
  = match run cfg t1 s with Some s1 => run cfg t2 s1 | None => None end.
Proof.
  revert s. induction t1 as [| a t1 IH]; intros s; cbn [app run]; [reflexivity |].
  destruct (step cfg a s); [apply IH | reflexivity].
Qed.

Lemma run_accounted (servers : list dict) (trace : list action) :
  forall s s', accounted cfg servers s -> run cfg trace s = Some s' ->
               accounted cfg servers s'.
Proof.
  induction trace as [| a trace IH]; intros s s' Hs; cbn [run].
  - now intros [= <-].
  - destruct (step cfg a s) as [s1 |] eqn:E; [| discriminate].
    apply IH. eapply step_accounted; eauto.
Qed.

Lemma run_undisturbed (servers : list dict) (trace : list action) :
  never_stops trace ->
  forall s s', accounted cfg servers s -> undisturbed s ->
               run cfg trace s = Some s' -> undisturbed s'.
Proof.
  unfold never_stops.
  induction trace as [| a trace IH]; intros Hns s s' Hs Hu; cbn [run].
  - now intros [= <-].
  - destruct (step cfg a s) as [s1 |] eqn:E; [| discriminate].
    apply IH.
    + intros Hin. apply Hns. now right.
    + eapply step_accounted; eauto.
    + eapply step_undisturbed; eauto. intros ->. apply Hns. now left.
Qed.

Lemma held_repeat_WLoop (k : nat) : held (repeat WLoop k) = [].
Proof. unfold held. induction k as [| k IH]; cbn; auto. Qed.

Lemma busy_repeat_WLoop (k : nat) : busy (repeat WLoop k) = 0%nat.
Proof. unfold busy, list_sum. induction k as [| k IH]; cbn; auto. Qed.

Lemma start_accounted (servers : list dict) (stop pause : bool) :
  accounted cfg servers (start cfg servers stop pause).
Proof.
  unfold accounted, inventory, start; cbn.
  destruct servers as [| srv servers]; cbn [collected map app].
  - repeat split; auto.
  - rewrite held_repeat_WLoop, busy_repeat_WLoop. cbn [app].
    rewrite app_nil_r. repeat split; auto.
Qed.

Lemma start_undisturbed (servers : list dict) (pause : bool) :
  undisturbed (start cfg servers false pause).
Proof.
  unfold undisturbed, start; cbn. destruct servers; cbn; auto.
Qed.

(** Without a stop, what the coordinator returns is one result per
    server. *)
Lemma returned_all (servers : list dict) (s : pool) (results : list probe_result) :
  accounted cfg servers s -> undisturbed s -> returned s = Some results ->
  Permutation (map server results) servers
  /\ List.length results = List.length servers
  /\ Forall (probed cfg) results.
Proof.
  intros (Hinv & Hun & Hpr) (_ & Hdr & Hdn & Hco). unfold returned.
  destruct (coordinator s) eqn:Hc; try discriminate. intros [= ->].
  destruct Hco as [Hu Hrq]. rewrite Hu in Hun.
  assert (Hq : server_queue s = [])
    by (destruct (server_queue s); [reflexivity | cbn in Hun; lia]).
  assert (Hh : held (workers s) = []) by (apply busy_zero_held; lia).
  unfold inventory in Hinv.
  rewrite Hq, Hh, Hrq, Hdr, Hdn, Hc in Hinv. cbn in Hinv.
  rewrite app_nil_r in Hinv. rewrite Hrq in Hpr. cbn in Hpr.
  split; [exact Hinv |]. split; [| exact Hpr].
  rewrite <- (Permutation_length Hinv). now rewrite length_map.
Qed.

(** What the coordinator returns went through [sort_results]. *)
Lemma step_returned_sorted (a : action) (s s' : pool) :
  (forall out, returned s = Some out -> exists l, out = sort_results l) ->
  step cfg a s = Some s' ->
  forall out, returned s' = Some out -> exists l, out = sort_results l.
Proof.
  intros Hs Hstep out. unfold returned in *.
  destruct a as [i h n | | |]; cbn [step] in Hstep.
  - unfold worker_step in Hstep.
    destruct (nth_error (workers s) i) as [pc |]; [| discriminate].
    destruct pc;
      repeat match type of Hstep with
        | context [if ?c then _ else _] => destruct c
        | context [match ?x with _ => _ end] => destruct x
        end;
      try discriminate; injection Hstep as <-; cbn; apply Hs.
  - unfold coordinator_step in Hstep.
    destruct (coordinator s) eqn:Hc; try discriminate;
      repeat match type of Hstep with
        | context [if ?c then _ else _] => destruct c
        | context [match ?x with _ => _ end] => destruct x
        end;
      injection Hstep as <-; cbn; try discriminate.
    intros [= <-]. eauto.
  - injection Hstep as <-. cbn. apply Hs.
  - injection Hstep as <-. cbn. apply Hs.
Qed.

Lemma run_returned_sorted (servers : list dict) (stop pause : bool)
      (trace : list action) (s : pool) (out : list probe_result) :
  run cfg trace (start cfg servers stop pause) = Some s ->
  returned s = Some out -> exists l, out = sort_results l.
Proof.
  assert (H : forall trace s0 s1,
            (forall out, returned s0 = Some out -> exists l, out = sort_results l) ->
            run cfg trace s0 = Some s1 ->
            forall out, returned s1 = Some out -> exists l, out = sort_results l).
  { clear. induction trace as [| a trace IH]; intros s0 s1 H0; cbn [run].
    - now intros [= <-].
    - destruct (step cfg a s0) as [s2 |] eqn:E; [| discriminate].
      apply IH. eapply step_returned_sorted; eauto. }
  intros Hrun. apply (H trace (start cfg servers stop pause) s); [| exact Hrun].
  intros out0. unfold returned, start; cbn.
  destruct servers; [| discriminate]. intros [= <-]. now exists [].
Qed.

(** A worker leaves its loop on the stop event, and on an empty queue when
    [threading.active_count() <= max_workers + 1]; not otherwise. *)
Lemma worker_exit_condition (i : nat) (h : host) (n : nat) (s s' : pool)
      (pc : worker_pc) :
  nth_error (workers s) i = Some pc ->
  worker_step cfg i h n s = Some s' ->
  (nth_error (workers s') i = Some WExited
   <-> (pc = WLoop /\ stop_event s = true)
       \/ ((exists srv, pc = WGot srv) /\ stop_event s = true)
       \/ (pc = WGet /\ server_queue s = []
           /\ Z.of_nat n <= max_workers cfg + 1)).
Proof.
  intros Hpc Hstep. unfold worker_step in Hstep. rewrite Hpc in Hstep.
  assert (Hset : forall pc' s0, workers s0 = workers s ->
            nth_error (workers (set_worker i pc' s0)) i = Some pc').
  { intros pc' s0 E. cbn. rewrite E, nth_error_set_nth, Nat.eqb_refl, Hpc.
    reflexivity. }
  destruct pc;
    repeat match type of Hstep with
      | context [if ?c then _ else _] => destruct c eqn:?
      | context [match ?x with _ => _ end] => destruct x eqn:?
      end;
    try discriminate; injection Hstep as <-;
    rewrite Hset by reflexivity;
    (split; [intros ? | intros [[? ?] | [[[? ?] ?] | (? & ? & ?)]]]);
    try discriminate; try congruence; try reflexivity;
    try (left; now split);
    try (right; left; split; [eauto | reflexivity]);
    try (right; right; repeat split; auto; now apply Z.leb_le);
    try (apply Z.leb_gt in Heqb; lia).
Qed.

Lemma never_stops_app (t1 t2 : list action) :
  never_stops t1 -> never_stops t2 -> never_stops (t1 ++ t2).
Proof.
  unfold never_stops. intros H1 H2 Hin. apply in_app_or in Hin. tauto.
Qed.

Lemma collect_all (rq : list probe_result) :
  forall acc s,
    coordinator s = CCollect acc -> result_queue s = rq ->
    exists s', run cfg (repeat Coordinator (S (List.length rq))) s = Some s'
      /\ coordinator s' = CReturned (sort_results (acc ++ rq)).
Proof.
  induction rq as [| r rq IH]; intros acc s Hc Hq.
  - cbn. unfold coordinator_step. rewrite Hc, Hq. eexists. split; [reflexivity |].
    cbn. now rewrite app_nil_r.
  - cbn [List.length repeat run step]. unfold coordinator_step at 1.
    rewrite Hc, Hq.
    destruct (IH (acc ++ [r])%list
                (set_coordinator (CCollect (acc ++ [r])) (set_result_queue rq s))
                eq_refl eq_refl) as (s' & Hrun & Hc').
    exists s'. split; [exact Hrun |]. now rewrite Hc', <- app_assoc.
Qed.

End Pool.

(** ** The worker pool: a run can always be brought to its end *)

Lemma Forall_set_nth {A : Type} (P : A -> Prop) (i : nat) (a : A) :
  forall l, Forall P l -> P a -> Forall P (set_nth i a l).
Proof.
  induction i as [| i IH]; intros [| x l] Hl Ha; cbn; auto;
    inversion Hl; subst; constructor; auto.
Qed.

Lemma set_nth_not_nil {A : Type} (i : nat) (a : A) (l : list A) :
  l <> [] -> set_nth i a l <> [].
Proof. destruct l, i; cbn; congruence. Qed.

Lemma busy_pos_exists (ws : list worker_pc) :
  (0 < busy ws)%nat -> exists i pc, nth_error ws i = Some pc /\ busy_pc pc = 1%nat.
Proof.
  unfold busy, list_sum. induction ws as [| x ws IH]; cbn; [lia |].
  intros H. destruct (busy_pc x) eqn:E.
  - destruct (IH H) as (i & pc & Hi & Hpc). exists (S i), pc. auto.
  - exists 0%nat, x. split; [reflexivity |]. destruct x; cbn in *; lia.
Qed.

Section Progress.
Variable cfg : config.
Variable servers : list dict.
Variable h : host.

Lemma step_thread_action (a : action) (s s' : pool) :
  thread_action a -> step cfg a s = Some s' ->
  stop_event s' = stop_event s /\ pause_event s' = pause_event s.
Proof.
  destruct a as [i hh n | | |]; cbn [thread_action step]; try contradiction;
    intros _ Hstep.
  - unfold worker_step in Hstep.
    destruct (nth_error (workers s) i) as [pc |]; [| discriminate].
    destruct pc;
      repeat match type of Hstep with
        | context [if ?c then _ else _] => destruct c eqn:?
        | context [match ?x with _ => _ end] => destruct x eqn:?
        end;
      try discriminate; injection Hstep as <-; cbn; auto.
  - unfold coordinator_step in Hstep.
    destruct (coordinator s);
      repeat match type of Hstep with
        | context [if ?c then _ else _] => destruct c eqn:?
        | context [match ?x with _ => _ end] => destruct x eqn:?
        end;
      try discriminate; injection Hstep as <-; cbn; auto.
Qed.

Lemma stretch_nil (s : pool) : stretch cfg s [] s.
Proof. split; [constructor | reflexivity]. Qed.

Lemma stretch_cons (a : action) (s s1 s2 : pool) (t : list action) :
  thread_action a -> step cfg a s = Some s1 ->
  stretch cfg s1 t s2 -> stretch cfg s (a :: t) s2.
Proof.
  intros Ha Hstep [Hq Hrun]. split; [now constructor |].
  cbn [run]. now rewrite Hstep.
Qed.

Lemma stretch_app (s s1 s2 : pool) (t1 t2 : list action) :
  stretch cfg s t1 s1 -> stretch cfg s1 t2 s2 -> stretch cfg s (t1 ++ t2) s2.
Proof.
  intros [Hq1 Hr1] [Hq2 Hr2]. split; [now apply Forall_app |].
  now rewrite run_app, Hr1.
Qed.

Lemma stretch_events (t : list action) :
  forall s s', stretch cfg s t s' ->
    stop_event s' = stop_event s /\ pause_event s' = pause_event s.
Proof.
  induction t as [| a t IH]; intros s s' [Hq Hrun]; cbn [run] in Hrun.
  - injection Hrun as <-. auto.
  - inversion Hq as [| ? ? Ha Ht]; subst.
    destruct (step cfg a s) as [s1 |] eqn:E; [| discriminate].
    destruct (step_thread_action a s s1 Ha E) as [H1 H2].
    destruct (IH s1 s' (conj Ht Hrun)) as [H3 H4]. split; congruence.
Qed.

Lemma stretch_never_stops (s s' : pool) (t : list action) :
  stretch cfg s t s' -> never_stops t.
Proof.
  intros [Hq _] Hin. rewrite Forall_forall in Hq. exact (Hq _ Hin).
Qed.

Lemma step_staffed (a : action) (s s' : pool) :
  undisturbed s -> staffed s -> a <> SetStop ->
  step cfg a s = Some s' -> staffed s'.
Proof.
  intros (Hstop & _ & _ & Hco) Hst Hna Hstep.
  assert (Hkeep : forall s1 i pc',
            (server_queue s1 <> [] -> server_queue s <> []) ->
            workers s1 = set_nth i pc' (workers s) ->
            pc' <> WExited \/ server_queue s1 = [] ->
            staffed s1).
  { intros s1 i pc' Hq Hw Hpc Hne. destruct (Hst (Hq Hne)) as [Hw1 Hall].
    rewrite Hw. split; [now apply set_nth_not_nil |].
    apply Forall_set_nth; [exact Hall |]. destruct Hpc; congruence. }
  destruct a as [i hh n | | | b]; cbn [step] in Hstep; [| | congruence |].
  - unfold worker_step in Hstep.
    destruct (nth_error (workers s) i) as [pc |] eqn:Hpc; [| discriminate].
    rewrite ?Hstop in Hstep.
    destruct pc;
      repeat match type of Hstep with
        | context [if ?c then _ else _] => destruct c
        | context [match ?x with _ => _ end] => destruct x eqn:?
        end;
      try discriminate; injection Hstep as <-;
      (eapply Hkeep; [| cbn; reflexivity |]); cbn;
      first [ now (intros; congruence)
            | now (left; discriminate)
            | now right
            | idtac ].
    all: try (intros _; congruence).
  - unfold coordinator_step in Hstep.
    destruct (coordinator s) eqn:Hc; try contradiction; try discriminate;
      repeat match type of Hstep with
        | context [if ?c then _ else _] => destruct c
        | context [match ?x with _ => _ end] => destruct x eqn:?
        end;
      injection Hstep as <-; exact Hst.
  - injection Hstep as <-. exact Hst.
Qed.

Lemma start_staffed (stop pause : bool) :
  1 <= max_workers cfg -> staffed (start cfg servers stop pause).
Proof.
  intros Hmax. unfold staffed, start; cbn. destruct servers as [| srv l];
    [congruence |]. intros _.
  destruct (Z.to_nat _) eqn:E; [cbn [List.length] in E; lia |].
  split; [discriminate |]. apply Forall_forall. intros pc Hin.
  apply repeat_spec in Hin. subst. discriminate.
Qed.

Lemma start_ready (pause : bool) :
  1 <= max_workers cfg -> ready cfg servers (start cfg servers false pause).
Proof.
  intros Hmax. split; [apply start_accounted |].
  split; [apply start_undisturbed | now apply start_staffed].
Qed.

Lemma run_ready (t : list action) :
  never_stops t ->
  forall s s', ready cfg servers s -> run cfg t s = Some s' -> ready cfg servers s'.
Proof.
  unfold never_stops.
  induction t as [| a t IH]; intros Hns s s' Hs; cbn [run].
  - now intros [= <-].
  - destruct (step cfg a s) as [s1 |] eqn:E; [| discriminate].
    destruct Hs as (Ha & Hu & Hst).
    assert (Hna : a <> SetStop) by (intros ->; apply Hns; now left).
    apply IH; [intros Hin; apply Hns; now right |].
    split; [eapply step_accounted; eauto |].
    split; [eapply step_undisturbed; eauto | eapply step_staffed; eauto].
Qed.

(** *** Workers finish what they hold *)

Lemma nth_error_set_worker (i : nat) (pc pc' : worker_pc) (s : pool) :
  nth_error (workers s) i = Some pc ->
  nth_error (set_nth i pc' (workers s)) i = Some pc'.
Proof.
  intros Hpc. now rewrite nth_error_set_nth, Nat.eqb_refl, Hpc.
Qed.

Lemma settle_task_done (i : nat) (s : pool) :
  nth_error (workers s) i = Some WTaskDone -> settles cfg s.
Proof.
  intros Hpc. exists [Worker i h 0], (set_worker i WLoop (task_done s)).
  split; [| split; [| reflexivity]].
  - eapply stretch_cons; [exact I | | apply stretch_nil].
    cbn [step]. unfold worker_step. now rewrite Hpc.
  - cbn. pose proof (busy_set_nth i WLoop _ _ Hpc) as Hb. cbn in Hb. lia.
Qed.

Lemma settle_count (i : nat) (s : pool) :
  nth_error (workers s) i = Some WCount -> settles cfg s.
Proof.
  intros Hpc. set (s1 := set_worker i WTaskDone (incr_completed s)).
  destruct (settle_task_done i s1) as (t & s' & Hst & Hb & Hq).
  { cbn. eapply nth_error_set_worker; eauto. }
  exists (Worker i h 0 :: t), s'. split; [| split].
  - eapply stretch_cons; [exact I | | exact Hst].
    cbn [step]. unfold worker_step. now rewrite Hpc.
  - rewrite Hb. cbn. pose proof (busy_set_nth i WTaskDone _ _ Hpc) as Hb1.
    cbn in Hb1. lia.
  - exact Hq.
Qed.

Lemma settle_probe (i : nat) (srv : dict) (s : pool) :
  nth_error (workers s) i = Some (WProbe srv) -> settles cfg s.
Proof.
  intros Hpc.
  destruct (get_server_latency_returns h srv (ping_count cfg) (timeout_sec cfg))
    as [lat Hlat].
  set (s1 := set_worker i WCount
               (set_result_queue
                  (result_queue s ++ [{| server := srv; latency := lat |}]) s)).
  destruct (settle_count i s1) as (t & s' & Hst & Hb & Hq).
  { cbn. eapply nth_error_set_worker; eauto. }
  exists (Worker i h 0 :: t), s'. split; [| split].
  - eapply stretch_cons; [exact I | | exact Hst].
    cbn [step]. unfold worker_step. now rewrite Hpc, Hlat.
  - rewrite Hb. cbn. pose proof (busy_set_nth i WCount _ _ Hpc) as Hb1.
    cbn in Hb1. lia.
  - exact Hq.
Qed.

Lemma settle_got (i : nat) (srv : dict) (s : pool) :
  stop_event s = false ->
  nth_error (workers s) i = Some (WGot srv) -> settles cfg s.
Proof.
  intros Hstop Hpc. set (s1 := set_worker i (WProbe srv) s).
  destruct (settle_probe i srv s1) as (t & s' & Hst & Hb & Hq).
  { cbn. eapply nth_error_set_worker; eauto. }
  exists (Worker i h 0 :: t), s'. split; [| split].
  - eapply stretch_cons; [exact I | | exact Hst].
    cbn [step]. unfold worker_step. now rewrite Hpc, Hstop.
  - rewrite Hb. cbn. pose proof (busy_set_nth i (WProbe srv) _ _ Hpc) as Hb1.
    cbn in Hb1. lia.
  - exact Hq.
Qed.

Lemma settle_all (n : nat) :
  forall s, busy (workers s) = n -> stop_event s = false ->
    exists t s', stretch cfg s t s' /\ busy (workers s') = 0%nat
                 /\ server_queue s' = server_queue s.
Proof.
  induction n as [| n IH]; intros s Hn Hstop.
  - exists [], s. split; [apply stretch_nil | auto].
  - destruct (busy_pos_exists (workers s)) as (i & pc & Hpc & Hb); [lia |].
    assert (Hone : settles cfg s).
    { destruct pc; cbn in Hb; try discriminate.
      - eapply settle_got; eauto.
      - eapply settle_probe; eauto.
      - eapply settle_count; eauto.
      - eapply settle_task_done; eauto. }
    destruct Hone as (t1 & s1 & Hst1 & Hb1 & Hq1).
    destruct (stretch_events _ _ _ Hst1) as [Hs1 _].
    destruct (IH s1) as (t2 & s2 & Hst2 & Hb2 & Hq2); [lia | congruence |].
    exists (t1 ++ t2)%list, s2. split; [eapply stretch_app; eauto |].
    split; [exact Hb2 | congruence].
Qed.

(** *** The queue gets served *)

Lemma serve_from_get (i : nat) (srv : dict) (q : list dict) (s : pool) :
  stop_event s = false -> busy (workers s) = 0%nat ->
  server_queue s = srv :: q ->
  nth_error (workers s) i = Some WGet ->
  exists t s', stretch cfg s t s' /\ busy (workers s') = 0%nat
               /\ server_queue s' = q.
Proof.
  intros Hstop Hb Hq Hpc.
  set (s1 := set_worker i (WGot srv) (set_server_queue q s)).
  destruct (settle_got i srv s1) as (t & s' & Hst & Hb' & Hq').
  { exact Hstop. }
  { cbn. eapply nth_error_set_worker; eauto. }
  exists (Worker i h 0 :: t), s'. split; [| split].
  - eapply stretch_cons; [exact I | | exact Hst].
    cbn [step]. unfold worker_step. now rewrite Hpc, Hq.
  - pose proof (busy_set_nth i (WGot srv) _ _ Hpc) as Hb1.
    cbn in Hb1, Hb'. lia.
  - exact Hq'.
Qed.

Lemma serve_from_pause_check (i : nat) (srv : dict) (q : list dict) (s : pool) :
  stop_event s = false -> pause_event s = false -> busy (workers s) = 0%nat ->
  server_queue s = srv :: q ->
  nth_error (workers s) i = Some WPauseCheck ->
  exists t s', stretch cfg s t s' /\ busy (workers s') = 0%nat
               /\ server_queue s' = q.
Proof.
  intros Hstop Hpause Hb Hq Hpc. set (s1 := set_worker i WGet s).
  destruct (serve_from_get i srv q s1) as (t & s' & Hst & Hb' & Hq'); auto.
  { cbn. pose proof (busy_set_nth i WGet _ _ Hpc) as Hb1. cbn in Hb1. lia. }
  { cbn. eapply nth_error_set_worker; eauto. }
  exists (Worker i h 0 :: t), s'. split; [| auto].
  eapply stretch_cons; [exact I | | exact Hst].
  cbn [step]. unfold worker_step. now rewrite Hpc, Hpause.
Qed.

Lemma serve_from_loop (i : nat) (srv : dict) (q : list dict) (s : pool) :
  stop_event s = false -> pause_event s = false -> busy (workers s) = 0%nat ->
  server_queue s = srv :: q ->
  nth_error (workers s) i = Some WLoop ->
  exists t s', stretch cfg s t s' /\ busy (workers s') = 0%nat
               /\ server_queue s' = q.
Proof.
  intros Hstop Hpause Hb Hq Hpc. set (s1 := set_worker i WPauseCheck s).
  destruct (serve_from_pause_check i srv q s1) as (t & s' & Hst & Hb' & Hq'); auto.
  { cbn. pose proof (busy_set_nth i WPauseCheck _ _ Hpc) as Hb1. cbn in Hb1. lia. }
  { cbn. eapply nth_error_set_worker; eauto. }
  exists (Worker i h 0 :: t), s'. split; [| auto].
  eapply stretch_cons; [exact I | | exact Hst].
  cbn [step]. unfold worker_step. now rewrite Hpc, Hstop.
Qed.

Lemma serve_head (srv : dict) (q : list dict) (s : pool) :
  stop_event s = false -> pause_event s = false -> busy (workers s) = 0%nat ->
  server_queue s = srv :: q -> staffed s ->
  exists t s', stretch cfg s t s' /\ busy (workers s') = 0%nat
               /\ server_queue s' = q.
Proof.
  intros Hstop Hpause Hb Hq Hst.
  destruct Hst as [Hne Hall]; [rewrite Hq; discriminate |].
  destruct (workers s) as [| pc ws] eqn:Hw; [congruence |].
  inversion Hall as [| ? ? Hpc _]; subst.
  assert (Hn : nth_error (workers s) 0 = Some pc) by (now rewrite Hw).
  pose proof (busy_nth _ _ _ Hn) as Hbp. rewrite <- Hw in Hb.
  destruct pc; cbn in Hbp; try lia; try congruence.
  - eapply serve_from_loop; eauto.
  - eapply serve_from_pause_check; eauto.
  - eapply serve_from_get; eauto.
Qed.

Lemma drain_all (q : list dict) :
  forall s, server_queue s = q -> ready cfg servers s ->
    pause_event s = false -> busy (workers s) = 0%nat ->
    exists t s', stretch cfg s t s' /\ busy (workers s') = 0%nat
                 /\ server_queue s' = [].
Proof.
  induction q as [| srv q IH]; intros s Hq Hr Hpause Hb.
  - exists [], s. split; [apply stretch_nil | auto].
  - assert (Hstop : stop_event s = false) by (destruct Hr as (_ & (H & _) & _); exact H).
    destruct Hr as (Ha & Hu & Hst).
    destruct (serve_head srv q s Hstop Hpause Hb Hq Hst) as (t1 & s1 & Hst1 & Hb1 & Hq1).
    destruct (stretch_events _ _ _ Hst1) as [_ Hp1].
    assert (Hr1 : ready cfg servers s1).
    { eapply run_ready; [eapply stretch_never_stops; eauto | | apply Hst1].
      exact (conj Ha (conj Hu Hst)). }
    destruct (IH s1 Hq1 Hr1) as (t2 & s2 & Hst2 & Hb2 & Hq2); [congruence | exact Hb1 |].
    exists (t1 ++ t2)%list, s2. split; [eapply stretch_app; eauto | auto].
Qed.

(** *** The coordinator returns *)

Lemma finish_collect (acc : list probe_result) (s : pool) :
  coordinator s = CCollect acc -> finishes cfg s.
Proof.
  intros Hc. destruct (collect_all cfg (result_queue s) acc s Hc eq_refl)
    as (s' & Hrun & Hc').
  exists (repeat Coordinator (S (List.length (result_queue s)))), s',
    (sort_results (acc ++ result_queue s)).
  split; [split; [| exact Hrun] |].
  - apply Forall_forall. intros a Hin. apply repeat_spec in Hin. now subst.
  - unfold returned. now rewrite Hc'.
Qed.

Lemma finish_step (s s1 : pool) :
  coordinator_step s = Some s1 -> finishes cfg s1 -> finishes cfg s.
Proof.
  intros Hstep (t & s' & results & Hst & Hret).
  exists (Coordinator :: t), s', results. split; [| exact Hret].
  eapply stretch_cons; [exact I | exact Hstep | exact Hst].
Qed.

Lemma finish_after (s : pool) :
  stop_event s = false -> coordinator s = CAfter -> finishes cfg s.
Proof.
  intros Hstop Hc. eapply finish_step.
  - unfold coordinator_step. rewrite Hc, Hstop. reflexivity.
  - eapply finish_collect. reflexivity.
Qed.

Lemma finish_check (s : pool) :
  stop_event s = false -> unfinished_tasks s = 0%nat ->
  coordinator s = CCheck -> finishes cfg s.
Proof.
  intros Hstop Hu Hc. eapply finish_step.
  - unfold coordinator_step. rewrite Hc, Hu. reflexivity.
  - now apply finish_after.
Qed.

Lemma finish_loop (s : pool) :
  stop_event s = false -> unfinished_tasks s = 0%nat ->
  coordinator s = CLoop -> finishes cfg s.
Proof.
  intros Hstop Hu Hc. eapply finish_step.
  - unfold coordinator_step. rewrite Hc, Hstop. reflexivity.
  - now apply finish_check.
Qed.

Lemma finish_coordinator (s : pool) :
  undisturbed s -> pause_event s = false -> unfinished_tasks s = 0%nat ->
  finishes cfg s.
Proof.
  intros (Hstop & _ & _ & Hco) Hpause Hu.
  destruct (coordinator s) eqn:Hc; try contradiction.
  - now apply finish_loop.
  - now apply finish_check.
  - eapply finish_step;
      [unfold coordinator_step; rewrite Hc, Hpause; reflexivity |].
    now apply finish_loop.
  - eapply finish_step;
      [unfold coordinator_step; rewrite Hc, Hpause; reflexivity |].
    now apply finish_loop.
  - now apply finish_after.
  - eapply finish_collect; eauto.
  - exists [], s, results. split; [apply stretch_nil |].
    unfold returned. now rewrite Hc.
Qed.

(** Whatever has happened in a run in which the stop event was not set, the
    run can go on to the coordinator's return: the caller clears the pause
    event, the workers finish what they hold and serve the queue, and the
    coordinator collects. *)
Lemma can_finish (s : pool) :
  ready cfg servers s ->
  exists t s' results,
    never_stops t /\ run cfg t s = Some s' /\ returned s' = Some results.
Proof.
  intros Hr.
  set (s0 := set_events (stop_event s) false s).
  assert (Hstep0 : run cfg [SetPause false] s = Some s0) by reflexivity.
  assert (Hns0 : never_stops [SetPause false])
    by (intros [H | []]; discriminate).
  pose proof (run_ready _ Hns0 _ _ Hr Hstep0) as Hr0.
  assert (Hstop0 : stop_event s0 = false)
    by (destruct Hr0 as (_ & (H & _) & _); exact H).
  destruct (settle_all _ s0 eq_refl Hstop0) as (t1 & s1 & Hst1 & Hb1 & Hq1).
  destruct (stretch_events _ _ _ Hst1) as [Hs1 Hp1].
  pose proof (run_ready _ (stretch_never_stops _ _ _ Hst1) _ _ Hr0 (proj2 Hst1))
    as Hr1.
  destruct (drain_all _ s1 eq_refl Hr1) as (t2 & s2 & Hst2 & Hb2 & Hq2);
    [now rewrite Hp1 | exact Hb1 |].
  destruct (stretch_events _ _ _ Hst2) as [Hs2 Hp2].
  pose proof (run_ready _ (stretch_never_stops _ _ _ Hst2) _ _ Hr1 (proj2 Hst2))
    as Hr2.
  destruct Hr2 as ((_ & Hun & _) & Hu2 & _).
  destruct (finish_coordinator s2 Hu2) as (t3 & s3 & results & Hst3 & Hret).
  { rewrite Hp2, Hp1. reflexivity. }
  { rewrite Hun, Hq2, Hb2. reflexivity. }
  exists ([SetPause false] ++ t1 ++ t2 ++ t3)%list, s3, results.
  split; [| split; [| exact Hret]].
  - repeat apply never_stops_app; auto; eapply stretch_never_stops; eauto.
  - rewrite run_app, Hstep0, run_app, (proj2 Hst1), run_app, (proj2 Hst2).
    exact (proj2 Hst3).
Qed.

End Progress.

(** ** The returned list *)

Lemma comparable_ordered (r : probe_result) :
  comparable r -> ordered latency_key r.
Proof.
  unfold comparable, ordered, latency_key. intros H.
  destruct (latency r) as [x |]; [| reflexivity].
  specialize (H x eq_refl). rewrite eqb_spec in H. rewrite leb_spec.
  change (Prim2SF infinity) with (S754_infinity false).
  destruct (Prim2SF x) as [[] | [] | | [] m e]; try reflexivity. discriminate.
Qed.

Lemma measured_comparable (r : probe_result) : measured r -> comparable r.
Proof.
  unfold measured, comparable. intros H x Hx. specialize (H x Hx).
  rewrite ltb_spec in H. rewrite eqb_spec.
  change (Prim2SF infinity) with (S754_infinity false) in H.
  destruct (Prim2SF x) as [[] | [] | | [] m e]; try reflexivity; try discriminate.
  - unfold SFeqb. cbn. now rewrite Z.compare_refl, Pos.compare_cont_refl.
  - unfold SFeqb. cbn. now rewrite Z.compare_refl, Pos.compare_cont_refl.
Qed.

(** Claim C4 as the code has it.  In every run the list [test_servers]
    returns is a rearrangement of the results it collected, and when no
    latency among them is a NaN it is these results put through
    [sort_results].  When no latency is a NaN the sorted list is ascending in
    latency, a missing latency counting as [+inf].  When moreover every
    measured latency is below [+inf], every result whose latency is [None]
    comes after all results that have a numeric latency: nothing that follows
    a [None] result has a number. *)
Theorem sort_results_ascending :
  (forall cfg servers stop pause trace s out,
     run cfg trace (start cfg servers stop pause) = Some s ->
     returned s = Some out ->
     exists results,
       Permutation out results
       /\ (Forall comparable results -> out = sort_results results))
  /\ (forall results,
        Forall comparable results ->
        StronglySorted
          (fun a b => (latency_key a <=? latency_key b)%float = true)
          (sort_results results))
  /\ (forall results,
        Forall measured results ->
        forall l1 a l2 b l3,
          sort_results results = (l1 ++ a :: l2 ++ b :: l3)%list ->
          latency a = None -> latency b = None).
Proof.
  split; [| split].
  - intros cfg servers stop pause trace s out Hrun Hret.
    destruct (run_returned_sorted _ _ _ _ _ _ _ Hrun Hret) as [results ->].
    exists results. split; [apply sort_by_key_perm | reflexivity].
  - intros results Hc. apply sort_by_key_sorted.
    eapply Forall_impl; [apply comparable_ordered | exact Hc].
  - intros results Hm l1 a l2 b l3 E Ha.
    assert (Ho : Forall (ordered latency_key) results)
      by (eapply Forall_impl; [apply measured_ordered | exact Hm]).
    pose proof (sort_by_key_sorted latency_key results Ho) as Hs.
    unfold sort_results in E. rewrite E in Hs.
    apply sorted_pair in Hs. unfold key_le, latency_key in Hs. rewrite Ha in Hs.
    destruct (latency b) as [x |] eqn:Hb; [| reflexivity].
    apply infinity_leb in Hs.
    assert (Hin : In b results).
    { eapply Permutation_in; [apply (sort_by_key_perm latency_key) |].
      rewrite E. apply in_or_app. right. right.
      apply in_or_app. right. now left. }
    rewrite Forall_forall in Hm. specialize (Hm b Hin x Hb). congruence.
Qed.

Lemma sort_results_ascending_witness :
  Forall measured sample_results
  /\ sort_results sample_results
     = [ {| server := [("hostname", VStr "c")]; latency := Some 5%float |};
         {| server := [("hostname", VStr "b")]; latency := Some 23.4%float |};
         {| server := [("hostname", VStr "a")]; latency := None |} ]
  /\ StronglySorted (fun a b => (latency_key a <=? latency_key b)%float = true)
       (sort_results sample_results)
  /\ (forall l1 a l2 b l3,
        sort_results sample_results = (l1 ++ a :: l2 ++ b :: l3)%list ->
        latency a = None -> latency b = None).
Proof.
  assert (H : Forall measured sample_results).
  { repeat constructor; intros x [= <-]; vm_compute; reflexivity. }
  split; [exact H |]. split; [vm_compute; reflexivity |].
  split.
  - apply (proj1 (proj2 sort_results_ascending) sample_results).
    eapply Forall_impl; [apply measured_comparable | exact H].
  - exact (proj2 (proj2 sort_results_ascending) sample_results H).
Defined.

(** Claim C4 as stated fails on the code.  The parsers return [float] of a
    text of the ping output, which can be [+inf]; such a latency has the key
    of a missing one, and the stable sort leaves the two in the order in
    which they were collected.  In [far_run] the first server has no address
    and the second is measured at [+inf]: the list returned has the result
    with latency [None] before the one with a number. *)
Lemma sort_results_inf_counterexample :
  fst (ping_test far_host (VStr "192.0.2.2") 3 5) = Ret (Some infinity)
  /\ exists s a b,
       run one_worker far_run (start one_worker two_targets false false) = Some s
       /\ returned s = Some [a; b]
       /\ latency a = None
       /\ latency b = Some infinity.
Proof.
  split; [vm_compute; reflexivity |].
  eexists _, _, _. split; [vm_compute; reflexivity |]. cbn. repeat split.
Qed.

(** Claim C1 as the code has it.  When the stop event is never set and
    [test_servers] returns, it returns exactly one result per submitted
    server, each the outcome of [get_server_latency] for its server (a
    numeric latency or [None]); with at least one worker, whatever has
    happened so far in such a run, it can go on to the return.  In every
    run, stopped or not, and at every
    moment of it, each submitted server is in exactly one place: still
    queued, held by a worker, published, dropped by a worker that saw the
    stop event after dequeuing it, or drained by the coordinator.  A worker
    exits when it sees the stop event, or when its dequeue times out on the
    empty queue and [threading.active_count() <= max_workers + 1]. *)
Theorem test_servers_accounting (cfg : config) :
  (forall servers pause trace s results,
     never_stops trace ->
     run cfg trace (start cfg servers false pause) = Some s ->
     returned s = Some results ->
     Permutation (map server results) servers
     /\ List.length results = List.length servers
     /\ Forall (probed cfg) results)
  /\ (forall servers pause trace s,
        1 <= max_workers cfg ->
        never_stops trace ->
        run cfg trace (start cfg servers false pause) = Some s ->
        exists trace' s' results,
          never_stops trace'
          /\ run cfg trace' s = Some s'
          /\ returned s' = Some results)
  /\ (forall servers stop pause trace s,
        run cfg trace (start cfg servers stop pause) = Some s ->
        Permutation (inventory s) servers
        /\ (List.length (server_queue s) + List.length (held (workers s))
            + (List.length (result_queue s)
               + List.length (collected (coordinator s)))
            + (List.length (dropped s) + List.length (drained s))
            = List.length servers)%nat)
  /\ (forall i h n s s' pc,
        nth_error (workers s) i = Some pc ->
        worker_step cfg i h n s = Some s' ->
        (nth_error (workers s') i = Some WExited
         <-> (pc = WLoop /\ stop_event s = true)
             \/ ((exists srv, pc = WGot srv) /\ stop_event s = true)
             \/ (pc = WGet /\ server_queue s = []
                 /\ Z.of_nat n <= max_workers cfg + 1))).
Proof.
  split; [| split; [| split]].
  - intros servers pause trace s results Hns Hrun Hret.
    pose proof (start_accounted cfg servers false pause) as Ha0.
    pose proof (start_undisturbed cfg servers pause) as Hu0.
    apply (returned_all cfg servers s results); [| | exact Hret].
    + exact (run_accounted cfg servers trace _ _ Ha0 Hrun).
    + exact (run_undisturbed cfg servers trace Hns _ _ Ha0 Hu0 Hrun).
  - intros servers pause trace s Hmax Hns Hrun.
    apply (can_finish cfg servers near_host).
    exact (run_ready cfg servers trace Hns _ _
             (start_ready cfg servers pause Hmax) Hrun).
  - intros servers stop pause trace s Hrun.
    destruct (run_accounted cfg servers trace _ _
                (start_accounted cfg servers stop pause) Hrun) as (Hinv & _).
    split; [exact Hinv |].
    rewrite <- (Permutation_length Hinv). unfold inventory.
    rewrite !length_app, !length_map. lia.
  - apply worker_exit_condition.
Qed.

Lemma test_servers_accounting_witness :
  1 <= max_workers one_worker
  /\ never_stops [Worker 0 near_host 2; SetPause true; Coordinator]
  /\ exists trace' s' results,
       never_stops trace'
       /\ run one_worker trace'
            (set_events false true
               (set_coordinator CCheck
                  (set_worker 0 WPauseCheck
                     (start one_worker one_server false false)))) = Some s'
       /\ returned s' = Some results.
Proof.
  assert (Hmax : 1 <= max_workers one_worker) by (cbn; lia).
  assert (Hns : never_stops [Worker 0 near_host 2; SetPause true; Coordinator])
    by (intros [H | [H | [H | []]]]; discriminate).
  split; [exact Hmax |]. split; [exact Hns |].
  apply (proj1 (proj2 (test_servers_accounting one_worker))
           one_server false [Worker 0 near_host 2; SetPause true; Coordinator]
           _ Hmax Hns).
  reflexivity.
Defined.

(** Claim C1 as stated fails on the code in two ways.  A stopped run can
    return with a server neither published nor skipped: in [stopped_run] the
    single server is being probed when the call returns the empty list, so
    results plus skipped is 0 and not 1.  And a worker's exit on the drained
    queue is decided by the thread count: from [idle_worker] it exits when
    [active_count] is 2 and goes round its loop again when it is 3. *)
Lemma test_servers_stop_and_exit_counterexample :
  (exists s,
     run one_worker stopped_run (start one_worker one_server false false) = Some s
     /\ returned s = Some []
     /\ dropped s = [] /\ drained s = []
     /\ (List.length ([] : list probe_result)
         + (List.length (dropped s) + List.length (drained s))
         <> List.length one_server)%nat)
  /\ (exists s2 s3,
        worker_step one_worker 0 near_host 2 idle_worker = Some s2
        /\ worker_step one_worker 0 near_host 3 idle_worker = Some s3
        /\ server_queue idle_worker = []
        /\ workers s2 = [WExited] /\ workers s3 = [WLoop]).
Proof.
  split.
  - eexists. split; [vm_compute; reflexivity |]. cbn. repeat split; auto.
  - eexists _, _. repeat split; reflexivity.
Qed.

(** In the drain loop the coordinator can lose the race for the last queue
    entry; the handler of the resulting [queue.Empty] looks up [Queue.Empty],
    and [test_servers] ends in an [AttributeError]. *)
Lemma drain_race_raises :
  exists s,
    run one_worker drain_race (start one_worker one_server false false) = Some s
    /\ coordinator s = CRaised AttributeError.
Proof. eexists. split; [vm_compute; reflexivity | reflexivity]. Qed.

(** ** Filtering by protocol *)

Lemma filter_true {A : Type} (l : list A) : List.filter (fun _ => true) l = l.
Proof. induction l as [| a l IH]; cbn; [| rewrite IH]; reflexivity. Qed.

Lemma filter_false {A : Type} (l : list A) : List.filter (fun _ => false) l = [].
Proof. induction l as [| a l IH]; cbn; auto. Qed.

Lemma filter_loop_filter (p : string) (servers : list dict) :
  filter_loop (lower p) servers = List.filter (selected (Some p)) servers
  \/ String.eqb p "" || String.eqb (lower p) "both" = true.
Proof.
  destruct (String.eqb p "" || String.eqb (lower p) "both") eqn:E; [now right |].
  left. induction servers as [| srv rest IH]; [reflexivity |].
  cbn [filter_loop List.filter selected]. rewrite E, IH.
  unfold serves_wireguard, serves_openvpn.
  destruct (String.eqb (lower p) "wireguard");
    [| destruct (String.eqb (lower p) "openvpn")]; reflexivity.
Qed.

(** [filter_servers_by_protocol] is a filter: it keeps the servers that
    [selected] accepts, in their order. *)
Lemma filter_servers_filter (servers : list dict) (protocol : option string) :
  filter_servers_by_protocol servers protocol
  = List.filter (selected protocol) servers.
Proof.
  destruct protocol as [p |]; cbn [filter_servers_by_protocol].
  - destruct (filter_loop_filter p servers) as [H | H].
    + destruct (String.eqb p "" || String.eqb (lower p) "both") eqn:E;
        [| exact H].
      unfold selected. rewrite E. now rewrite filter_true.
    + rewrite H. unfold selected. rewrite H. now rewrite filter_true.
  - now rewrite filter_true.
Qed.

Lemma lower_nonempty (p q : string) : lower p = q -> q <> "" -> String.eqb p "" = false.
Proof.
  intros <- Hq. destruct p; [now contradiction Hq | reflexivity].
Qed.

(** With "wireguard" the servers kept are those whose ["endpoint_data"] is a
    dictionary with a ["wireguard"] key, with "openvpn" those whose
    ["endpoint_data"] is the string "openvpn", whatever the letter case of
    the protocol name; the order of the servers is kept, and no server is of
    both kinds. *)
Theorem filter_servers_selects :
  (forall servers p, lower p = "wireguard" ->
     filter_servers_by_protocol servers (Some p)
     = List.filter serves_wireguard servers)
  /\ (forall servers p, lower p = "openvpn" ->
        filter_servers_by_protocol servers (Some p)
        = List.filter serves_openvpn servers)
  /\ (forall srv, serves_wireguard srv && serves_openvpn srv = false).
Proof.
  split; [| split].
  - intros servers p Hp. rewrite filter_servers_filter.
    apply filter_ext. intros srv. unfold selected.
    rewrite (lower_nonempty p _ Hp) by discriminate. now rewrite Hp.
  - intros servers p Hp. rewrite filter_servers_filter.
    apply filter_ext. intros srv. unfold selected.
    rewrite (lower_nonempty p _ Hp) by discriminate. now rewrite Hp.
  - intros srv. unfold serves_wireguard, serves_openvpn.
    destruct (dict_get srv "endpoint_data"); cbn;
      try reflexivity; apply andb_false_r.
Qed.

Lemma filter_servers_selects_witness :
  lower "WireGuard" = "wireguard"
  /\ filter_servers_by_protocol
       [[("hostname", VStr "se-got-wg-001");
         ("endpoint_data", VDict [("wireguard", VDict [])])];
        [("hostname", VStr "se-got-ovpn-001"); ("endpoint_data", VStr "openvpn")];
        [("hostname", VStr "se-got-br-001"); ("endpoint_data", VStr "bridge")]]
       (Some "WireGuard")
     = [[("hostname", VStr "se-got-wg-001");
         ("endpoint_data", VDict [("wireguard", VDict [])])]].
Proof.
  split; [reflexivity |].
  exact (proj1 filter_servers_selects _ "WireGuard" eq_refl).
Defined.

(** A protocol name that is none of "both", "wireguard" and "openvpn"
    (letter case apart) and is not empty selects nothing: the result is the
    empty list for every server list. *)
Theorem filter_unknown_protocol (servers : list dict) (p : string) :
  p <> "" -> lower p <> "both" -> lower p <> "wireguard" ->
  lower p <> "openvpn" ->
  filter_servers_by_protocol servers (Some p) = [].
Proof.
  intros Hp Hb Hw Ho. rewrite filter_servers_filter.
  rewrite <- (filter_false servers). apply filter_ext. intros srv.
  unfold selected.
  apply String.eqb_neq in Hp, Hb, Hw, Ho. now rewrite Hp, Hb, Hw, Ho.
Qed.

Lemma filter_unknown_protocol_witness :
  filter_servers_by_protocol
    [[("hostname", VStr "se-got-br-001"); ("endpoint_data", VStr "bridge")]]
    (Some "bridge") = [].
Proof.
  apply filter_unknown_protocol; discriminate.
Defined.

(** ** Location keys *)

Lemma dict_lookup_set_same (d : dict) (k : string) (v : pyval) :
  dict_lookup (dict_set d k v) k = Some v.
Proof.
  induction d as [| [k0 v0] d IH]; cbn [dict_set dict_lookup].
  - now rewrite String.eqb_refl.
  - destruct (String.eqb k0 k) eqn:E; cbn [dict_lookup]; rewrite E; auto.
Qed.

Lemma dict_lookup_set_other (d : dict) (k k' : string) (v : pyval) :
  k' <> k -> dict_lookup (dict_set d k v) k' = dict_lookup d k'.
Proof.
  intros Hk. induction d as [| [k0 v0] d IH]; cbn [dict_set dict_lookup].
  - apply not_eq_sym in Hk. apply String.eqb_neq in Hk. now rewrite Hk.
  - destruct (String.eqb k0 k) eqn:E; cbn [dict_lookup].
    + apply String.eqb_eq in E. subst k0.
      apply not_eq_sym in Hk. apply String.eqb_neq in Hk. now rewrite Hk.
    + now rewrite IH.
Qed.

Lemma mapM_Ret {A B : Type} (f : A -> result B) (l : list A) :
  forall out, mapM f l = Ret out -> Forall2 (fun a b => f a = Ret b) l out.
Proof.
  induction l as [| a l IH]; cbn [mapM]; intros out H.
  - injection H as <-. constructor.
  - destruct (f a) as [b |] eqn:Ea; cbn [bind] in H; [| discriminate].
    destruct (mapM f l) as [bs |]; cbn [bind] in H; [| discriminate].
    injection H as <-. constructor; auto.
Qed.

Lemma mapM_Raise {A B : Type} (f : A -> result B) (l : list A) (e : exn) :
  mapM f l = Raise e -> Exists (fun a => f a = Raise e) l.
Proof.
  induction l as [| a l IH]; cbn [mapM]; intros H; [discriminate |].
  destruct (f a) as [b |] eqn:Ea; cbn [bind] in H.
  - destruct (mapM f l) as [bs |]; cbn [bind] in H; [discriminate |].
    apply Exists_cons_tl. apply IH. congruence.
  - apply Exists_cons_hd. congruence.
Qed.

Lemma mapM_total {A B : Type} (f : A -> result B) (l : list A) :
  Forall (fun a => exists b, f a = Ret b) l -> exists out, mapM f l = Ret out.
Proof.
  induction 1 as [| a l [b Hb] _ [bs Hbs]]; cbn [mapM].
  - now exists [].
  - rewrite Hb, Hbs. now exists (b :: bs).
Qed.

Lemma Forall_concat {A : Type} (P : A -> Prop) (ls : list (list A)) :
  Forall (Forall P) ls -> Forall P (List.concat ls).
Proof.
  induction 1 as [| l ls Hl _ IH]; cbn [List.concat]; [constructor |].
  apply Forall_app. now split.
Qed.

Lemma Forall2_Forall_r {A B : Type} (R : A -> B -> Prop) (P : B -> Prop)
      (l : list A) (l' : list B) :
  Forall2 R l l' -> (forall a b, In a l -> R a b -> P b) -> Forall P l'.
Proof.
  induction 1 as [| a b l l' Hab _ IH]; intros H; constructor.
  - apply (H a b); [now left | exact Hab].
  - apply IH. intros a' b' Hin. apply H. now right.
Qed.

Lemma add_location_info_sets
      (servers : list pyval) (country_name country_code city_name city_code : pyval)
      (out : list dict) :
  _add_location_info servers country_name country_code city_name city_code
  = Ret out ->
  Forall2 (fun v srv' =>
             exists srv, v = VDict srv
               /\ dict_lookup srv' "country" = Some country_name
               /\ dict_lookup srv' "country_code" = Some country_code
               /\ dict_lookup srv' "city" = Some city_name
               /\ dict_lookup srv' "city_code" = Some city_code
               /\ (forall k, ~ In k location_keys ->
                     dict_lookup srv' k = dict_lookup srv k))
          servers out.
Proof.
  unfold _add_location_info. intros H. apply mapM_Ret in H.
  eapply Forall2_impl; [| exact H]. intros v srv' Hv. cbn beta in Hv.
  destruct v; try discriminate. injection Hv as <-. exists d.
  split; [reflexivity |].
  repeat split.
  - now rewrite !dict_lookup_set_other, dict_lookup_set_same by discriminate.
  - now rewrite !dict_lookup_set_other, dict_lookup_set_same by discriminate.
  - now rewrite !dict_lookup_set_other, dict_lookup_set_same by discriminate.
  - now rewrite dict_lookup_set_same.
  - intros k Hk. cbn [location_keys In] in Hk.
    rewrite !dict_lookup_set_other; [reflexivity | | | |];
      intros ->; apply Hk; tauto.
Qed.

(** [_add_location_info] returns a list of the same length: each server is
    the given one with the four location keys set to the given values
    (replacing what it had under them) and every other key untouched.  It
    raises, [TypeError], exactly when some element is no dictionary. *)
Theorem add_location_info_spec
        (servers : list pyval) (country_name country_code city_name city_code : pyval) :
  (forall out,
     _add_location_info servers country_name country_code city_name city_code
     = Ret out ->
     Forall2 (fun v srv' =>
                exists srv, v = VDict srv
                  /\ dict_lookup srv' "country" = Some country_name
                  /\ dict_lookup srv' "country_code" = Some country_code
                  /\ dict_lookup srv' "city" = Some city_name
                  /\ dict_lookup srv' "city_code" = Some city_code
                  /\ (forall k, ~ In k location_keys ->
                        dict_lookup srv' k = dict_lookup srv k))
             servers out)
  /\ (Forall (fun v => exists srv, v = VDict srv) servers <->
      exists out,
        _add_location_info servers country_name country_code city_name city_code
        = Ret out)
  /\ (forall e,
        _add_location_info servers country_name country_code city_name city_code
        = Raise e -> e = TypeError).
Proof.
  split; [apply add_location_info_sets |]. split; [split |].
  - intros H. apply mapM_total. eapply Forall_impl; [| exact H].
    intros v [srv ->]. eauto.
  - intros [out H]. apply add_location_info_sets in H.
    induction H as [| v srv' l l' (srv & -> & _) _ IH]; constructor; eauto.
  - intros e H. apply mapM_Raise in H.
    apply Exists_exists in H. destruct H as (v & _ & Hv).
    destruct v; congruence.
Qed.

Lemma add_location_info_spec_witness :
  Forall (fun v => exists srv, v = VDict srv)
         [VDict [("hostname", VStr "se-got-wg-001"); ("city", VStr "?")]]
  /\ exists out,
       _add_location_info
         [VDict [("hostname", VStr "se-got-wg-001"); ("city", VStr "?")]]
         (VStr "Sweden") (VStr "se") (VStr "Gothenburg") (VStr "got") = Ret out.
Proof.
  assert (H : Forall (fun v => exists srv, v = VDict srv)
                [VDict [("hostname", VStr "se-got-wg-001"); ("city", VStr "?")]])
    by (constructor; [eauto | constructor]).
  split; [exact H |].
  exact (proj1 (proj1 (proj2 (add_location_info_spec _ _ _ _ _))) H).
Defined.

Lemma add_location_info_located
      (servers : list pyval) (cn cc cin cic : pyval) (out : list dict) :
  _add_location_info servers cn cc cin cic = Ret out ->
  Forall (located cn cc) out.
Proof.
  intros H. apply add_location_info_sets in H.
  eapply Forall2_Forall_r; [exact H |].
  intros v srv' _ (srv & _ & H1 & H2 & H3 & H4 & _).
  unfold located, dict_mem. now rewrite H1, H2, H3, H4.
Qed.

Lemma city_servers_located (cn cc : pyval) (city : pyval) (l : list dict) :
  city_servers cn cc city = Ret l -> Forall (located cn cc) l.
Proof.
  unfold city_servers. destruct (as_dict city) as [c |]; cbn [bind]; [| discriminate].
  destruct (iterate (extract_relays c)) as [relays |]; cbn [bind]; [| discriminate].
  apply add_location_info_located.
Qed.

Lemma cities_located (cn cc : pyval) (cities : list pyval) (per_city : list (list dict)) :
  mapM (city_servers cn cc) cities = Ret per_city ->
  Forall (located cn cc) (List.concat per_city).
Proof.
  intros H. apply mapM_Ret in H. apply Forall_concat.
  eapply Forall2_Forall_r; [exact H |].
  intros city l _ Hl. now apply city_servers_located in Hl.
Qed.

Lemma country_servers_located (c : dict) (l : list dict) :
  country_servers (VDict c) = Ret l ->
  Forall (located (dict_get_default c "name" (VStr "Unknown Country"))
                  (dict_get_default c "code" (VStr "??"))) l.
Proof.
  unfold country_servers. cbn [as_dict bind].
  destruct (iterate (extract_cities c)) as [cities |]; cbn [bind]; [| discriminate].
  destruct (mapM _ cities) as [per_city |] eqn:E; cbn [bind]; [| discriminate].
  intros [= <-]. now apply cities_located in E.
Qed.

Lemma filter_servers_Forall (P : dict -> Prop) (l : list dict)
      (protocol : option string) :
  Forall P l -> Forall P (filter_servers_by_protocol l protocol).
Proof.
  intros H. rewrite filter_servers_filter. rewrite Forall_forall in *.
  intros srv Hin. apply filter_In in Hin. now apply H.
Qed.

(** Every server [get_all_servers] returns carries its location: the name
    and the code of one of the countries of the data ("Unknown Country" and
    "??" where the country has none) under ["country"] and
    ["country_code"], and a ["city"] and a ["city_code"]. *)
Theorem get_all_servers_located (d : dict) (protocol : option string)
        (l : list dict) :
  get_all_servers (Some d) protocol = Ret l ->
  Forall (fun srv =>
            exists countries c,
              iterate (extract_countries d) = Ret countries
              /\ In (VDict c) countries
              /\ located (dict_get_default c "name" (VStr "Unknown Country"))
                         (dict_get_default c "code" (VStr "??")) srv) l.
Proof.
  unfold get_all_servers.
  destruct (negb (truthy (VDict d))); [intros [= <-]; constructor |].
  destruct (negb (truthy (extract_countries d))); [intros [= <-]; constructor |].
  unfold collect_servers.
  destruct (iterate (extract_countries d)) as [countries |]; cbn [bind];
    [| discriminate].
  destruct (mapM country_servers countries) as [per_country |] eqn:E;
    cbn [bind]; [| discriminate].
  intros [= <-]. apply filter_servers_Forall. apply Forall_concat.
  apply mapM_Ret in E.
  eapply Forall2_Forall_r; [exact E |].
  intros v lc Hin Hv. cbn beta in Hv.
  assert (Hd : exists c, v = VDict c).
  { destruct v; try discriminate. eauto. }
  destruct Hd as [c ->]. apply country_servers_located in Hv.
  eapply Forall_impl; [| exact Hv]. intros srv Hs. exists countries, c. auto.
Qed.

Lemma get_all_servers_located_witness :
  get_all_servers (Some two_relays) (Some "openvpn")
  = Ret [[("hostname", VStr "se-got-ovpn-001"); ("ipv4_addr_in", VStr "192.0.2.2");
          ("endpoint_data", VStr "openvpn");
          ("country", VStr "Sweden"); ("country_code", VStr "se");
          ("city", VStr "Gothenburg"); ("city_code", VStr "got")]]
  /\ Forall (fun srv =>
            exists countries c,
              iterate (extract_countries two_relays) = Ret countries
              /\ In (VDict c) countries
              /\ located (dict_get_default c "name" (VStr "Unknown Country"))
                         (dict_get_default c "code" (VStr "??")) srv)
       [[("hostname", VStr "se-got-ovpn-001"); ("ipv4_addr_in", VStr "192.0.2.2");
         ("endpoint_data", VStr "openvpn");
         ("country", VStr "Sweden"); ("country_code", VStr "se");
         ("city", VStr "Gothenburg"); ("city_code", VStr "got")]].
Proof.
  assert (H : get_all_servers (Some two_relays) (Some "openvpn")
              = Ret [[("hostname", VStr "se-got-ovpn-001");
                      ("ipv4_addr_in", VStr "192.0.2.2");
                      ("endpoint_data", VStr "openvpn");
                      ("country", VStr "Sweden"); ("country_code", VStr "se");
                      ("city", VStr "Gothenburg"); ("city_code", VStr "got")]])
    by (vm_compute; reflexivity).
  split; [exact H |].
  exact (get_all_servers_located two_relays (Some "openvpn") _ H).
Defined.

(** ** The relays of one country *)

Lemma lower_empty (s : string) : lower s = "" -> s = "".
Proof. destruct s; [reflexivity | discriminate]. Qed.

(** A country whose code matches has a ["code"] entry, so the defaults of
    the two [get] calls on it are not used. *)
Lemma current_code_match (c : dict) (f : string) :
  f <> "" -> current_code c = Ret (lower f) ->
  exists s, dict_lookup c "code" = Some (VStr s) /\ lower s = lower f.
Proof.
  unfold current_code, dict_get_default. intros Hf H.
  destruct (dict_lookup c "code") as [v |].
  - destruct v; try discriminate. injection H as H. eauto.
  - injection H as H. cbn in H. symmetry in H. apply lower_empty in H.
    contradiction.
Qed.

Lemma country_loop_skip (f : string) (pre rest : list pyval) :
  Forall (fun v => exists c s, v = VDict c /\ current_code c = Ret s
                               /\ s <> lower f) pre ->
  country_loop f (pre ++ rest) = country_loop f rest.
Proof.
  induction 1 as [| v pre (c & s & -> & Hc & Hs) _ IH]; [reflexivity |].
  cbn [app country_loop as_dict bind]. rewrite Hc. cbn [bind].
  apply String.eqb_neq in Hs. now rewrite Hs.
Qed.

Lemma country_loop_match (f : string) (c : dict) (post : list pyval) :
  f <> "" -> current_code c = Ret (lower f) -> dict_mem c "name" = true ->
  country_loop f (VDict c :: post) = country_servers (VDict c).
Proof.
  intros Hf Hc Hn. cbn [country_loop as_dict bind]. rewrite Hc. cbn [bind].
  rewrite String.eqb_refl.
  destruct (current_code_match c f Hf Hc) as (s & Hs & _).
  unfold country_servers. cbn [as_dict bind].
  unfold dict_mem in Hn. unfold dict_get_default. rewrite Hs.
  destruct (dict_lookup c "name"); [reflexivity | discriminate].
Qed.

Lemma country_loop_match_named (f : string) (c : dict) (post : list pyval) :
  f <> "" -> current_code c = Ret (lower f) ->
  country_loop f (VDict c :: post) = country_servers (VDict (named f c)).
Proof.
  intros Hf Hc. unfold named. destruct (dict_mem c "name") eqn:Hn.
  { now apply country_loop_match. }
  cbn [country_loop as_dict bind]. rewrite Hc. cbn [bind].
  rewrite String.eqb_refl.
  destruct (current_code_match c f Hf Hc) as (s & Hs & _).
  unfold country_servers. cbn [as_dict bind].
  unfold extract_cities, dict_get_default.
  rewrite dict_lookup_set_same, !dict_lookup_set_other by discriminate.
  unfold dict_mem in Hn. rewrite Hs.
  destruct (dict_lookup c "name"); [discriminate | reflexivity].
Qed.

(** For a filter that is not empty, [get_servers_by_country] takes the
    first country whose code reads as the filter, letter case apart, the
    countries before it being dictionaries with another string code (a
    missing code reads as the empty string).  It returns that country's relays
    as [get_all_servers] lists them for the country, filtered by the
    protocol, but for the name of a country that has none: its relays go by
    ["Country <filter>"], where [get_all_servers] says ["Unknown Country"].
    The countries after the match are not looked at, whatever they are. *)
Theorem get_servers_by_country_first_match
        (d : dict) (f : string) (protocol : option string)
        (pre : list pyval) (c : dict) (post : list pyval) :
  f <> "" ->
  extract_countries d = VList (pre ++ VDict c :: post) ->
  Forall (fun v => exists c' s, v = VDict c' /\ current_code c' = Ret s
                                /\ s <> lower f) pre ->
  current_code c = Ret (lower f) ->
  get_servers_by_country (Some d) f protocol
  = (servers <- country_servers (VDict (named f c)) ;;
     Ret (filter_servers_by_protocol servers protocol))
  /\ (dict_mem c "name" = true -> named f c = c)
  /\ (dict_mem c "name" = false ->
      dict_lookup (named f c) "name" = Some (VStr ("Country " ++ f))
      /\ forall k, k <> "name" -> dict_lookup (named f c) k = dict_lookup c k).
Proof.
  intros Hf Hcs Hpre Hc. split; [| split].
  - unfold get_servers_by_country.
    assert (Hd : truthy (VDict d) = true).
    { destruct d; [| reflexivity]. cbn in Hcs. destruct pre; discriminate. }
    rewrite Hd. cbn [negb].
    assert (Hf' : truthy (VStr f) = true).
    { cbn. apply String.eqb_neq in Hf. now rewrite Hf. }
    rewrite Hf'. cbn [negb]. rewrite Hcs. cbn [iterate bind].
    now rewrite (country_loop_skip f pre _ Hpre),
      (country_loop_match_named f c post Hf Hc).
  - intros Hn. unfold named. now rewrite Hn.
  - intros Hn. unfold named. rewrite Hn. split.
    + apply dict_lookup_set_same.
    + intros k Hk. now apply dict_lookup_set_other.
Qed.

Lemma get_servers_by_country_first_match_witness :
  get_servers_by_country
    (Some [("countries",
            VList [VDict [("name", VStr "Norway"); ("code", VStr "no")];
                   VDict [("code", VStr "se");
                          ("cities", VList [VDict
                             [("name", VStr "Gothenburg"); ("code", VStr "got");
                              ("relays", VList [VDict
                                 [("hostname", VStr "se-got-wg-001")]])]])];
                   VInt 7])])
    "SE" None
  = Ret [[("hostname", VStr "se-got-wg-001");
          ("country", VStr "Country SE"); ("country_code", VStr "se");
          ("city", VStr "Gothenburg"); ("city_code", VStr "got")]].
Proof.
  match goal with
  | |- get_servers_by_country (Some ?d) _ _ = _ =>
      destruct (get_servers_by_country_first_match d "SE" None
                  [VDict [("name", VStr "Norway"); ("code", VStr "no")]]
                  [("code", VStr "se");
                   ("cities", VList [VDict
                      [("name", VStr "Gothenburg"); ("code", VStr "got");
                       ("relays", VList [VDict
                          [("hostname", VStr "se-got-wg-001")]])]])]
                  [VInt 7]) as (H & _)
  end.
  - discriminate.
  - reflexivity.
  - constructor; [| constructor].
    exists [("name", VStr "Norway"); ("code", VStr "no")], "no".
    repeat split. discriminate.
  - reflexivity.
  - etransitivity; [exact H | reflexivity].
Defined.

Lemma country_loop_located (f : string) (countries : list pyval) :
  f <> "" ->
  forall l, country_loop f countries = Ret l ->
    Forall (fun srv => in_country f srv = true
                       /\ exists name code, located name code srv) l.
Proof.
  intros Hf. induction countries as [| v countries IH]; intros l;
    cbn [country_loop].
  - intros [= <-]. constructor.
  - destruct (as_dict v) as [c |]; cbn [bind]; [| discriminate].
    destruct (current_code c) as [code |] eqn:Hc; cbn [bind]; [| discriminate].
    destruct (String.eqb code (lower f)) eqn:E; [| apply IH].
    apply String.eqb_eq in E. subst code.
    destruct (current_code_match c f Hf Hc) as (s & Hs & Hl).
    destruct (iterate (extract_cities c)) as [cities |]; cbn [bind];
      [| discriminate].
    destruct (mapM _ cities) as [per_city |] eqn:Em; cbn [bind]; [| discriminate].
    intros [= <-]. apply cities_located in Em.
    eapply Forall_impl; [| exact Em]. intros srv Hs'. split; [| eauto].
    destruct Hs' as (_ & H2 & _). unfold in_country, dict_get, dict_get_default.
    rewrite H2. unfold dict_get_default. rewrite Hs, Hl. apply String.eqb_refl.
Qed.

(** Every server [get_servers_by_country] returns carries the four
    location keys, and its ["country_code"] is a string that reads as the
    filter, letter case apart. *)
Theorem get_servers_by_country_located
        (data : option dict) (f : string) (protocol : option string)
        (l : list dict) :
  get_servers_by_country data f protocol = Ret l ->
  Forall (fun srv => in_country f srv = true
                     /\ exists name code, located name code srv) l.
Proof.
  unfold get_servers_by_country. destruct data as [d |];
    [| intros [= <-]; constructor].
  destruct (negb (truthy (VDict d))); [intros [= <-]; constructor |].
  destruct (negb (truthy (VStr f))) eqn:Ef; [intros [= <-]; constructor |].
  assert (Hf : f <> "").
  { intros ->. discriminate. }
  destruct (iterate (extract_countries d)) as [countries |]; cbn [bind];
    [| discriminate].
  destruct (country_loop f countries) as [servers |] eqn:E; cbn [bind];
    [| discriminate].
  intros [= <-]. apply filter_servers_Forall.
  now apply (country_loop_located f countries Hf).
Qed.

Lemma get_servers_by_country_located_witness :
  get_servers_by_country (Some two_relays) "Se" (Some "wireguard")
  = Ret [[("hostname", VStr "se-got-wg-001"); ("ipv4_addr_in", VStr "192.0.2.1");
          ("endpoint_data", VDict [("wireguard", VDict [])]);
          ("country", VStr "Sweden"); ("country_code", VStr "se");
          ("city", VStr "Gothenburg"); ("city_code", VStr "got")]]
  /\ Forall (fun srv => in_country "Se" srv = true
                        /\ exists name code, located name code srv)
       [[("hostname", VStr "se-got-wg-001"); ("ipv4_addr_in", VStr "192.0.2.1");
         ("endpoint_data", VDict [("wireguard", VDict [])]);
         ("country", VStr "Sweden"); ("country_code", VStr "se");
         ("city", VStr "Gothenburg"); ("city_code", VStr "got")]].
Proof.
  assert (H : get_servers_by_country (Some two_relays) "Se" (Some "wireguard")
              = Ret [[("hostname", VStr "se-got-wg-001");
                      ("ipv4_addr_in", VStr "192.0.2.1");
                      ("endpoint_data", VDict [("wireguard", VDict [])]);
                      ("country", VStr "Sweden"); ("country_code", VStr "se");
                      ("city", VStr "Gothenburg"); ("city_code", VStr "got")]])
    by (vm_compute; reflexivity).
  split; [exact H |].
  exact (get_servers_by_country_located _ "Se" (Some "wireguard") _ H).
Defined.

(** [get_servers_by_country] returns the empty list when there is no data,
    when the filter is empty, and when no country's code reads as the filter;
    a country whose code is no string, met before a match, ends the call in
    an [AttributeError]. *)
Theorem get_servers_by_country_no_match :
  (forall f protocol, get_servers_by_country None f protocol = Ret [])
  /\ (forall f protocol, get_servers_by_country (Some []) f protocol = Ret [])
  /\ (forall data protocol, get_servers_by_country data "" protocol = Ret [])
  /\ (forall d f protocol countries,
        iterate (extract_countries d) = Ret countries ->
        Forall (fun v => exists c s, v = VDict c /\ current_code c = Ret s
                                     /\ s <> lower f) countries ->
        get_servers_by_country (Some d) f protocol = Ret [])
  /\ (forall d f protocol pre c v post,
        d <> [] -> f <> "" ->
        iterate (extract_countries d) = Ret (pre ++ VDict c :: post)%list ->
        Forall (fun v => exists c' s, v = VDict c' /\ current_code c' = Ret s
                                      /\ s <> lower f) pre ->
        dict_lookup c "code" = Some v -> (forall s, v <> VStr s) ->
        get_servers_by_country (Some d) f protocol = Raise AttributeError).
Proof.
  split; [reflexivity |]. split; [reflexivity |]. split; [| split].
  - intros [d |] protocol; [| reflexivity]. unfold get_servers_by_country.
    destruct (negb (truthy (VDict d))); reflexivity.
  - intros d f protocol countries Hit Hall. unfold get_servers_by_country.
    destruct (negb (truthy (VDict d))); [reflexivity |].
    destruct (negb (truthy (VStr f))); [reflexivity |].
    rewrite Hit. cbn [bind].
    rewrite <- (app_nil_r countries), (country_loop_skip f countries [] Hall).
    cbn [country_loop bind]. now rewrite filter_servers_filter.
  - intros d f protocol pre c v post Hd Hf Hit Hpre Hv Hns.
    unfold get_servers_by_country.
    destruct d as [| kv d]; [contradiction |]. cbn [truthy negb].
    apply String.eqb_neq in Hf. rewrite Hf. cbn [negb].
    rewrite Hit. cbn [bind]. rewrite (country_loop_skip f pre _ Hpre).
    cbn [country_loop as_dict bind]. unfold current_code, dict_get_default.
    rewrite Hv. destruct v; try reflexivity. now contradiction (Hns s).
Qed.

Lemma get_servers_by_country_no_match_witness :
  get_servers_by_country (Some two_relays) "no" (Some "wireguard") = Ret [].
Proof.
  apply (proj1 (proj2 (proj2 (proj2 get_servers_by_country_no_match)))
           two_relays "no" (Some "wireguard")
           [VDict [("name", VStr "Sweden"); ("code", VStr "se");
                   ("cities", VList [VDict
                      [("name", VStr "Gothenburg"); ("code", VStr "got");
                       ("relays", VList
                          [VDict [("hostname", VStr "se-got-wg-001");
                                  ("ipv4_addr_in", VStr "192.0.2.1");
                                  ("endpoint_data", VDict [("wireguard", VDict [])])];
                           VDict [("hostname", VStr "se-got-ovpn-001");
                                  ("ipv4_addr_in", VStr "192.0.2.2");
                                  ("endpoint_data", VStr "openvpn")]])]])]]).
  - reflexivity.
  - constructor; [| constructor]. eexists _, "se". repeat split. discriminate.
Defined.

(** ** The two relay queries agree *)

Lemma filter_all {A : Type} (p : A -> bool) (l : list A) :
  Forall (fun x => p x = true) l -> List.filter p l = l.
Proof.
  induction 1 as [| x l Hx _ IH]; cbn [List.filter]; [reflexivity |].
  now rewrite Hx, IH.
Qed.

Lemma filter_none {A : Type} (p : A -> bool) (l : list A) :
  Forall (fun x => p x = false) l -> List.filter p l = [].
Proof.
  induction 1 as [| x l Hx _ IH]; cbn [List.filter]; [reflexivity |].
  now rewrite Hx, IH.
Qed.

Lemma filter_swap {A : Type} (p q : A -> bool) (l : list A) :
  List.filter p (List.filter q l) = List.filter q (List.filter p l).
Proof.
  induction l as [| x l IH]; [reflexivity |]. cbn [List.filter].
  destruct (p x) eqn:Ep, (q x) eqn:Eq; cbn [List.filter];
    rewrite ?Ep, ?Eq, IH; reflexivity.
Qed.

Lemma in_country_code (f s : string) (name : pyval) (srv : dict) :
  located name (VStr s) srv -> in_country f srv = String.eqb (lower s) (lower f).
Proof.
  intros (_ & H & _). unfold in_country, dict_get, dict_get_default.
  now rewrite H.
Qed.

(** The servers listed under country records carry the records' codes. *)
Lemma countries_coded (countries : list pyval) :
  Forall country_record countries ->
  forall per_country,
    mapM country_servers countries = Ret per_country ->
    Forall (fun srv => exists name s, located name (VStr s) srv
                                      /\ In (lower s) (country_codes countries))
           (List.concat per_country).
Proof.
  induction 1 as [| v countries (c & s & -> & Hs & Hn) _ IH];
    intros per_country; cbn [mapM].
  - intros [= <-]. constructor.
  - destruct (country_servers (VDict c)) as [l |] eqn:El; cbn [bind];
      [| discriminate].
    destruct (mapM country_servers countries) as [lrest |]; cbn [bind];
      [| discriminate].
    intros [= <-]. cbn [List.concat country_codes]. rewrite Hs.
    apply Forall_app. split.
    + apply country_servers_located in El.
      eapply Forall_impl; [| exact El]. intros srv Hl.
      unfold dict_get_default in Hl at 2. rewrite Hs in Hl.
      eexists _, s. split; [exact Hl | now left].
    + eapply Forall_impl; [| exact (IH lrest eq_refl)].
      intros srv (name & s' & Hl & Hin). exists name, s'. split; [exact Hl |].
      now right.
Qed.

Lemma country_loop_agrees (f : string) (countries : list pyval) :
  f <> "" ->
  Forall country_record countries ->
  NoDup (country_codes countries) ->
  forall per_country,
    mapM country_servers countries = Ret per_country ->
    country_loop f countries
    = Ret (List.filter (in_country f) (List.concat per_country)).
Proof.
  intros Hf Hrec. induction Hrec as [| v countries (c & s & -> & Hs & Hn) Hrec IH];
    intros Hnd per_country; cbn [mapM].
  - intros [= <-]. reflexivity.
  - destruct (country_servers (VDict c)) as [l |] eqn:El; cbn [bind];
      [| discriminate].
    destruct (mapM country_servers countries) as [lrest |] eqn:Er; cbn [bind];
      [| discriminate].
    intros [= <-]. cbn [List.concat]. rewrite filter_app.
    cbn [country_codes] in Hnd. rewrite Hs in Hnd.
    apply NoDup_cons_iff in Hnd. destruct Hnd as [Hnotin Hnd].
    assert (Hc : current_code c = Ret (lower s)).
    { unfold current_code, dict_get_default. now rewrite Hs. }
    assert (Hl : Forall (located (dict_get_default c "name" (VStr "Unknown Country"))
                                 (VStr s)) l).
    { apply country_servers_located in El.
      unfold dict_get_default in El at 2. now rewrite Hs in El. }
    destruct (String.eqb (lower s) (lower f)) eqn:E.
    + apply String.eqb_eq in E. rewrite E in Hc.
      rewrite (country_loop_match f c countries Hf Hc Hn), El.
      rewrite (filter_all (in_country f) l),
        (filter_none (in_country f) (List.concat lrest)), app_nil_r;
        [reflexivity | |].
      * eapply Forall_impl; [| exact (countries_coded countries Hrec lrest Er)].
        intros srv (name & s' & Hl' & Hin).
        rewrite (in_country_code f s' name srv Hl').
        apply String.eqb_neq. intros E'. apply Hnotin. congruence.
      * eapply Forall_impl; [| exact Hl]. intros srv Hl'.
        rewrite (in_country_code f s _ srv Hl'). rewrite E. apply String.eqb_refl.
    + cbn [country_loop as_dict bind]. rewrite Hc. cbn [bind]. rewrite E.
      rewrite (IH Hnd lrest eq_refl), (filter_none (in_country f) l);
        [reflexivity |].
      eapply Forall_impl; [| exact Hl]. intros srv Hl'.
      now rewrite (in_country_code f s _ srv Hl').
Qed.

(** On data whose countries are records with a name and a string code, the
    codes pairwise distinct letter case apart, asking for one country with a
    filter that is not empty is picking that country's servers out of the full
    list: whenever [get_all_servers] returns, [get_servers_by_country] returns
    those of its servers whose ["country_code"] reads as the filter, in the
    same order.  With the empty filter it returns the empty list, also when
    the full list has servers whose country code is empty. *)
Theorem get_servers_by_country_agrees
        (d : dict) (f : string) (protocol : option string)
        (countries : list pyval) (all : list dict) :
  iterate (extract_countries d) = Ret countries ->
  Forall country_record countries ->
  NoDup (country_codes countries) ->
  get_all_servers (Some d) protocol = Ret all ->
  get_servers_by_country (Some d) f protocol
  = Ret (if String.eqb f "" then [] else List.filter (in_country f) all).
Proof.
  intros Hit Hrec Hnd. unfold get_all_servers, get_servers_by_country.
  destruct (negb (truthy (VDict d))).
  { intros [= <-]. now destruct (String.eqb f ""). }
  cbn [truthy]. destruct (String.eqb f "") eqn:Hf; [reflexivity |]. cbn [negb].
  apply String.eqb_neq in Hf. rewrite Hit. cbn [bind].
  destruct (negb (truthy (extract_countries d))) eqn:Et.
  - intros [= <-].
    assert (countries = []) as ->.
    { destruct (extract_countries d) as [| | | | s | l | dd]; cbn in Hit, Et;
        try discriminate; injection Hit as <-.
      - destruct s; [reflexivity | discriminate].
      - destruct l; [reflexivity | discriminate].
      - destruct dd; [reflexivity | discriminate]. }
    cbn [country_loop bind List.filter]. now rewrite filter_servers_filter.
  - unfold collect_servers. rewrite Hit. cbn [bind].
    destruct (mapM country_servers countries) as [per_country |] eqn:E;
      cbn [bind]; [| discriminate].
    intros [= <-].
    rewrite (country_loop_agrees f countries Hf Hrec Hnd per_country E).
    cbn [bind]. now rewrite !filter_servers_filter, filter_swap.
Qed.

Lemma get_servers_by_country_agrees_witness :
  get_servers_by_country (Some two_relays) "SE" (Some "openvpn")
  = Ret (List.filter (in_country "SE")
           [[("hostname", VStr "se-got-ovpn-001"); ("ipv4_addr_in", VStr "192.0.2.2");
             ("endpoint_data", VStr "openvpn");
             ("country", VStr "Sweden"); ("country_code", VStr "se");
             ("city", VStr "Gothenburg"); ("city_code", VStr "got")]]).
Proof.
  apply (get_servers_by_country_agrees two_relays "SE" (Some "openvpn")
           [VDict [("name", VStr "Sweden"); ("code", VStr "se");
                   ("cities", VList [VDict
                      [("name", VStr "Gothenburg"); ("code", VStr "got");
                       ("relays", VList
                          [VDict [("hostname", VStr "se-got-wg-001");
                                  ("ipv4_addr_in", VStr "192.0.2.1");
                                  ("endpoint_data", VDict [("wireguard", VDict [])])];
                           VDict [("hostname", VStr "se-got-ovpn-001");
                                  ("ipv4_addr_in", VStr "192.0.2.2");
                                  ("endpoint_data", VStr "openvpn")]])]])]]).
  - reflexivity.
  - constructor; [| constructor]. eexists _, "se". repeat split.
  - cbn. constructor; [intros [] | constructor].
  - vm_compute. reflexivity.
Defined.

(** ** Export to CSV *)

Lemma write_rows_ok (dk : disk) (servers : list dict) :
  forall n written written',
    write_rows dk n servers written = (Ret tt, written') ->
    exists body, written' = (written ++ body)%list
                 /\ Forall2 (fun server row => export_row server = Ret row)
                            servers body.
Proof.
  induction servers as [| server rest IH]; intros n written written';
    cbn [write_rows].
  - intros [= <-]. exists []. split; [now rewrite app_nil_r | constructor].
  - destruct (export_row server) as [row |] eqn:Er; [| discriminate].
    destruct (write_row dk n); [discriminate |].
    intros H. destruct (IH _ _ _ H) as (body & -> & Hb).
    exists (row :: body). split; [now rewrite <- app_assoc | now constructor].
Qed.

Lemma write_rows_sound_disk (servers : list dict) :
  forall n written body,
    Forall2 (fun server row => export_row server = Ret row) servers body ->
    write_rows sound_disk n servers written = (Ret tt, (written ++ body)%list).
Proof.
  induction servers as [| server rest IH]; intros n written body Hb;
    inversion Hb as [| ? row ? body' Hr Hb']; subst; cbn [write_rows].
  - now rewrite app_nil_r.
  - rewrite Hr. cbn [write_row sound_disk].
    rewrite (IH (S n) (written ++ [row])%list body' Hb').
    now rewrite <- app_assoc.
Qed.

Lemma write_rows_stops (dk : disk) (pre : list dict) (server : dict)
      (post : list dict) (e : exn) :
  (forall n, write_row dk n = None) ->
  export_row server = Raise e ->
  forall n written body,
    Forall2 (fun server row => export_row server = Ret row) pre body ->
    write_rows dk n (pre ++ server :: post) written
    = (Raise e, (written ++ body)%list).
Proof.
  intros Hdk He. induction pre as [| s pre IH]; intros n written body Hb;
    inversion Hb as [| ? row ? body' Hr Hb']; subst; cbn [app write_rows].
  - now rewrite He, app_nil_r.
  - rewrite Hr, Hdk, (IH (S n) (written ++ [row])%list body' Hb').
    now rewrite <- app_assoc.
Qed.

Lemma export_row_cells (server : dict) (row : list pyval) :
  export_row server = Ret row ->
  List.length row = List.length headers
  /\ forall i header,
       nth_error headers i = Some header -> header <> "protocol" ->
       nth_error row i = Some (dict_get_default server header (VStr "")).
Proof.
  unfold export_row.
  destruct (negb (dict_mem server "protocol")
            || negb (is_str (dict_get server "protocol"))).
  - destruct (dict_get_default server "hostname" (VStr "")) eqn:Eh;
      try discriminate.
    cbn [bind]. intros [= <-]. split; [reflexivity |].
    intros i header Hi Hp.
    do 14 (destruct i as [| i];
           [injection Hi as <-; try reflexivity; now contradiction Hp |]).
    destruct i; discriminate.
  - cbn [bind]. intros [= <-]. split; [reflexivity |].
    intros i header Hi Hp.
    do 14 (destruct i as [| i];
           [injection Hi as <-; try reflexivity; now contradiction Hp |]).
    destruct i; discriminate.
Qed.

(** [export_to_csv] writes nothing and returns [False] for an empty list.
    When it returns [True] the file holds the header row and then one row
    per server, in the order of the list; a row has one cell per header, and
    the cell of every header but "protocol" is the server's entry under that
    header, the empty string when it has none, so that entries under other
    keys are left out.  On a disk that does not fail it returns [True]
    whenever every server yields a row. *)
Theorem export_to_csv_complete :
  (forall dk filename, export_to_csv dk [] filename = (false, None))
  /\ (forall dk servers filename file,
        export_to_csv dk servers filename = (true, file) ->
        exists body,
          file = Some (map VStr headers :: body)
          /\ Forall2 (fun server row => export_row server = Ret row) servers body)
  /\ (forall server row,
        export_row server = Ret row ->
        List.length row = List.length headers
        /\ forall i header,
             nth_error headers i = Some header -> header <> "protocol" ->
             nth_error row i = Some (dict_get_default server header (VStr "")))
  /\ (forall servers filename body,
        servers <> [] ->
        Forall2 (fun server row => export_row server = Ret row) servers body ->
        export_to_csv sound_disk servers filename
        = (true, Some (map VStr headers :: body))).
Proof.
  split; [reflexivity |]. split; [| split; [exact export_row_cells |]].
  - intros dk servers filename file. unfold export_to_csv.
    destruct servers as [| s servers]; [discriminate |].
    destruct (open_file dk filename); [discriminate |].
    destruct (write_row dk 0); [discriminate |].
    destruct (write_rows dk 1 (s :: servers) [map VStr headers])
      as [[[] | e] written] eqn:E; [| discriminate].
    destruct (close_file dk); [discriminate |].
    intros [= <-]. apply write_rows_ok in E. destruct E as (body & -> & Hb).
    now exists body.
  - intros servers filename body Hne Hb. unfold export_to_csv.
    destruct servers as [| s servers]; [contradiction |].
    cbn [open_file write_row close_file sound_disk].
    now rewrite (write_rows_sound_disk (s :: servers) 1 _ body Hb).
Qed.

Lemma export_to_csv_complete_witness :
  export_to_csv sound_disk
    [[("hostname", VStr "se-got-ovpn-001"); ("latency", VFloat 23.4);
      ("treeview_item", VStr "I001")]]
    "results.csv"
  = (true,
     Some [map VStr headers;
           [VStr "se-got-ovpn-001"; VStr ""; VStr ""; VStr "OpenVPN"; VFloat 23.4;
            VStr ""; VStr ""; VStr ""; VStr ""; VStr ""; VStr ""; VStr "";
            VStr ""; VStr ""]]).
Proof.
  apply (proj2 (proj2 (proj2 export_to_csv_complete))).
  - discriminate.
  - constructor; [reflexivity | constructor].
Defined.

(** The "protocol" cell of a row: a server's own ["protocol"] entry when
    that is a string; otherwise it is made from the host name alone,
    "WireGuard" when the name in lower case ends in "-wg" or contains
    ".wg.", and "OpenVPN" in every other case, whatever the server's
    ["endpoint_data"] says. *)
Theorem export_row_protocol :
  (forall server p,
     dict_lookup server "protocol" = Some (VStr p) ->
     exists row, export_row server = Ret row
                 /\ nth_error row 3 = Some (VStr p))
  /\ (forall server h,
        (forall p, dict_lookup server "protocol" <> Some (VStr p)) ->
        dict_get_default server "hostname" (VStr "") = VStr h ->
        exists row,
          export_row server = Ret row
          /\ nth_error row 3
             = Some (VStr (if endswith (lower h) "-wg" || contains ".wg." (lower h)
                           then "WireGuard" else "OpenVPN"))).
Proof.
  split.
  - intros server p Hp. unfold export_row, dict_mem, dict_get, dict_get_default.
    rewrite Hp. cbn [negb is_str orb bind]. eexists. split; [reflexivity |].
    cbn. unfold dict_get_default. now rewrite Hp.
  - intros server h Hp Hh. unfold export_row.
    assert (E : negb (dict_mem server "protocol")
                || negb (is_str (dict_get server "protocol")) = true).
    { unfold dict_mem, dict_get, dict_get_default.
      destruct (dict_lookup server "protocol") as [v |]; [| reflexivity].
      destruct v; try reflexivity. now contradiction (Hp s). }
    rewrite E, Hh. cbn [bind]. eexists. split; reflexivity.
Qed.

Lemma export_row_protocol_witness :
  serves_wireguard
    [("hostname", VStr "se-got-wg-001");
     ("endpoint_data", VDict [("wireguard", VDict [])])] = true
  /\ exists row,
       export_row [("hostname", VStr "se-got-wg-001");
                   ("endpoint_data", VDict [("wireguard", VDict [])])] = Ret row
       /\ nth_error row 3 = Some (VStr "OpenVPN").
Proof.
  split; [reflexivity |].
  apply (proj2 export_row_protocol
           [("hostname", VStr "se-got-wg-001");
            ("endpoint_data", VDict [("wireguard", VDict [])])] "se-got-wg-001").
  - intros p. discriminate.
  - reflexivity.
Defined.

(** [export_to_csv] never hands an exception on.  When the file cannot be
    opened it returns [False] and writes nothing.  A server without a string
    ["protocol"] whose ["hostname"] is no string ends the export: the call
    returns [False], and the file is left with the header row and the rows
    of the servers before that one. *)
Theorem export_to_csv_stops :
  (forall dk servers filename e,
     open_file dk filename = Some e ->
     export_to_csv dk servers filename = (false, None))
  /\ (forall server v,
        (forall p, dict_lookup server "protocol" <> Some (VStr p)) ->
        dict_lookup server "hostname" = Some v -> is_str v = false ->
        export_row server = Raise AttributeError)
  /\ (forall dk pre server post filename body e,
        open_file dk filename = None ->
        (forall n, write_row dk n = None) ->
        Forall2 (fun server row => export_row server = Ret row) pre body ->
        export_row server = Raise e ->
        export_to_csv dk (pre ++ server :: post) filename
        = (false, Some (map VStr headers :: body))).
Proof.
  split; [| split].
  - intros dk servers filename e Ho. unfold export_to_csv.
    destruct servers; [reflexivity |]. now rewrite Ho.
  - intros server v Hp Hh Hv. unfold export_row.
    assert (E : negb (dict_mem server "protocol")
                || negb (is_str (dict_get server "protocol")) = true).
    { unfold dict_mem, dict_get, dict_get_default.
      destruct (dict_lookup server "protocol") as [w |]; [| reflexivity].
      destruct w; try reflexivity. now contradiction (Hp s). }
    rewrite E. unfold dict_get_default. rewrite Hh.
    destruct v; try reflexivity. discriminate.
  - intros dk pre server post filename body e Ho Hw Hb He.
    unfold export_to_csv.
    destruct (pre ++ server :: post)%list eqn:El; [now destruct pre |].
    rewrite <- El, Ho, Hw.
    now rewrite (write_rows_stops dk pre server post e Hw He 1 _ body Hb).
Qed.

Lemma export_to_csv_stops_witness :
  export_to_csv sound_disk
    [[("hostname", VStr "se-got-ovpn-001")]; [("hostname", VNone)];
     [("hostname", VStr "se-got-ovpn-002")]]
    "results.csv"
  = (false,
     Some [map VStr headers;
           [VStr "se-got-ovpn-001"; VStr ""; VStr ""; VStr "OpenVPN"; VStr "";
            VStr ""; VStr ""; VStr ""; VStr ""; VStr ""; VStr ""; VStr "";
            VStr ""; VStr ""]]).
Proof.
  apply (proj2 (proj2 export_to_csv_stops) sound_disk
           [[("hostname", VStr "se-got-ovpn-001")]] [("hostname", VNone)]
           [[("hostname", VStr "se-got-ovpn-002")]] "results.csv" _ AttributeError).
  - reflexivity.
  - reflexivity.
  - constructor; [reflexivity | constructor].
  - reflexivity.
Defined.

(** ** The speed prober: sockets and the stop event *)

Section Sockets.
Variable net : network.
Variable has_stop : bool.

Lemma try_ports_closes fuel ip duration chunk_size (ports : list Z) :
  forall st out st',
    try_ports net has_stop fuel ip ports duration chunk_size st = Some (out, st') ->
    exists n,
      sockets st' = (sockets st + n)%nat
      /\ closes st' = (closes st + sockets_made net (sockets st) n)%nat
      /\ List.length (connects st')
         = (List.length (connects st) + sockets_made net (sockets st) n)%nat.
Proof.
  induction ports as [| port ports IH]; intros st out st' H; cbn [try_ports] in H.
  - injection H as _ <-. exists 0%nat. cbn. lia.
  - destruct (stop_requested_sockets net has_stop st) as (_ & Hs2 & Hs3 & Hs4).
    destruct (stop_requested net has_stop st) as [[] st1]; cbn [snd] in Hs2, Hs3, Hs4.
    { injection H as _ <-. exists 0%nat. rewrite Hs2, Hs3, Hs4. cbn. lia. }
    destruct (_execute_socket_ping_pong net has_stop fuel ip port duration
                chunk_size st1) as [[[[dl ul] | e] st2] |] eqn:He;
      [| | discriminate].
    + apply execute_sockets in He as (_ & _ & _ & H2 & H3).
      rewrite Hs2, Hs3, Hs4 in *.
      assert (Hone : closes st2 = (closes st + sockets_made net (sockets st) 1)%nat
                     /\ List.length (connects st2)
                        = (List.length (connects st)
                           + sockets_made net (sockets st) 1)%nat).
      { cbn [sockets_made]. destruct (socket net (sockets st)).
        - destruct H3 as (_ & -> & ->). lia.
        - destruct H3 as (-> & ->). rewrite length_app. cbn. lia. }
      destruct dl as [dl |], ul as [ul |];
        try (injection H as _ <-; exists 1%nat; split; [lia | exact Hone]).
      destruct (IH _ _ _ H) as (n & Hn1 & Hn2 & Hn3). exists (S n).
      rewrite H2 in *. split; [lia |]. cbn [sockets_made] in *.
      destruct (socket net (sockets st)); lia.
    + apply execute_raise in He as (_ & H2 & H3 & H4).
      injection H as _ <-. exists 0%nat. rewrite H2, H3, H4, Hs2, Hs3, Hs4.
      cbn. lia.
Qed.

End Sockets.

(** No socket is left open.  A session of [_execute_socket_ping_pong]
    that returns has called [socket.socket()] once.  When that gave a socket,
    the session has made one connection attempt, to its own port, and has
    closed the socket once, however the session went; when it raised, nothing
    was connected and nothing closed (there is no socket: [if sock:]), and
    the session reports [(None, None)].  A session that raises has not asked
    for a socket.  When [run_socket_ping_pong_test] is over, as many sockets
    have been closed as were made, and as many connections attempted. *)
Theorem sockets_are_closed (net : network) (has_stop : bool) :
  (forall fuel ip port duration chunk_size st speeds st',
     _execute_socket_ping_pong net has_stop fuel ip port duration chunk_size st
     = Some (Ret speeds, st') ->
     sockets st' = S (sockets st)
     /\ match socket net (sockets st) with
        | Some _ =>
            speeds = (None, None)
            /\ connects st' = connects st /\ closes st' = closes st
        | None =>
            connects st' = (connects st ++ [(ip, port)])%list
            /\ closes st' = S (closes st)
        end)
  /\ (forall fuel ip port duration chunk_size st e st',
        _execute_socket_ping_pong net has_stop fuel ip port duration chunk_size st
        = Some (Raise e, st') ->
        sockets st' = sockets st /\ connects st' = connects st
        /\ closes st' = closes st)
  /\ (forall fuel srv duration chunk_size ports st out st',
        run_socket_ping_pong_test net has_stop fuel srv duration chunk_size ports st
        = Some (out, st') ->
        exists n,
          sockets st' = (sockets st + n)%nat
          /\ closes st' = (closes st + sockets_made net (sockets st) n)%nat
          /\ List.length (connects st')
             = (List.length (connects st) + sockets_made net (sockets st) n)%nat).
Proof.
  split; [| split].
  - intros fuel ip port duration chunk_size st speeds st' H.
    apply execute_sockets in H. tauto.
  - intros fuel ip port duration chunk_size st e st' H.
    apply execute_raise in H. tauto.
  - intros fuel srv duration chunk_size ports st out st'.
    unfold run_socket_ping_pong_test.
    destruct (negb (truthy (dict_get srv "ipv4_addr_in")));
      [| apply try_ports_closes].
    intros [= _ <-]. exists 0%nat. cbn. lia.
Qed.

Lemma sockets_are_closed_witness :
  exists st',
    run_socket_ping_pong_test crowded_network false 10
      [("hostname", VStr "se-got-wg-001"); ("ipv4_addr_in", VStr "192.0.2.1")]
      5 8192 DEFAULT_PORTS io_start
    = Some (Ret (None, None), st')
    /\ sockets st' = 4%nat /\ closes st' = 3%nat
    /\ connects st' = attempts (VStr "192.0.2.1") [80; 8080; 51820]
    /\ exists n,
         sockets st' = (sockets io_start + n)%nat
         /\ closes st' = (closes io_start + sockets_made crowded_network 0 n)%nat
         /\ List.length (connects st')
            = (List.length (connects io_start)
               + sockets_made crowded_network 0 n)%nat.
Proof.
  eexists. split; [vm_compute; reflexivity |].
  split; [reflexivity |]. split; [reflexivity |]. split; [reflexivity |].
  apply (proj2 (proj2 (sockets_are_closed crowded_network false)) 10%nat
           [("hostname", VStr "se-got-wg-001"); ("ipv4_addr_in", VStr "192.0.2.1")]
           5 8192 DEFAULT_PORTS io_start (Ret (None, None))).
  vm_compute. reflexivity.
Defined.

Section Stopping.
Variable net : network.

Lemma ping_pong_loop_stopped fuel expected end_time stats st :
  stop_set net (stop_reads st) = true ->
  exists stats' st',
    ping_pong_loop net true (S fuel) expected end_time stats st
    = Some (stats', st')
    /\ total_bytes_sent stats' = total_bytes_sent stats
    /\ total_bytes_received stats' = total_bytes_received stats.
Proof.
  intros Hstop. cbn [ping_pong_loop monotonic].
  destruct (_ <? end_time)%float; [| eauto].
  unfold stop_requested. cbn [stop_reads]. rewrite Hstop.
  eexists _, _. cbn. eauto.
Qed.

Lemma stopped_session fuel ip port duration chunk_size st :
  0 <= chunk_size < 2 ^ 63 ->
  urandom net (urandoms st) = None ->
  socket net (sockets st) = None ->
  0 <= port <= 65535 ->
  connect net (List.length (connects st)) = None ->
  - 2 ^ 1023 < duration < 2 ^ 1023 ->
  stop_set net (stop_reads st) = true ->
  exists st',
    _execute_socket_ping_pong net true (S fuel) (VStr ip) port duration chunk_size st
    = Some (Ret (Some 0%float, Some 0%float), st').
Proof.
  intros Hchunk Hu Hsock Hport Hc Hdur Hstop. unfold _execute_socket_ping_pong.
  destruct (float_of_int_bounded duration Hdur) as [d Hd].
  rewrite (os_urandom_made net chunk_size st Hchunk Hu).
  unfold session_try, sock_socket, sock_connect.
  replace ((0 <=? port) && (port <=? 65535)) with true
    by (symmetry; apply andb_true_iff; split; apply Z.leb_le; lia).
  cbn [monotonic count_urandom sockets connects]. rewrite Hsock, Hc, Hd.
  match goal with
  | |- context [ping_pong_loop net true (S fuel) ?x ?e ?s ?st0] =>
      destruct (ping_pong_loop_stopped fuel x e s st0 Hstop)
        as (stats & st5 & -> & Hs & Hr)
  end.
  cbn [monotonic]. rewrite aggregate_speeds_zero by assumption. eauto.
Qed.

End Stopping.

(** What a stop gives.  When the stop event is found set before a port is
    tried, [run_socket_ping_pong_test] returns [(None, None)] and attempts
    no connection.  When it is first found set inside the session, at the
    first test of the ping-pong loop after the connection was made, the
    session reports [(0.0, 0.0)], whatever the clock says, and the wrapper
    returns that as the result of the port, trying no other.  (The session
    gets that far when [os.urandom] makes the chunk, for which the chunk size
    has to be one it takes, when [socket.socket()] gives a socket and the
    connection to a port from 0 to 65535 is accepted, and when the duration
    is a float.) *)
Theorem stop_event_outcomes (net : network) :
  (forall fuel srv duration chunk_size port rest st,
     truthy (dict_get srv "ipv4_addr_in") = true ->
     stop_set net (stop_reads st) = true ->
     exists st',
       run_socket_ping_pong_test net true fuel srv duration chunk_size
         (port :: rest) st
       = Some (Ret (None, None), st')
       /\ urandoms st' = urandoms st /\ sockets st' = sockets st
       /\ connects st' = connects st)
  /\ (forall fuel srv ip duration chunk_size port rest st,
        dict_get srv "ipv4_addr_in" = VStr ip -> ip <> "" ->
        stop_set net (stop_reads st) = false ->
        stop_set net (S (stop_reads st)) = true ->
        0 <= chunk_size < 2 ^ 63 ->
        urandom net (urandoms st) = None ->
        socket net (sockets st) = None ->
        0 <= port <= 65535 ->
        connect net (List.length (connects st)) = None ->
        - 2 ^ 1023 < duration < 2 ^ 1023 ->
        exists st',
          run_socket_ping_pong_test net true (S fuel) srv duration chunk_size
            (port :: rest) st
          = Some (Ret (Some 0%float, Some 0%float), st')
          /\ connects st' = (connects st ++ [(VStr ip, port)])%list).
Proof.
  split.
  - intros fuel srv duration chunk_size port rest st Hip Hstop.
    unfold run_socket_ping_pong_test. rewrite Hip. cbn [negb try_ports].
    unfold stop_requested. rewrite Hstop. eexists. repeat split.
  - intros fuel srv ip duration chunk_size port rest st Hip Hne Hs0 Hs1 Hchunk
           Hu Hsock Hport Hc Hd.
    unfold run_socket_ping_pong_test. rewrite Hip. cbn [truthy].
    replace (String.eqb ip "") with false by (symmetry; now apply String.eqb_neq).
    cbn [negb try_ports]. unfold stop_requested at 1. rewrite Hs0.
    match goal with
    | |- context [_execute_socket_ping_pong net true (S fuel) _ _ _ _ ?st1] =>
        destruct (stopped_session net fuel ip port duration chunk_size st1 Hchunk
                    Hu Hsock Hport Hc Hd Hs1) as [st' He]
    end.
    rewrite He. exists st'. split; [reflexivity |].
    apply execute_sockets in He as (_ & _ & _ & _ & He).
    cbn [sockets connects] in He. rewrite Hsock in He. tauto.
Qed.

Lemma stop_event_outcomes_witness :
  exists st',
    run_socket_ping_pong_test stopped_network true 1
      [("hostname", VStr "se-got-wg-001"); ("ipv4_addr_in", VStr "192.0.2.1")]
      5 8192 DEFAULT_PORTS io_start
    = Some (Ret (Some 0%float, Some 0%float), st')
    /\ connects st' = (connects io_start ++ [(VStr "192.0.2.1", 443)])%list.
Proof.
  apply (proj2 (stop_event_outcomes stopped_network) 0%nat
           [("hostname", VStr "se-got-wg-001"); ("ipv4_addr_in", VStr "192.0.2.1")]
           "192.0.2.1" 5 8192 443 [80; 8080; 51820] io_start).
  - reflexivity.
  - discriminate.
  - reflexivity.
  - reflexivity.
  - lia.
  - reflexivity.
  - reflexivity.
  - lia.
  - reflexivity.
  - lia.
Defined.




Section Accounting.
Variable net : network.
Variable has_stop : bool.

Lemma recv_loop_bounds (fuel : nat) :
  forall expected got deadline st bytes st',
    0 <= got <= expected ->
    recv_loop net has_stop fuel expected got deadline st = Some (Ret bytes, st') ->
    got <= bytes <= expected.
Proof.
  induction fuel as [| fuel IH]; intros expected got deadline st bytes st' Hg H;
    cbn [recv_loop] in H; [discriminate |].
  destruct (got <? expected); [| injection H as <- _; lia].
  cbn [monotonic] in H.
  destruct (_ <? deadline)%float; [| injection H as <- _; lia].
  destruct (stop_requested net has_stop _) as [[] st2]; [discriminate |].
  destruct (_ <=? 0)%float; [injection H as <- _; lia |].
  unfold sock_recv in H.
  destruct (recv net (recvs _)) as [n | e]; [| discriminate].
  destruct (Z.min n (expected - got) <=? 0) eqn:El; [discriminate |].
  apply Z.leb_gt in El. apply IH in H; lia.
Qed.

Lemma with_round_counted (chunk_size : Z) (stats : loop_stats) (bytes : Z)
      (rtt : float) :
  well_counted chunk_size stats -> 0 <= bytes <= chunk_size ->
  well_counted chunk_size (with_round stats bytes rtt).
Proof.
  unfold well_counted, with_round. cbn.
  intros (H1 & H2 & H3) Hb. rewrite length_app. cbn [List.length].
  destruct (0 <? bytes) eqn:E.
  - apply Z.ltb_lt in E. repeat split; nia.
  - apply Z.ltb_ge in E. repeat split; nia.
Qed.

Lemma ping_pong_loop_counted (fuel : nat) :
  forall chunk_size end_time stats st stats' st',
    0 <= chunk_size ->
    well_counted chunk_size stats ->
    ping_pong_loop net has_stop fuel chunk_size end_time stats st
    = Some (stats', st') ->
    well_counted chunk_size stats'.
Proof.
  induction fuel as [| fuel IH]; intros chunk_size end_time stats st stats' st'
    Hc Hw H; cbn [ping_pong_loop] in H; [discriminate |].
  cbn [monotonic] in H.
  destruct (_ <? end_time)%float; [| now injection H as <- _].
  destruct (stop_requested net has_stop _) as [[] st2];
    [now injection H as <- _ |].
  unfold sock_send in H.
  destruct (send net _) as [sent | e]; [| now injection H as <- _].
  destruct (sent =? 0); [now injection H as <- _ |].
  destruct (recv_loop net has_stop fuel chunk_size 0 _ _) as [[r st6] |] eqn:Hr;
    [| discriminate].
  assert (Hs : well_counted chunk_size (with_sent stats sent)) by exact Hw.
  destruct r as [bytes | e].
  - apply recv_loop_bounds in Hr; [| lia]. cbn [monotonic] in H.
    eapply IH; [exact Hc | | exact H].
    now apply with_round_counted.
  - destruct e; try (now injection H as <- _).
    eapply IH; [exact Hc | exact Hs | exact H].
Qed.

End Accounting.

(** The counters of a session.  Whatever the peer and the clock do, the
    statistics a session ends with are consistent: the exchanges counted
    are at most the rounds that were timed, and the bytes received are at
    least one and at most one chunk for each exchange counted, so that the
    download total never exceeds [chunk_size] times the number of
    exchanges. *)
Theorem session_counters (net : network) (has_stop : bool) :
  forall fuel ip port duration chunk_size st stats speeds st',
    0 <= chunk_size ->
    session_try net has_stop fuel ip port duration chunk_size st
    = Some (Some stats, speeds, st') ->
    well_counted chunk_size stats.
Proof.
  intros fuel ip port duration chunk_size st stats speeds st' Hc.
  unfold session_try. cbn [monotonic].
  destruct (sock_socket net _) as [[e |] st1]; [discriminate |].
  destruct (sock_connect net ip port _) as [[e |] st2]; [discriminate |].
  cbn [monotonic].
  destruct (float_of_int duration) as [d | e]; [| discriminate].
  destruct (ping_pong_loop net has_stop fuel chunk_size _ _ _)
    as [[stats1 st5] |] eqn:Hl; [| discriminate].
  intros [= <- _ _].
  eapply ping_pong_loop_counted; [exact Hc | | exact Hl].
  unfold well_counted, stats_start. cbn. lia.
Qed.

Lemma session_counters_witness :
  exists stats speeds st',
    session_try stalling_network false 100 (VStr "192.0.2.1") 443 5 8192 io_start
    = Some (Some stats, speeds, st')
    /\ well_counted 8192 stats.
Proof.
  eexists _, _, _. split; [vm_compute; reflexivity |].
  eapply (session_counters stalling_network false 100%nat (VStr "192.0.2.1") 443 5
            8192 io_start); [lia |].
  vm_compute. reflexivity.
Defined.

(** ** The pool's counters *)

Lemma counting_set_nth (i : nat) (pc' : worker_pc) :
  forall ws pc, nth_error ws i = Some pc ->
    (counting_pc pc + counting (set_nth i pc' ws) = counting_pc pc' + counting ws)%nat.
Proof.
  unfold counting, list_sum.
  induction i as [| i IH]; intros [| x ws] pc H; cbn in H; try discriminate.
  - injection H as ->. cbn. lia.
  - specialize (IH ws pc H). cbn in *. lia.
Qed.

Lemma counting_le_busy (ws : list worker_pc) : (counting ws <= busy ws)%nat.
Proof.
  unfold counting, busy, list_sum. induction ws as [| pc ws IH]; cbn; [lia |].
  destruct pc; cbn; lia.
Qed.

Lemma counting_repeat_WLoop (k : nat) : counting (repeat WLoop k) = 0%nat.
Proof. unfold counting, list_sum. induction k as [| k IH]; cbn; auto. Qed.

Lemma sort_results_length (l : list probe_result) :
  List.length (sort_results l) = List.length l.
Proof. apply Permutation_length, sort_by_key_perm. Qed.

Section Counters.
Variable cfg : config.

Lemma step_counted (a : action) (s s' : pool) :
  (completed s + counting (workers s) = published s)%nat ->
  step cfg a s = Some s' ->
  (completed s' + counting (workers s') = published s')%nat.
Proof.
  unfold published. intros Hc Hstep.
  destruct a as [i h n | | |]; cbn [step] in Hstep;
    [| | injection Hstep as <-; exact Hc ..].
  - unfold worker_step in Hstep.
    destruct (nth_error (workers s) i) as [pc |] eqn:Hpc; [| discriminate].
    pose proof (fun pc' => counting_set_nth i pc' _ _ Hpc) as Hb.
    destruct pc; cbn [counting_pc] in Hb.
    + injection Hstep as <-. cbn.
      specialize (Hb (if stop_event s then WExited else WPauseCheck)).
      destruct (stop_event s); cbn in Hb; lia.
    + injection Hstep as <-. cbn.
      specialize (Hb (if pause_event s then WLoop else WGet)).
      destruct (pause_event s); cbn in Hb; lia.
    + destruct (server_queue s) as [| srv q].
      * destruct (_ <=? _); injection Hstep as <-; cbn;
          [specialize (Hb WExited) | specialize (Hb WLoop)]; cbn in *; lia.
      * injection Hstep as <-. cbn. specialize (Hb (WGot srv)). cbn in *. lia.
    + destruct (stop_event s); injection Hstep as <-; cbn;
        [specialize (Hb WExited) | specialize (Hb (WProbe srv))]; cbn in *; lia.
    + destruct (fst (get_server_latency h srv _ _)); injection Hstep as <-; cbn;
        [specialize (Hb WCount) | specialize (Hb WTaskDone)]; cbn in *;
        rewrite ?length_app; cbn [List.length]; lia.
    + injection Hstep as <-. cbn. specialize (Hb WTaskDone). cbn in *. lia.
    + injection Hstep as <-. cbn. specialize (Hb WLoop). cbn in *. lia.
    + discriminate.
  - unfold coordinator_step in Hstep.
    destruct (coordinator s) eqn:Eco; try discriminate;
      cbn [collected List.length] in Hc.
    + destruct (stop_event s); injection Hstep as <-; cbn; lia.
    + destruct (Nat.eqb _ _); injection Hstep as <-; cbn; lia.
    + destruct (pause_event s); injection Hstep as <-; cbn; lia.
    + destruct (pause_event s && _); injection Hstep as <-; cbn; lia.
    + destruct (stop_event s); injection Hstep as <-; cbn; lia.
    + destruct (server_queue s); injection Hstep as <-; cbn; lia.
    + destruct (server_queue s); injection Hstep as <-; cbn; lia.
    + destruct (result_queue s) as [| r q] eqn:Hq; injection Hstep as <-; cbn.
      * rewrite ?Hq, sort_results_length. exact Hc.
      * rewrite length_app. cbn [List.length] in *. lia.
Qed.

Lemma run_counted (trace : list action) :
  forall s s',
    (completed s + counting (workers s) = published s)%nat ->
    run cfg trace s = Some s' ->
    (completed s' + counting (workers s') = published s')%nat.
Proof.
  induction trace as [| a trace IH]; intros s s' Hs; cbn [run].
  - now intros [= <-].
  - destruct (step cfg a s) as [s1 |] eqn:E; [| discriminate].
    apply IH. eapply step_counted; eauto.
Qed.

Lemma start_counted (servers : list dict) (stop pause : bool) :
  (completed (start cfg servers stop pause)
   + counting (workers (start cfg servers stop pause))
   = published (start cfg servers stop pause))%nat.
Proof.
  unfold published, start; cbn. destruct servers; cbn; [reflexivity |].
  now rewrite counting_repeat_WLoop.
Qed.

Lemma published_le (servers : list dict) (s : pool) :
  accounted cfg servers s -> (published s <= List.length servers)%nat.
Proof.
  intros (Hinv & _). rewrite <- (Permutation_length Hinv).
  unfold published, inventory. rewrite !length_app, !length_map. lia.
Qed.

Lemma step_raises_attribute_error (a : action) (s s' : pool) :
  (forall e, coordinator s = CRaised e -> e = AttributeError) ->
  step cfg a s = Some s' ->
  forall e, coordinator s' = CRaised e -> e = AttributeError.
Proof.
  intros Hs Hstep e.
  destruct a as [i h n | | |]; cbn [step] in Hstep.
  - unfold worker_step in Hstep.
    destruct (nth_error (workers s) i) as [pc |]; [| discriminate].
    destruct pc;
      repeat match type of Hstep with
        | context [if ?c then _ else _] => destruct c
        | context [match ?x with _ => _ end] => destruct x
        end;
      try discriminate; injection Hstep as <-; cbn; apply Hs.
  - unfold coordinator_step in Hstep.
    destruct (coordinator s) eqn:Hc; try discriminate;
      repeat match type of Hstep with
        | context [if ?c then _ else _] => destruct c
        | context [match ?x with _ => _ end] => destruct x
        end;
      injection Hstep as <-; cbn; try discriminate.
    now intros [= <-].
  - injection Hstep as <-. cbn. apply Hs.
  - injection Hstep as <-. cbn. apply Hs.
Qed.

Lemma run_raises_attribute_error (trace : list action) :
  forall s s',
    (forall e, coordinator s = CRaised e -> e = AttributeError) ->
    run cfg trace s = Some s' ->
    forall e, coordinator s' = CRaised e -> e = AttributeError.
Proof.
  induction trace as [| a trace IH]; intros s s' Hs; cbn [run].
  - now intros [= <-].
  - destruct (step cfg a s) as [s1 |] eqn:E; [| discriminate].
    apply IH. eapply step_raises_attribute_error; eauto.
Qed.

End Counters.

(** The progress counter.  In every run, stopped or not, [completed] plus
    the number of workers that have published a result and not yet counted
    it is the number of published results, and [completed] never exceeds the
    number of servers: the percentage handed to the progress callback is at
    most 100.  When the stop event is never set and [test_servers] returns,
    [completed] is the number of servers. *)
Theorem progress_counter (cfg : config) :
  (forall servers stop pause trace s,
     run cfg trace (start cfg servers stop pause) = Some s ->
     (completed s + counting (workers s) = published s)%nat
     /\ (completed s <= List.length servers)%nat)
  /\ (forall servers pause trace s results,
        never_stops trace ->
        run cfg trace (start cfg servers false pause) = Some s ->
        returned s = Some results ->
        completed s = List.length servers).
Proof.
  split.
  - intros servers stop pause trace s Hrun.
    pose proof (run_counted cfg trace _ _ (start_counted cfg servers stop pause) Hrun)
      as Hc.
    pose proof (published_le cfg servers s
                  (run_accounted cfg servers trace _ _
                     (start_accounted cfg servers stop pause) Hrun)) as Hp.
    split; [exact Hc | lia].
  - intros servers pause trace s results Hns Hrun Hret.
    pose proof (run_counted cfg trace _ _ (start_counted cfg servers false pause) Hrun)
      as Hc.
    pose proof (run_accounted cfg servers trace _ _
                  (start_accounted cfg servers false pause) Hrun) as Ha.
    pose proof (run_undisturbed cfg servers trace Hns _ _
                  (start_accounted cfg servers false pause)
                  (start_undisturbed cfg servers pause) Hrun) as Hu.
    destruct (returned_all cfg servers s results Ha Hu Hret) as (_ & Hlen & _).
    destruct Ha as (_ & Hun & _). destruct Hu as (_ & _ & _ & Hco).
    unfold returned in Hret. unfold published in Hc.
    destruct (coordinator s) eqn:Eco; try discriminate.
    injection Hret as ->. destruct Hco as [Hu0 Hrq].
    pose proof (counting_le_busy (workers s)) as Hle.
    rewrite Hrq in Hc. cbn in Hc. lia.
Qed.

Lemma progress_counter_witness :
  exists s,
    run one_worker stopped_run (start one_worker one_server false false) = Some s
    /\ (completed s + counting (workers s) = published s)%nat
    /\ (completed s <= List.length one_server)%nat.
Proof.
  eexists. split; [vm_compute; reflexivity |].
  apply (proj1 (progress_counter one_worker) one_server false false stopped_run).
  vm_compute. reflexivity.
Defined.



(** When [test_servers] raises.  As long as the stop event is never set
    the call does not raise.  In any run, the only exception it raises is
    the [AttributeError] of the clean-up loop, whose handler names
    [Queue.Empty]; and there is a stopped run that ends in it: a worker
    takes the last queued server between the coordinator's
    [server_queue.empty()] and its [get(block=False)]. *)
Theorem test_servers_raises (cfg : config) :
  (forall servers pause trace s e,
     never_stops trace ->
     run cfg trace (start cfg servers false pause) = Some s ->
     coordinator s <> CRaised e)
  /\ (forall servers stop pause trace s e,
        run cfg trace (start cfg servers stop pause) = Some s ->
        coordinator s = CRaised e -> e = AttributeError)
  /\ (exists s,
        run one_worker drain_race (start one_worker one_server false false) = Some s
        /\ coordinator s = CRaised AttributeError).
Proof.
  split; [| split].
  - intros servers pause trace s e Hns Hrun Hc.
    pose proof (run_undisturbed cfg servers trace Hns _ _
                  (start_accounted cfg servers false pause)
                  (start_undisturbed cfg servers pause) Hrun) as (_ & _ & _ & Hco).
    now rewrite Hc in Hco.
  - intros servers stop pause trace s e Hrun.
    apply (run_raises_attribute_error cfg trace _ _) with (2 := Hrun).
    intros e'. unfold start; cbn. destruct servers; discriminate.
  - eexists. split; [vm_compute; reflexivity | reflexivity].
Qed.

Lemma test_servers_raises_witness :
  never_stops [Worker 0 near_host 3; Coordinator]
  /\ forall e,
       coordinator (set_coordinator CCheck
                      (set_worker 0 WPauseCheck
                         (start one_worker one_server false false)))
       <> CRaised e.
Proof.
  assert (Hns : never_stops [Worker 0 near_host 3; Coordinator])
    by (intros [H | [H | []]]; discriminate).
  split; [exact Hns |]. intros e.
  apply (proj1 (test_servers_raises one_worker) one_server false
           [Worker 0 near_host 3; Coordinator] _ e Hns).
  reflexivity.
Defined.

Section Pause.
Variable cfg : config.

Lemma step_paused (a : action) (s s' : pool) :
  paused s -> a <> SetStop -> a <> SetPause false ->
  step cfg a s = Some s' ->
  paused s' /\ server_queue s' = server_queue s.
Proof.
  intros (Hstop & Hpause & Hw & Hc1 & Hc2) Ha1 Ha2 Hstep.
  destruct a as [i h n | | | b]; cbn [step] in Hstep.
  - unfold worker_step in Hstep.
    destruct (nth_error (workers s) i) as [pc |] eqn:Hpc; [| discriminate].
    assert (Hne : pc <> WGet).
    { rewrite Forall_forall in Hw. apply Hw. eapply nth_error_In; eauto. }
    rewrite Hstop, Hpause in Hstep.
    destruct pc; try contradiction; try discriminate;
      try (destruct (fst (get_server_latency h srv _ _)));
      injection Hstep as <-; unfold paused; cbn;
      (repeat split; auto; apply Forall_set_nth; auto; discriminate).
  - unfold coordinator_step in Hstep. rewrite Hstop, Hpause in Hstep.
    destruct (coordinator s) eqn:Hc; try contradiction; try discriminate;
      try (destruct (Nat.eqb _ _));
      try (destruct (result_queue s));
      injection Hstep as <-; unfold paused; cbn;
      repeat split; auto; discriminate.
  - contradiction.
  - destruct b; [| contradiction]. injection Hstep as <-.
    unfold paused; cbn. repeat split; auto.
Qed.

Lemma run_paused (trace : list action) :
  ~ In SetStop trace -> ~ In (SetPause false) trace ->
  forall s s', paused s -> run cfg trace s = Some s' ->
    paused s' /\ server_queue s' = server_queue s.
Proof.
  induction trace as [| a trace IH]; intros H1 H2 s s' Hp; cbn [run].
  - intros [= <-]. auto.
  - destruct (step cfg a s) as [s1 |] eqn:E; [| discriminate].
    intros Hrun.
    destruct (step_paused a s s1 Hp) as [Hp1 Hq1]; auto.
    { intros ->. apply H1. now left. }
    { intros ->. apply H2. now left. }
    destruct (IH (fun H => H1 (or_intror H)) (fun H => H2 (or_intror H))
                s1 s' Hp1 Hrun) as [Hp' Hq'].
    split; [exact Hp' | congruence].
Qed.

End Pause.

(** What the pause event does.  In a run in which the stop event is never
    set, once the pause event is set and no worker is about to dequeue, the
    server queue stays as it is for as long as the pause event is not
    cleared: no server is taken.  The pause does not take hold at once: a
    worker that has passed its pause test takes one more server after the
    event was set. *)
Theorem pause_holds_queue (cfg : config) :
  (forall servers pause t0 s trace s',
     never_stops t0 ->
     run cfg t0 (start cfg servers false pause) = Some s ->
     pause_event s = true ->
     Forall (fun pc => pc <> WGet) (workers s) ->
     never_stops trace -> ~ In (SetPause false) trace ->
     run cfg trace s = Some s' ->
     server_queue s' = server_queue s /\ pause_event s' = true)
  /\ (exists s s',
        run one_worker [Worker 0 near_host 3; Worker 0 near_host 3; SetPause true]
          (start one_worker one_server false false) = Some s
        /\ pause_event s = true /\ server_queue s = one_server
        /\ step one_worker (Worker 0 near_host 3) s = Some s'
        /\ server_queue s' = []).
Proof.
  split.
  - intros servers pause t0 s trace s' Hns0 Hrun0 Hpause Hw Hns Hnp Hrun.
    pose proof (run_undisturbed cfg servers t0 Hns0 _ _
                  (start_accounted cfg servers false pause)
                  (start_undisturbed cfg servers pause) Hrun0)
      as (Hstop & _ & _ & Hco).
    assert (Hp : paused s).
    { repeat split; auto; intros E; now rewrite E in Hco. }
    destruct (run_paused cfg trace Hns Hnp s s' Hp Hrun) as [(_ & Hp' & _) Hq].
    auto.
  - eexists _, _. split; [vm_compute; reflexivity |].
    repeat split; reflexivity.
Qed.

Lemma pause_holds_queue_witness :
  exists s',
    run one_worker [Worker 0 near_host 3; Coordinator; Coordinator; Coordinator]
      (set_events false true
         (set_worker 0 WPauseCheck (start one_worker one_server false false)))
    = Some s'
    /\ server_queue s' = one_server /\ pause_event s' = true.
Proof.
  eexists. split; [vm_compute; reflexivity |].
  apply (proj1 (pause_holds_queue one_worker) one_server false
           [Worker 0 near_host 3; SetPause true]
           (set_events false true
              (set_worker 0 WPauseCheck (start one_worker one_server false false)))
           [Worker 0 near_host 3; Coordinator; Coordinator; Coordinator]).
  - intros [H | [H | []]]; discriminate.
  - reflexivity.
  - reflexivity.
  - repeat constructor. discriminate.
  - intros [H | [H | [H | [H | []]]]]; discriminate.
  - intros [H | [H | [H | [H | []]]]]; discriminate.
  - vm_compute. reflexivity.
Defined.

(** ** The order of equal latencies *)

Lemma eqb_leb (x k : float) :
  (x =? k)%float = true ->
  (x <=? k)%float = true /\ (k <=? x)%float = true.
Proof.
  rewrite eqb_spec, !leb_spec. unfold SFeqb, SFleb.
  rewrite (SFcompare_antisym (Prim2SF x) (Prim2SF k)).
  destruct (SFcompare (Prim2SF x) (Prim2SF k)) as [[] |]; cbn;
    try discriminate; auto.
Qed.

Lemma ltb_not_eqb (x y k : float) :
  (y <? x)%float = true -> (x =? k)%float = true -> (y =? k)%float = false.
Proof.
  intros Hlt Hx. destruct (y =? k)%float eqn:Hy; [| reflexivity].
  apply eqb_leb in Hx, Hy. destruct Hx as [Hxk _], Hy as [_ Hky].
  pose proof (leb_trans _ _ _ Hxk Hky) as Hxy.
  apply ltb_leb_false in Hlt. congruence.
Qed.

Section Stable.
Context {A : Type}.
Variable key : A -> float.
Variable p : A -> bool.
Hypothesis p_key :
  forall x y, (key y <? key x)%float = true -> p x = true -> p y = false.

Lemma insert_by_key_filter (x : A) (l : list A) :
  List.filter p (insert_by_key key x l) = List.filter p (x :: l).
Proof.
  induction l as [| y l IH]; [reflexivity |]. cbn [insert_by_key].
  destruct (key y <? key x)%float eqn:E; [| reflexivity].
  cbn [List.filter] in *. rewrite IH.
  destruct (p x) eqn:Ex; [| reflexivity].
  now rewrite (p_key x y E Ex).
Qed.

Lemma sort_by_key_filter (l : list A) :
  List.filter p (sort_by_key key l) = List.filter p l.
Proof.
  induction l as [| x l IH]; [reflexivity |]. cbn [sort_by_key].
  rewrite insert_by_key_filter. cbn [List.filter]. now rewrite IH.
Qed.

End Stable.

(** The sort of [test_servers] is stable.  When no latency is a NaN, the
    returned list keeps, among the results whose keys compare equal, the
    order in which the results were collected; in particular the results
    without a latency come in the order of their collection. *)
Theorem sort_results_stable (results : list probe_result) :
  Forall (ordered latency_key) results ->
  (forall k, List.filter (keyed k) (sort_results results)
             = List.filter (keyed k) results)
  /\ List.filter failed (sort_results results) = List.filter failed results.
Proof.
  intros _. split.
  - intros k. apply sort_by_key_filter. intros x y. unfold keyed.
    apply ltb_not_eqb.
  - apply sort_by_key_filter. intros x y. unfold failed, latency_key.
    destruct (latency x); [discriminate |].
    destruct (latency y); [reflexivity |]. discriminate.
Qed.

Lemma sort_results_stable_witness :
  Forall (ordered latency_key)
         ({| server := [("hostname", VStr "d")]; latency := None |} :: sample_results)
  /\ List.filter failed
       (sort_results
          ({| server := [("hostname", VStr "d")]; latency := None |} :: sample_results))
     = [ {| server := [("hostname", VStr "d")]; latency := None |};
         {| server := [("hostname", VStr "a")]; latency := None |} ].
Proof.
  assert (H : Forall (ordered latency_key)
                ({| server := [("hostname", VStr "d")]; latency := None |}
                 :: sample_results))
    by (repeat constructor).
  split; [exact H |].
  rewrite (proj2 (sort_results_stable _ H)). reflexivity.
Defined.

(** ** The latency prober, end to end *)

Lemma py_float_raises (s : string) (e : exn) :
  py_float s = Raise e -> e = ValueError.
Proof.
  unfold py_float. destruct (sign (float_strip s)) as [neg body].
  destruct (String.eqb (lower body) "inf" || String.eqb (lower body) "infinity");
    [discriminate |].
  destruct (String.eqb (lower body) "nan"); [discriminate |].
  destruct (number body) as [[[m k] r] |]; [| congruence].
  destruct (exponent r) as [x [| c rest]]; congruence.
Qed.

(** [parse_unix_ping] raises nothing but [ValueError], and that only on an
    output in which the rtt pattern occurs with an average field that is no
    float literal, such as "1.2.3"; on every other output it returns. *)
Theorem parse_unix_ping_raises (out : string) (e : exn) :
  parse_unix_ping out = Raise e ->
  e = ValueError
  /\ exists pre a b c d post,
       out = pre ++ rtt_line a b c d ++ post
       /\ rtt_field b /\ py_float b = Raise ValueError.
Proof.
  unfold parse_unix_ping.
  destruct (re_search rtt_regex out) as [m |] eqn:Hs; [| discriminate].
  destruct (re_search_sound _ _ _ Hs) as (pre & w & post & -> & Hw).
  destruct (matches_rtt_inv _ _ Hw) as (a & b & c & d & -> & -> & _ & Hb & _).
  cbn [group1]. destruct (py_float b) as [v |] eqn:Hv; cbn [bind];
    [discriminate |].
  intros [= <-]. pose proof (py_float_raises _ _ Hv) as ->.
  split; [reflexivity |]. exists pre, a, b, c, d, post. auto.
Qed.

Lemma parse_unix_ping_raises_witness :
  parse_unix_ping "rtt min/avg/max/mdev = 1.0/1.2.3/2.0/0.1 ms" = Raise ValueError
  /\ exists pre a b c d post,
       "rtt min/avg/max/mdev = 1.0/1.2.3/2.0/0.1 ms"
       = pre ++ rtt_line a b c d ++ post
       /\ rtt_field b /\ py_float b = Raise ValueError.
Proof.
  assert (H : parse_unix_ping "rtt min/avg/max/mdev = 1.0/1.2.3/2.0/0.1 ms"
              = Raise ValueError) by (vm_compute; reflexivity).
  split; [exact H |].
  exact (proj2 (parse_unix_ping_raises _ _ H)).
Defined.

(** One probe, one ping.  For a server with a non-empty string address
    [get_server_latency] runs exactly one process: [ping -c count -W t ip],
    or on Windows [ping -n count -w (t * 1000) ip], where t is half the
    timeout, rounded down, and the process is given t + 2 seconds.  When the
    process exits with code 0 the latency is what the platform's parser makes
    of its standard output, [None] when the parser raises. *)
Theorem probe_runs_one_ping (h : host) (srv : dict) (ip : string)
        (count timeout : Z) :
  dict_get srv "ipv4_addr_in" = VStr ip -> ip <> "" ->
  let t := timeout / 2 in
  let windows := String.eqb (lower (system h)) "windows" in
  let cmd :=
    if windows
    then ["ping"; "-n"; str_of_int count; "-w"; str_of_int (t * 1000); ip]
    else ["ping"; "-c"; str_of_int count; "-W"; str_of_int t; ip] in
  snd (get_server_latency h srv count timeout) = [(cmd, t + 2)]
  /\ forall stdout stderr,
       subprocess_run h cmd (t + 2) = Completed 0 stdout stderr ->
       fst (get_server_latency h srv count timeout)
       = Ret {| server := srv;
                latency :=
                  match (if windows then parse_windows_ping else parse_unix_ping)
                          stdout with
                  | Ret v => v
                  | Raise _ => None
                  end |}.
Proof.
  intros Hip Hne t windows cmd. unfold get_server_latency. rewrite Hip.
  cbn [truthy]. apply String.eqb_neq in Hne. rewrite Hne. cbn [negb].
  unfold ping_test. cbn [truthy]. rewrite Hne. cbn [negb].
  unfold ping_try, ping_command. fold t. fold windows.
  destruct windows; fold cmd.
  - split.
    + destruct (subprocess_run h cmd (t + 2)) as [rc out err | e].
      * destruct (negb (rc =? 0)); [reflexivity |].
        destruct (parse_windows_ping out) as [v | []]; reflexivity.
      * destruct e; reflexivity.
    + intros stdout stderr ->. cbn [Z.eqb negb].
      destruct (parse_windows_ping stdout) as [v | []]; reflexivity.
  - split.
    + destruct (subprocess_run h cmd (t + 2)) as [rc out err | e].
      * destruct (negb (rc =? 0)); [reflexivity |].
        destruct (parse_unix_ping out) as [v | []]; reflexivity.
      * destruct e; reflexivity.
    + intros stdout stderr ->. cbn [Z.eqb negb].
      destruct (parse_unix_ping stdout) as [v | []]; reflexivity.
Qed.

Lemma probe_runs_one_ping_witness :
  get_server_latency near_host
    [("hostname", VStr "se-got-wg-001"); ("ipv4_addr_in", VStr "192.0.2.1")] 3 10
  = (Ret {| server := [("hostname", VStr "se-got-wg-001");
                       ("ipv4_addr_in", VStr "192.0.2.1")];
            latency := Some 12%float |},
     [(["ping"; "-c"; "3"; "-W"; "5"; "192.0.2.1"], 7)]).
Proof.
  destruct (probe_runs_one_ping near_host
              [("hostname", VStr "se-got-wg-001"); ("ipv4_addr_in", VStr "192.0.2.1")]
              "192.0.2.1" 3 10 eq_refl) as [Hcalls Hlat]; [discriminate |].
  specialize (Hlat _ _ eq_refl).
  rewrite (surjective_pairing (get_server_latency _ _ _ _)), Hcalls, Hlat.
  vm_compute. reflexivity.
Defined.

(** ** Colours *)

Lemma ltb_nan_l (x : float) : (nan <? x)%float = false.
Proof. rewrite ltb_spec. reflexivity. Qed.

Lemma ltb_nan_r (x : float) : (x <? nan)%float = false.
Proof.
  rewrite ltb_spec. change (Prim2SF nan) with S754_nan.
  destruct (Prim2SF x) as [[] | [] | | [] m e]; reflexivity.
Qed.

Lemma eqb_infinity (x : float) : (x =? infinity)%float = true -> x = infinity.
Proof.
  rewrite eqb_spec. change (Prim2SF infinity) with (S754_infinity false).
  destruct (Prim2SF x) as [[] | [] | | [] m e] eqn:E; cbn; try discriminate.
  intros _. apply Prim2SF_inj. now rewrite E.
Qed.

Lemma ltb_not_infinity (x y : float) :
  (x <? y)%float = true -> (x =? infinity)%float = false.
Proof.
  intros H. destruct (x =? infinity)%float eqn:E; [| reflexivity].
  apply eqb_infinity in E. subst x. rewrite ltb_spec in H.
  change (Prim2SF infinity) with (S754_infinity false) in H.
  destruct (Prim2SF y) as [[] | [] | | [] m e]; discriminate.
Qed.

Lemma leb_not_ltb (x y z : float) :
  (y <=? z)%float = true -> (z <=? x)%float = true -> (x <? y)%float = false.
Proof.
  intros Hyz Hzx. destruct (x <? y)%float eqn:E; [| reflexivity].
  apply ltb_leb_false in E. now rewrite (leb_trans _ _ _ Hyz Hzx) in E.
Qed.

(** The first character of a number in hexadecimal is no capital letter. *)
Lemma format_02x_head (n : Z) :
  exists c rest, format_02x n = String c rest /\ c <> "A"%char.
Proof.
  unfold format_02x. destruct (n <? 0).
  - eexists _, _. split; [reflexivity | discriminate].
  - cbv zeta. destruct (String.length (hex n) <? 2)%nat.
    + eexists _, _. split; [reflexivity | discriminate].
    + unfold hex, HexadecimalString.NilZero.string_of_uint.
      destruct (N.to_hex_uint (Z.to_N n));
        eexists _, _; (split; [reflexivity | discriminate]).
Qed.

Lemma gradient_not_gray (r0 dr g0 dg b0 db ratio : float) :
  gradient r0 dr g0 dg b0 db ratio <> Ret "#AAAAAA".
Proof.
  unfold gradient.
  destruct (int_of_float _) as [r |]; cbn [bind]; [| discriminate].
  destruct (int_of_float _) as [g |]; cbn [bind]; [| discriminate].
  destruct (int_of_float _) as [b |]; cbn [bind]; [| discriminate].
  destruct (format_02x_head r) as (c & rest & -> & Hc).
  cbn [append]. intros [= E _]. now apply Hc.
Qed.

(** The bands of [calculate_latency_color].  Gray is the colour of a
    missing latency and of [+inf], and of nothing else; every latency below
    50, negative ones and [-inf] included, is green "#63BE7B"; every latency
    from 250 on is red "#F8696B", and so is a NaN. *)
Theorem latency_color_bands :
  (forall latency,
     calculate_latency_color latency = Ret "#AAAAAA"
     <-> latency = None \/ latency = Some infinity)
  /\ (forall x, (x <? 50)%float = true ->
        calculate_latency_color (Some x) = Ret "#63BE7B")
  /\ (forall x, (250 <=? x)%float = true -> x <> infinity ->
        calculate_latency_color (Some x) = Ret "#F8696B")
  /\ calculate_latency_color (Some nan) = Ret "#F8696B".
Proof.
  split; [| split; [| split; [| reflexivity]]].
  - intros [x |]; [| split; auto]. split.
    + cbn [calculate_latency_color].
      destruct (x =? infinity)%float eqn:E;
        [intros _; right; f_equal; now apply eqb_infinity |].
      destruct (x <? 50)%float; [discriminate |].
      destruct (x <? 125)%float.
      { unfold float_truediv. cbn [bind].
        replace (75 =? 0)%float with false by reflexivity.
        intros H. now apply gradient_not_gray in H. }
      destruct (x <? 250)%float; [| discriminate].
      unfold float_truediv. replace (125 =? 0)%float with false by reflexivity.
      cbn [bind]. intros H. now apply gradient_not_gray in H.
    + intros [H | H]; [discriminate |]. injection H as ->. reflexivity.
  - intros x Hx. cbn [calculate_latency_color].
    now rewrite (ltb_not_infinity x 50 Hx), Hx.
  - intros x Hx Hinf. cbn [calculate_latency_color].
    destruct (x =? infinity)%float eqn:E;
      [apply eqb_infinity in E; contradiction |].
    rewrite (leb_not_ltb x 50 250), (leb_not_ltb x 125 250),
      (leb_not_ltb x 250 250); auto.
Qed.

Lemma latency_color_bands_witness :
  (-3 <? 50)%float = true
  /\ calculate_latency_color (Some (-3)%float) = Ret "#63BE7B".
Proof.
  split; [reflexivity |].
  exact (proj1 (proj2 latency_color_bands) (-3)%float eq_refl).
Defined.

Lemma Prim2SF_nan_sub (x y : float) :
  Prim2SF x = S754_nan -> Prim2SF (x - y) = S754_nan.
Proof. intros H. now rewrite sub_spec, H. Qed.

Lemma Prim2SF_nan_div (x y : float) :
  Prim2SF x = S754_nan -> Prim2SF (x / y) = S754_nan.
Proof. intros H. now rewrite div_spec, H. Qed.

Lemma Prim2SF_nan_mul_r (x y : float) :
  Prim2SF y = S754_nan -> Prim2SF (x * y) = S754_nan.
Proof.
  intros H. rewrite mul_spec, H.
  destruct (Prim2SF x) as [[] | [] | | [] m e]; reflexivity.
Qed.

Lemma Prim2SF_nan_add_r (x y : float) :
  Prim2SF y = S754_nan -> Prim2SF (x + y) = S754_nan.
Proof.
  intros H. rewrite add_spec, H.
  destruct (Prim2SF x) as [[] | [] | | [] m e]; reflexivity.
Qed.

Lemma gradient_nan (r0 dr g0 dg b0 db ratio : float) :
  Prim2SF ratio = S754_nan ->
  gradient r0 dr g0 dg b0 db ratio = Raise ValueError.
Proof.
  intros H. unfold gradient, int_of_float.
  now rewrite (Prim2SF_nan_add_r r0 _ (Prim2SF_nan_mul_r dr _ H)).
Qed.

(** The two zeros are the floats that equal [0.0]. *)
Lemma eqb_zero (x : float) :
  (x =? 0)%float = true -> x = 0%float \/ x = (-0)%float.
Proof.
  rewrite eqb_spec. change (Prim2SF 0) with (S754_zero false).
  destruct (Prim2SF x) as [[] | [] | | [] m e] eqn:E; cbn; try discriminate;
    intros _; [right | left]; apply Prim2SF_inj; now rewrite E.
Qed.

(** Where [calculate_speed_color] raises.  A NaN speed makes it raise for
    every [max_expected_speed]: a [ValueError] from [int], or a
    [ZeroDivisionError] before that.  With a [max_expected_speed] of zero
    every speed from 0.0 on, [+inf] apart, ends in a [ZeroDivisionError]. *)
Theorem speed_color_raises :
  (forall max_expected_speed,
     calculate_speed_color (Some nan) max_expected_speed = Raise ValueError
     \/ calculate_speed_color (Some nan) max_expected_speed
        = Raise ZeroDivisionError)
  /\ (forall speed max_expected_speed,
        (max_expected_speed =? 0)%float = true ->
        (0 <=? speed)%float = true -> speed <> infinity ->
        calculate_speed_color (Some speed) max_expected_speed
        = Raise ZeroDivisionError).
Proof.
  split.
  - intros mx. cbn [calculate_speed_color].
    replace (nan =? infinity)%float with false by reflexivity.
    unfold py_min. rewrite ltb_nan_r, !ltb_nan_l. unfold float_truediv.
    destruct (mx * (1.0 - 0.6) =? 0)%float; [now right |]. left.
    cbn [bind]. apply gradient_nan.
    apply Prim2SF_nan_div, Prim2SF_nan_sub. reflexivity.
  - intros speed mx Hmx Hs Hinf. cbn [calculate_speed_color].
    destruct (speed =? infinity)%float eqn:E;
      [apply eqb_infinity in E; contradiction |].
    assert (Hmin : py_min speed mx = 0%float \/ py_min speed mx = (-0)%float).
    { unfold py_min. destruct (mx <? speed)%float eqn:El;
        [now apply eqb_zero |].
      apply eqb_zero. rewrite eqb_spec. rewrite leb_spec in Hs.
      rewrite ltb_spec in El. rewrite eqb_spec in Hmx.
      change (Prim2SF 0) with (S754_zero false) in *.
      destruct (Prim2SF mx) as [[] | [] | | [] mm me]; try discriminate;
        destruct (Prim2SF speed) as [[] | [] | | [] m e]; try discriminate;
        reflexivity. }
    apply eqb_zero in Hmx.
    destruct Hmx as [-> | ->], Hmin as [-> | ->]; reflexivity.
Qed.

Lemma speed_color_raises_witness :
  (0 =? 0)%float = true /\ (0 <=? 5)%float = true
  /\ calculate_speed_color (Some 5%float) 0 = Raise ZeroDivisionError.
Proof.
  split; [reflexivity |]. split; [reflexivity |].
  apply (proj2 speed_color_raises 5%float 0%float); [reflexivity .. |].
  intros H. assert (E : (5 =? infinity)%float = true) by now rewrite H.
  discriminate.
Defined.

(** ** Flags *)

(** The symbol that one character of a code becomes, when it becomes one. *)
Lemma flag_points_pair (a b : ascii) :
  flag_points (VStr (String a (String b "")))
  = (o1 <- ord (upper_points a) ;; p1 <- chr (o1 + (127462 - 65)) ;;
     o2 <- ord (upper_points b) ;; p2 <- chr (o2 + (127462 - 65)) ;;
     Ret [p1; p2]).
Proof. reflexivity. Qed.

Lemma letter_point (c : ascii) :
  is_ascii_letter c = true ->
  (o <- ord (upper_points c) ;; chr (o + (127462 - 65)))
  = Ret (127462 + letter_index c).
Proof.
  destruct c as [[] [] [] [] [] [] [] []]; intros H;
    try discriminate H; reflexivity.
Qed.

Lemma point_letter (c : ascii) (p : Z) :
  (o <- ord (upper_points c) ;; chr (o + (127462 - 65))) = Ret p ->
  regional_indicator p = true -> is_ascii_letter c = true.
Proof.
  destruct c as [[] [] [] [] [] [] [] []]; cbn; intros [= <-] H;
    try reflexivity; discriminate H.
Qed.

(** [get_flag_emoji] on a string never raises, and gives the empty text
    unless the string has exactly two characters.  For two letters of A-Z or
    a-z, in either case, it gives the two regional-indicator symbols of the
    letters; and two characters give a pair of regional-indicator symbols
    only when both are such letters.  A number that is not zero, where a
    string was expected, ends the call in a [TypeError]. *)
Theorem get_flag_emoji_spec :
  (forall s, exists points,
     get_flag_emoji (VStr s) = Ret points
     /\ (String.length s <> 2%nat -> points = []))
  /\ (forall a b,
        is_ascii_letter a = true -> is_ascii_letter b = true ->
        get_flag_emoji (VStr (String a (String b "")))
        = Ret [127462 + letter_index a; 127462 + letter_index b])
  /\ (forall a b p q,
        get_flag_emoji (VStr (String a (String b ""))) = Ret [p; q] ->
        regional_indicator p = true -> regional_indicator q = true ->
        is_ascii_letter a = true /\ is_ascii_letter b = true)
  /\ (forall n, n <> 0 -> get_flag_emoji (VInt n) = Raise TypeError).
Proof.
  split; [| split; [| split]].
  - intros s. unfold get_flag_emoji.
    destruct (negb (truthy (VStr s))); [eauto |].
    cbn [py_len bind].
    destruct (negb (Z.of_nat (String.length s) =? 2)) eqn:E.
    + eauto.
    + destruct (flag_points (VStr s)); eexists; (split; [reflexivity |]);
        intros Hl; apply negb_false_iff, Z.eqb_eq in E; lia.
  - intros a b Ha Hb. unfold get_flag_emoji. cbn [truthy String.eqb negb].
    replace (String.eqb (String a (String b "")) "") with false by reflexivity.
    cbn [negb py_len String.length bind]. cbn [Z.of_nat Z.eqb Pos.eqb negb Pos.of_succ_nat Pos.succ].
    rewrite flag_points_pair.
    pose proof (letter_point a Ha) as H1. pose proof (letter_point b Hb) as H2.
    destruct (ord (upper_points a)) as [o1 |]; cbn [bind] in *; [| discriminate].
    rewrite H1. cbn [bind].
    destruct (ord (upper_points b)) as [o2 |]; cbn [bind] in *; [| discriminate].
    rewrite H2. reflexivity.
  - intros a b p q. unfold get_flag_emoji.
    replace (truthy (VStr (String a (String b "")))) with true by reflexivity.
    cbn [negb py_len String.length bind]. cbn [Z.of_nat Z.eqb Pos.eqb negb Pos.of_succ_nat Pos.succ].
    rewrite flag_points_pair.
    pose proof (point_letter a) as H1. pose proof (point_letter b) as H2.
    destruct (ord (upper_points a)) as [o1 |]; cbn [bind] in *; [| discriminate].
    destruct (chr (o1 + (127462 - 65))) as [p1 |]; cbn [bind] in *; [| discriminate].
    destruct (ord (upper_points b)) as [o2 |]; cbn [bind] in *; [| discriminate].
    destruct (chr (o2 + (127462 - 65))) as [p2 |]; cbn [bind] in *; [| discriminate].
    intros [= <- <-] Hp Hq. split; [now apply (H1 p1) | now apply (H2 p2)].
  - intros n Hn. unfold get_flag_emoji. cbn [truthy].
    apply Z.eqb_neq in Hn. now rewrite Hn.
Qed.

Lemma get_flag_emoji_spec_witness :
  is_ascii_letter "s" = true /\ is_ascii_letter "E" = true
  /\ get_flag_emoji (VStr "sE") = Ret [127480; 127466].
Proof.
  split; [reflexivity |]. split; [reflexivity |].
  exact (proj1 (proj2 get_flag_emoji_spec) "s"%char "E"%char eq_refl eq_refl).
Defined.

(** ** The speed prober comes to an end *)

Section Termination.
Variable net : network.
Variable has_stop : bool.

Lemma stop_requested_clock_reads (st : io_state) :
  clock_reads (snd (stop_requested net has_stop st)) = clock_reads st.
Proof. unfold stop_requested. now destruct has_stop. Qed.

(** The receive loop takes at least one byte per turn, so it ends within
    as many turns as bytes are missing. *)
Lemma recv_loop_returns (fuel : nat) :
  forall expected got deadline st,
    (Z.to_nat (expected - got) < fuel)%nat ->
    exists r st',
      recv_loop net has_stop fuel expected got deadline st = Some (r, st')
      /\ (clock_reads st <= clock_reads st')%nat.
Proof.
  induction fuel as [| fuel IH]; intros expected got deadline st Hf; [lia |].
  cbn [recv_loop].
  destruct (got <? expected) eqn:Eg; [| eauto].
  apply Z.ltb_lt in Eg. cbn [monotonic].
  destruct (_ <? deadline)%float; [| eexists _, _; split; [reflexivity | cbn; lia]].
  match goal with
  | |- context [stop_requested net has_stop ?st0] =>
      pose proof (stop_requested_clock_reads st0) as Hs
  end.
  destruct (stop_requested net has_stop _) as [[] st2]; cbn [snd clock_reads] in Hs;
    [eexists _, _; split; [reflexivity | lia] |].
  destruct (_ <=? 0)%float; [eexists _, _; split; [reflexivity | cbn; lia] |].
  unfold sock_recv.
  destruct (recv net (recvs _)) as [n | e];
    [| eexists _, _; split; [reflexivity | cbn; lia]].
  destruct (Z.min n (expected - got) <=? 0) eqn:El;
    [eexists _, _; split; [reflexivity | cbn; lia] |].
  apply Z.leb_gt in El.
  match goal with
  | |- context [recv_loop net has_stop fuel expected ?g deadline ?s] =>
      destruct (IH expected g deadline s) as (r & st' & Hr & Hc); [lia |]
  end.
  exists r, st'. split; [exact Hr |]. cbn in Hc. lia.
Qed.

Lemma recv_loop_more_fuel (fuel : nat) :
  forall fuel' expected got deadline st x,
    (fuel <= fuel')%nat ->
    recv_loop net has_stop fuel expected got deadline st = Some x ->
    recv_loop net has_stop fuel' expected got deadline st = Some x.
Proof.
  induction fuel as [| fuel IH]; intros fuel' expected got deadline st x Hf H;
    [discriminate |].
  destruct fuel' as [| fuel']; [lia |]. cbn [recv_loop] in *.
  destruct (got <? expected); [| exact H].
  destruct (monotonic net st) as [now st1].
  destruct (now <? deadline)%float; [| exact H].
  destruct (stop_requested net has_stop st1) as [[] st2]; [exact H |].
  destruct (monotonic net st2) as [now' st3].
  destruct (_ <=? 0)%float; [exact H |].
  destruct (sock_recv net _ st3) as [[len | e] st4]; [| exact H].
  destruct (len <=? 0); [exact H |].
  apply IH; [lia | exact H].
Qed.

Lemma ping_pong_loop_more_fuel (fuel : nat) :
  forall fuel' expected end_time stats st x,
    (fuel <= fuel')%nat ->
    ping_pong_loop net has_stop fuel expected end_time stats st = Some x ->
    ping_pong_loop net has_stop fuel' expected end_time stats st = Some x.
Proof.
  induction fuel as [| fuel IH]; intros fuel' expected end_time stats st x Hf H;
    [discriminate |].
  destruct fuel' as [| fuel']; [lia |]. cbn [ping_pong_loop] in *.
  destruct (monotonic net st) as [now st1].
  destruct (now <? end_time)%float; [| exact H].
  destruct (stop_requested net has_stop st1) as [[] st2]; [exact H |].
  destruct (monotonic net st2) as [round_start st3].
  destruct (sock_send net st3) as [[sent | e] st4]; [| exact H].
  destruct (sent =? 0); [exact H |].
  destruct (monotonic net st4) as [now' st5].
  destruct (recv_loop net has_stop fuel expected 0 _ st5) as [[r st6] |] eqn:Hr;
    [| discriminate].
  rewrite (recv_loop_more_fuel fuel fuel' _ _ _ _ _ ltac:(lia) Hr).
  destruct r as [bytes | e].
  - destruct (monotonic net st6) as [round_end st7]. apply IH; [lia | exact H].
  - destruct e; try exact H. apply IH; [lia | exact H].
Qed.

(** The ping-pong loop ends once the clock is past the end time: every turn
    reads the clock. *)
Lemma ping_pong_loop_returns (N : nat) (chunk_size : Z) (end_time : float) :
  (forall n, (N <= n)%nat -> (clock net n <? end_time)%float = false) ->
  forall fuel stats st,
    (N - clock_reads st + Z.to_nat chunk_size + 1 < fuel)%nat ->
    exists stats' st',
      ping_pong_loop net has_stop fuel chunk_size end_time stats st
      = Some (stats', st').
Proof.
  intros Hclock. induction fuel as [| fuel IH]; intros stats st Hf; [lia |].
  cbn [ping_pong_loop monotonic].
  destruct (clock net (clock_reads st) <? end_time)%float eqn:Et; [| eauto].
  assert (Hlt : (clock_reads st < N)%nat).
  { destruct (Nat.lt_ge_cases (clock_reads st) N) as [| Hge]; [assumption |].
    rewrite (Hclock _ Hge) in Et. discriminate. }
  match goal with
  | |- context [stop_requested net has_stop ?st0] =>
      pose proof (stop_requested_clock_reads st0) as Hs
  end.
  destruct (stop_requested net has_stop _) as [[] st2]; cbn [snd clock_reads] in Hs;
    [eauto |].
  unfold sock_send.
  destruct (send net (sends _)) as [sent | e]; [| eauto].
  destruct (sent =? 0); [eauto |].
  match goal with
  | |- context [recv_loop net has_stop fuel chunk_size 0 ?d ?s] =>
      destruct (recv_loop_returns fuel chunk_size 0 d s)
        as (r & st6 & Hr & Hc); [lia |]
  end.
  rewrite Hr. cbn [clock_reads] in Hc.
  destruct r as [bytes | e].
  - cbn [monotonic]. apply IH. cbn [clock_reads]. lia.
  - destruct e; eauto. apply IH. lia.
Qed.

Lemma session_try_returns (N : nat) ip port duration chunk_size st :
  (forall d, float_of_int duration = Ret d ->
     forall n, (N <= n)%nat ->
       (clock net n <? clock net (clock_reads st + 2) + d)%float = false) ->
  forall fuel, (N + Z.to_nat chunk_size + 1 < fuel)%nat ->
    exists x, session_try net has_stop fuel ip port duration chunk_size st = Some x.
Proof.
  intros Hclock fuel Hf. unfold session_try. cbn [monotonic].
  unfold sock_socket. destruct (socket net _); [eauto |].
  destruct (sock_connect net ip port _) as [[e |] st2] eqn:Hc; [eauto |].
  unfold sock_connect in Hc. injection Hc as _ <-. cbn [monotonic clock_reads].
  destruct (float_of_int duration) as [d | e]; [| eauto].
  replace (S (S (clock_reads st))) with (clock_reads st + 2)%nat by lia.
  match goal with
  | |- context [ping_pong_loop net has_stop fuel chunk_size ?e ?s ?st0] =>
      destruct (ping_pong_loop_returns N chunk_size e (Hclock d eq_refl) fuel s st0)
        as (stats & st5 & Hl); [cbn [clock_reads]; lia |]
  end.
  rewrite Hl. eauto.
Qed.

Lemma session_try_more_fuel fuel fuel' ip port duration chunk_size st x :
  (fuel <= fuel')%nat ->
  session_try net has_stop fuel ip port duration chunk_size st = Some x ->
  session_try net has_stop fuel' ip port duration chunk_size st = Some x.
Proof.
  intros Hf. unfold session_try.
  destruct (monotonic net st) as [t0 st1].
  destruct (sock_socket net st1) as [[e |] st1']; [auto |].
  destruct (sock_connect net ip port st1') as [[e |] st2]; [auto |].
  destruct (monotonic net st2) as [t1 st3].
  destruct (monotonic net st3) as [t2 st4].
  destruct (float_of_int duration) as [d | e]; [| auto].
  destruct (ping_pong_loop net has_stop fuel chunk_size _ _ st4) as [[stats st5] |] eqn:Hl;
    [| discriminate].
  now rewrite (ping_pong_loop_more_fuel fuel fuel' _ _ _ _ _ Hf Hl).
Qed.

Lemma execute_more_fuel fuel fuel' ip port duration chunk_size st x :
  (fuel <= fuel')%nat ->
  _execute_socket_ping_pong net has_stop fuel ip port duration chunk_size st = Some x ->
  _execute_socket_ping_pong net has_stop fuel' ip port duration chunk_size st = Some x.
Proof.
  intros Hf. unfold _execute_socket_ping_pong.
  destruct (os_urandom net chunk_size st) as [[n | e] st1]; [| auto].
  destruct (session_try net has_stop fuel ip port duration n st1)
    as [y |] eqn:Hs; [| discriminate].
  now rewrite (session_try_more_fuel fuel fuel' _ _ _ _ _ _ Hf Hs).
Qed.

Lemma try_ports_more_fuel fuel fuel' ip duration chunk_size (ports : list Z) :
  (fuel <= fuel')%nat ->
  forall st x,
    try_ports net has_stop fuel ip ports duration chunk_size st = Some x ->
    try_ports net has_stop fuel' ip ports duration chunk_size st = Some x.
Proof.
  intros Hf. induction ports as [| port ports IH]; intros st x; cbn [try_ports];
    [auto |].
  destruct (stop_requested net has_stop st) as [[] st1]; [auto |].
  destruct (_execute_socket_ping_pong net has_stop fuel ip port duration
              chunk_size st1) as [y |] eqn:He; [| discriminate].
  rewrite (execute_more_fuel fuel fuel' _ _ _ _ _ _ Hf He).
  destruct y as [[[dl ul] | e] st2]; [| auto].
  destruct dl, ul; auto.
Qed.

Lemma try_ports_returns ip duration chunk_size (ports : list Z) :
  (forall d k, float_of_int duration = Ret d ->
     exists N, forall n, (N <= n)%nat ->
       (clock net n <? clock net k + d)%float = false) ->
  forall st, exists fuel x,
    try_ports net has_stop fuel ip ports duration chunk_size st = Some x.
Proof.
  intros Hclock. induction ports as [| port ports IH]; intros st.
  - exists 0%nat. cbn. eauto.
  - cbn [try_ports].
    destruct (stop_requested net has_stop st) as [[] st1] eqn:Es;
      [exists 0%nat; eauto |].
    assert (He : exists fuel y,
               _execute_socket_ping_pong net has_stop fuel ip port duration
                 chunk_size st1 = Some y).
    { unfold _execute_socket_ping_pong.
      destruct (os_urandom net chunk_size st1) as [[n | e] st1'] eqn:Hu;
        [| exists 0%nat; eauto].
      apply os_urandom_ret in Hu as (-> & _ & _ & ->).
      assert (HN : exists N, forall d, float_of_int duration = Ret d ->
                    forall n, (N <= n)%nat ->
                      (clock net n <? clock net (clock_reads st1 + 2) + d)%float
                      = false).
      { destruct (float_of_int duration) as [d | e] eqn:Ed.
        - destruct (Hclock d (clock_reads st1 + 2)%nat eq_refl) as [N HN].
          exists N. intros d' [= <-]. exact HN.
        - exists 0%nat. discriminate. }
      destruct HN as [N HN].
      destruct (session_try_returns N ip port duration chunk_size
                  (count_urandom st1) HN
                  (N + Z.to_nat chunk_size + 2)%nat) as [[[stats speeds] st2] Hs];
        [lia |].
      exists (N + Z.to_nat chunk_size + 2)%nat. rewrite Hs. eauto. }
    destruct He as (f1 & y & He).
    destruct y as [[[dl ul] | e] st2].
    + destruct (IH st2) as (f2 & x & Hx).
      exists (Nat.max f1 f2).
      rewrite (execute_more_fuel f1 (Nat.max f1 f2) _ _ _ _ _ _ ltac:(lia) He).
      destruct dl, ul; eauto.
      exists x. apply (try_ports_more_fuel f2); [lia | exact Hx].
    + exists f1. rewrite He. eauto.
Qed.

End Termination.

(** The speed test comes to an end.  A session of
    [_execute_socket_ping_pong] returns as soon as the clock is past the
    session's end time, the time of its third clock reading plus the
    duration: the ping-pong loop reads the clock in every turn, and the
    receive loop of a round takes at least one byte per turn, so that it ends
    within [chunk_size] turns.  And [run_socket_ping_pong_test] returns when
    the clock gets past the end time of every session. *)
Theorem speed_test_terminates (net : network) (has_stop : bool) :
  (forall N ip port duration chunk_size st,
     (forall d, float_of_int duration = Ret d ->
        forall n, (N <= n)%nat ->
          (clock net n <? clock net (clock_reads st + 2) + d)%float = false) ->
     forall fuel, (N + Z.to_nat chunk_size + 1 < fuel)%nat ->
       exists out st',
         _execute_socket_ping_pong net has_stop fuel ip port duration chunk_size st
         = Some (out, st'))
  /\ (forall srv duration chunk_size ports st,
        (forall d k, float_of_int duration = Ret d ->
           exists N, forall n, (N <= n)%nat ->
             (clock net n <? clock net k + d)%float = false) ->
        exists fuel out st',
          run_socket_ping_pong_test net has_stop fuel srv duration chunk_size
            ports st
          = Some (out, st')).
Proof.
  split.
  - intros N ip port duration chunk_size st Hclock fuel Hf.
    unfold _execute_socket_ping_pong.
    destruct (os_urandom net chunk_size st) as [[n | e] st1] eqn:Hu; [| eauto].
    apply os_urandom_ret in Hu as (-> & _ & _ & ->).
    destruct (session_try_returns net has_stop N ip port duration chunk_size
                (count_urandom st) Hclock fuel Hf) as [[[stats speeds] st'] ->].
    eauto.
  - intros srv duration chunk_size ports st Hclock.
    unfold run_socket_ping_pong_test.
    destruct (negb (truthy (dict_get srv "ipv4_addr_in")));
      [exists 0%nat; eauto |].
    destruct (try_ports_returns net has_stop (dict_get srv "ipv4_addr_in")
                duration chunk_size ports Hclock st) as (fuel & [out st'] & H).
    eauto.
Qed.

Lemma ltb_infinity_l (x : float) : (infinity <? x)%float = false.
Proof.
  rewrite ltb_spec. change (Prim2SF infinity) with (S754_infinity false).
  destruct (Prim2SF x) as [[] | [] | | [] m e]; reflexivity.
Qed.

Lemma speed_test_terminates_witness :
  exists fuel out st',
    run_socket_ping_pong_test late_network false fuel
      [("hostname", VStr "se-got-wg-001"); ("ipv4_addr_in", VStr "192.0.2.1")]
      5 8192 DEFAULT_PORTS io_start
    = Some (out, st').
Proof.
  apply (proj2 (speed_test_terminates late_network false)).
  intros d k _. exists 3%nat. intros n Hn. cbn [clock late_network].
  replace (n <? 3)%nat with false by (symmetry; apply Nat.ltb_ge; lia).
  apply ltb_infinity_l.
Defined.

(** ** Speeds are not negative *)

Lemma shr_fexp_nonneg (m e : Z) (l : location) :
  0 <= m -> 0 <= shr_m (fst (shr_fexp prec emax m e l)).
Proof.
  intros Hm. unfold shr_fexp, shr.
  assert (Hrec : shr_m (shr_record_of_loc m l) = m)
    by (destruct l as [| []]; reflexivity).
  destruct (fexp prec emax (Zdigits2 m + e) - e) as [| p | p]; cbn [fst];
    rewrite ?Hrec; auto.
  rewrite iter_shr_1_m by (rewrite Hrec; exact Hm).
  apply Z.shiftr_nonneg. now rewrite Hrec.
Qed.

Lemma round_nearest_even_nonneg (m : Z) (l : location) :
  0 <= m -> 0 <= round_nearest_even m l.
Proof.
  intros Hm. destruct l as [| []]; cbn; try lia.
  destruct (IntDef.Z.even m); lia.
Qed.

(** Rounding keeps the sign and makes no NaN. *)
Lemma binary_round_aux_plus (m e : Z) (l : location) :
  0 <= m -> plus_signed (binary_round_aux prec emax false m e l).
Proof.
  intros Hm. unfold binary_round_aux.
  pose proof (shr_fexp_nonneg m e l Hm) as H1.
  destruct (shr_fexp prec emax m e l) as [mrs1 e1]; cbn [fst] in H1.
  pose proof (round_nearest_even_nonneg _ (loc_of_shr_record mrs1) H1) as Hr.
  pose proof (shr_fexp_nonneg _ e1 loc_Exact Hr) as H2.
  destruct (shr_fexp prec emax _ e1 loc_Exact) as [mrs2 e2]; cbn [fst] in H2.
  destruct (shr_m mrs2) as [| m2 | m2]; [exact I | | lia].
  destruct (e2 <=? emax - prec); exact I.
Qed.

Lemma binary_normalize_plus (n : Z) :
  0 <= n -> plus_signed (binary_normalize prec emax n 0 false).
Proof.
  intros Hn. unfold binary_normalize. destruct n as [| p | p]; [exact I | | lia].
  unfold binary_round.
  destruct (shl_align p 0 (fexp prec emax (Zpos (digits2_pos p) + 0))) as [mz ez].
  apply binary_round_aux_plus. lia.
Qed.

(** Below [2 ^ 63] the conversion of an [int] is the processor's. *)
Lemma float_of_int_small (n : Z) (r : float) :
  0 <= n < 2 ^ 63 -> float_of_int n = Ret r ->
  Prim2SF r = S754_zero false \/ exists m e, Prim2SF r = S754_finite false m e.
Proof.
  intros Hn. unfold float_of_int.
  assert (E : binary_normalize prec emax n 0 false
              = Prim2SF (of_uint63 (Uint63.of_Z n))).
  { rewrite of_uint63_spec, Uint63.of_Z_spec, Z.mod_small; [reflexivity |].
    exact Hn. }
  pose proof (binary_normalize_plus n (proj1 Hn)) as Hp.
  rewrite E in *.
  destruct (Prim2SF (of_uint63 (Uint63.of_Z n))) as [[] | [] | | [] m e] eqn:Ex;
    try contradiction; try discriminate;
    intros H;
    apply (f_equal (fun o => match o with
                             | Ret v => Prim2SF v
                             | Raise _ => S754_nan
                             end)) in H;
    cbv beta iota in H;
    (rewrite Prim2SF_SF2Prim in H by (rewrite <- Ex; apply Prim2SF_valid));
    rewrite <- H; eauto.
Qed.

Lemma div_eucl_nonneg (a : Z) (b : positive) :
  0 <= a -> 0 <= fst (Z.div_eucl a (Zpos b)).
Proof.
  intros Ha. pose proof (Z.div_pos a (Zpos b) Ha ltac:(lia)) as H.
  unfold Z.div in H. now destruct (Z.div_eucl a (Zpos b)).
Qed.

Lemma SFdiv_plus (ma : positive) (ea : Z) (mb : positive) (eb : Z) :
  plus_signed (SFdiv prec emax (S754_finite false ma ea) (S754_finite false mb eb)).
Proof.
  cbn [SFdiv xorb]. unfold SFdiv_core_binary.
  set (m' := match _ - _ - _ with 0 => Zpos ma | Zpos _ => _ | Zneg _ => 0 end).
  assert (Hm : 0 <= m').
  { subst m'. destruct (_ - _ - _) as [| p | p]; try lia.
    apply Z.shiftl_nonneg. lia. }
  pose proof (div_eucl_nonneg m' mb Hm) as Hq.
  change IntDef.Z.div_eucl with Z.div_eucl.
  destruct (Z.div_eucl m' (Zpos mb)) as [q r]. cbn [fst] in Hq.
  now apply binary_round_aux_plus.
Qed.

Lemma plus_signed_leb (r : float) :
  plus_signed (Prim2SF r) -> (0 <=? r)%float = true.
Proof.
  rewrite leb_spec. change (Prim2SF 0) with (S754_zero false).
  destruct (Prim2SF r) as [[] | [] | | [] m e]; cbn; intros H;
    try contradiction; reflexivity.
Qed.

(** [calculate_mbps] gives no negative speed.  For a duration that is not
    a NaN and a byte count below [2 ^ 60], every value it returns is a float
    [>= 0.0], so it is no NaN either.  A NaN duration gets past the guard:
    with a positive byte count the value returned is a NaN. *)
Theorem calculate_mbps_nonnegative :
  (forall b d r,
     b * 8 < 2 ^ 63 -> (d =? d)%float = true ->
     calculate_mbps b d = Ret r -> (0 <=? r)%float = true)
  /\ (forall b r,
        0 < b -> calculate_mbps b nan = Ret r -> (r =? r)%float = false).
Proof.
  split.
  - intros b d r Hb Hd. unfold calculate_mbps.
    destruct (d <=? 0.01)%float eqn:Eg; cbn [orb]; [now intros [= <-] |].
    destruct (b <=? 0) eqn:Eb; [now intros [= <-] |].
    apply Z.leb_gt in Eb.
    unfold int_truediv_float, float_truediv.
    destruct (float_of_int (b * 8)) as [a |] eqn:Ea; cbn [bind]; [| discriminate].
    destruct (d * 1000000 =? 0)%float eqn:Ez; [discriminate |].
    intros [= <-]. apply plus_signed_leb. rewrite div_spec, mul_spec.
    rewrite eqb_spec, mul_spec in Ez.
    rewrite eqb_spec in Hd. rewrite leb_spec in Eg.
    rewrite Prim2SF_001 in Eg. rewrite Prim2SF_1e6 in *.
    change (Prim2SF 0) with (S754_zero false) in Ez.
    assert (Hmul : forall m e,
              plus_signed (SF64mul (S754_finite false m e)
                             (S754_finite false 8589934592000000 (-33)))).
    { intros m e. apply binary_round_aux_plus. lia. }
    destruct (float_of_int_small (b * 8) a ltac:(lia) Ea) as [Ha | (ma & ea & Ha)];
      rewrite Ha;
      destruct (Prim2SF d) as [[] | [] | | [] m e]; try discriminate;
      try exact I;
      specialize (Hmul m e);
      destruct (SF64mul (S754_finite false m e)
                  (S754_finite false 8589934592000000 (-33)))
        as [[] | [] | | [] mb eb]; try contradiction; try discriminate;
      try exact I.
    apply SFdiv_plus.
  - intros b r Hb. unfold calculate_mbps.
    replace (nan <=? 0.01)%float with false by reflexivity.
    replace (b <=? 0) with false by (symmetry; apply Z.leb_gt; lia).
    cbn [orb]. unfold int_truediv_float, float_truediv.
    destruct (float_of_int (b * 8)) as [a |]; cbn [bind]; [| discriminate].
    replace (nan * 1000000 =? 0)%float with false by reflexivity.
    intros [= <-]. rewrite eqb_spec, div_spec.
    replace (Prim2SF (nan * 1000000)) with S754_nan by reflexivity.
    destruct (Prim2SF a) as [[] | [] | | [] m e]; reflexivity.
Qed.

Lemma calculate_mbps_nonnegative_witness :
  1000000 * 8 < 2 ^ 63 /\ (1 =? 1)%float = true
  /\ calculate_mbps 1000000 1 = Ret 8%float /\ (0 <=? 8)%float = true.
Proof.
  assert (H : calculate_mbps 1000000 1 = Ret 8%float) by (vm_compute; reflexivity).
  split; [lia |]. split; [reflexivity |]. split; [exact H |].
  apply (proj1 calculate_mbps_nonnegative 1000000 1%float 8%float);
    [lia | reflexivity | exact H].
Defined.

